(** * ghetto_botato: the coordination core behind the spreadsheet ledger

    A shallow embedding of [src/google/GoogleAPI.ts] and of
    [TwitchBotBase] (its [chat], its parsers of tags and badges, and its
    calls of the Twitch API), together with models of the three
    collaborators the handlers are written against and whose classes are
    not among the sources: [Future], [TaskQueue] and [HeldTask].

    Conventions.
    - A JavaScript string is a [string]; one character stands for one
      UTF-16 code unit, so [String.length] is the [.length] property.
    - Channel points and bits are integral [number]s and are modelled
      as [Z].
    - The body of an [async] function is run in one piece, from its call
      to its end: it returns, it throws, or it stays suspended on a
      [Future] that is still pending.
    - A closure is the record of the variables it captures; an object
      that is mutated in place and shared lives in a store and is named
      by its index there.
    - Every awaited remote call answers or rejects, as an explicit list
      of faults tells. *)

From Stdlib Require Import ZArith String Ascii List Bool Lia DecimalString.
From stdpp Require Import base option list gmap strings.

Local Open Scope Z_scope.
Local Open Scope string_scope.

(** ** Deferred Value *)

Module Future.

Section Deferred.
Context {T : Type}.

(** Modelled from the spec: the class [Future] ("../Future") is not among
    the sources.  Section 3: the state is [{pending}] or
    [{settled, value}]. *)
Inductive state : Type :=
| Pending
| Settled (value : T).

(** Modelled from the spec: [create()] gives a new instance in the
    pending state. *)
Definition create : state := Pending.

(** Modelled from the spec: [settle(value)] moves a pending instance to
    settled; on a settled instance the call is the [AlreadySettled]
    case, taken here as the silent ignore (the flag reports whether the
    state changed). *)
Definition settle (v : T) (s : state) : state * bool :=
  match s with
  | Pending => (Settled v, true)
  | Settled _ => (s, false)
  end.

Definition resolve (v : T) (s : state) : state := fst (settle v s).

(** Modelled from the spec: [get()] returns the value at once on a
    settled instance and suspends the caller ([None]) on a pending
    one. *)
Definition get (s : state) : option T :=
  match s with
  | Pending => None
  | Settled v => Some v
  end.

(** A deferred value together with the consumers suspended on it.
    [delivered] records, per consumer, the value its [get()] returned;
    [changes] counts the state transitions. *)
Record cell : Type := {
  st : state;
  waiters : list nat;
  delivered : list (nat * T);
  changes : nat;
}.

Definition fresh : cell :=
  {| st := create; waiters := []; delivered := []; changes := 0 |}.

Inductive call : Type :=
| CallSettle (v : T)
| CallGet (consumer : nat).

Definition step (c : cell) (op : call) : cell :=
  match op with
  | CallSettle v =>
      match settle v (st c) with
      | (s', true) =>
          {| st := s';
             waiters := [];
             delivered := delivered c ++ map (fun w => (w, v)) (waiters c);
             changes := S (changes c) |}
      | (_, false) => c
      end
  | CallGet k =>
      match get (st c) with
      | Some v =>
          {| st := st c; waiters := waiters c;
             delivered := delivered c ++ [(k, v)];
             changes := changes c |}
      | None =>
          {| st := st c; waiters := waiters c ++ [k];
             delivered := delivered c; changes := changes c |}
      end
  end.

Definition run (ops : list call) : cell := fold_left step ops fresh.

(** The first value offered to [settle], if any. *)
Fixpoint first_settle (ops : list call) : option T :=
  match ops with
  | [] => None
  | CallSettle v :: _ => Some v
  | CallGet _ :: rest => first_settle rest
  end.

Definition gets (ops : list call) : list nat :=
  flat_map (fun op => match op with CallGet k => [k] | CallSettle _ => [] end) ops.

End Deferred.

Arguments state : clear implicits.
Arguments cell : clear implicits.
Arguments call : clear implicits.

End Future.

(** ** TwitchBotBase.chat *)

Module TwitchBot.

(** What a call of the bot reaches outside the process: [super.chat],
    the chat output of [IrcBotBase], and the console. *)
Inductive output : Type :=
| SuperChat (recipient message : string)
| ConsoleLog (line : string).

Definition maxChatMessageLength : nat := 500.

Definition tooLongNotice : string :=
  "<Message was too long. Please file a bug report with the owner :)>".

(** [TwitchBotBase.chat]: the console line is written first, then
    [super.chat] receives [actualMessage]. *)
Definition chat (recipient message : string) : list output :=
  if (maxChatMessageLength <? String.length message)%nat
  then [ConsoleLog ("Message too long for Twitch: " ++ message);
        SuperChat recipient tooLongNotice]
  else [SuperChat recipient message].

(** The arguments of the [super.chat] calls, in order. *)
Definition forwarded (out : list output) : list (string * string) :=
  flat_map (fun o => match o with
                     | SuperChat r m => [(r, m)]
                     | ConsoleLog _ => []
                     end) out.

End TwitchBot.

(** ** Serialized Task Executor *)

Module TaskQueue.

Section Executor.
Context {Task : Type}.

Inductive entry : Type :=
| Started (t : Task)
| Finished (t : Task) (threw : bool).

(** Modelled from the spec: the class [TaskQueue] ("../TaskQueue") is not
    among the sources.  Section 3: an ordered sequence of not-yet-run
    tasks plus a boolean "currently draining" flag.  [executing] holds
    the task each active drain loop is suspended in (the loops' control
    state) and [log] the executions begun and ended so far. *)
Record state : Type := {
  tasks : list Task;
  draining : bool;
  executing : list Task;
  log : list entry;
}.

Definition create : state :=
  {| tasks := []; draining := false; executing := []; log := [] |}.

(** Modelled from the spec: [submit(task)] appends to the tail of the
    pending sequence and returns at once. *)
Definition addTask (t : Task) (q : state) : state :=
  {| tasks := tasks q ++ [t]; draining := draining q;
     executing := executing q; log := log q |}.

(** Modelled from the spec: the head of the drain loop, "while the
    sequence is non-empty, pop the head, execute it to completion";
    the loop for which the sequence is empty ends and clears the
    flag. *)
Definition loopHead (q : state) : state :=
  match tasks q with
  | [] =>
      {| tasks := []; draining := false;
         executing := executing q; log := log q |}
  | t :: rest =>
      {| tasks := rest; draining := draining q;
         executing := executing q ++ [t]; log := log q ++ [Started t] |}
  end.

(** Modelled from the spec: [drain()] starts the loop if none is
    running and is a no-op otherwise. *)
Definition startQueue (q : state) : state :=
  if draining q then q
  else loopHead {| tasks := tasks q; draining := true;
                   executing := executing q; log := log q |}.

(** Modelled from the spec: the task the [i]-th active loop is suspended
    in runs to its end, failing or not ("if a task raises an error, the
    executor ... proceeds to the next task"); the loop goes on with its
    next iteration. *)
Definition finish (i : nat) (threw : bool) (q : state) : state :=
  match executing q !! i with
  | None => q
  | Some t =>
      loopHead {| tasks := tasks q; draining := draining q;
                  executing := delete i (executing q);
                  log := log q ++ [Finished t threw] |}
  end.

Inductive event : Type :=
| EvAddTask (t : Task)
| EvStartQueue
| EvFinish (i : nat) (threw : bool).

Definition step (q : state) (e : event) : state :=
  match e with
  | EvAddTask t => addTask t q
  | EvStartQueue => startQueue q
  | EvFinish i threw => finish i threw q
  end.

Definition run (evs : list event) : state := fold_left step evs create.

(** The tasks handed to [addTask], in call order. *)
Definition submitted (evs : list event) : list Task :=
  flat_map (fun e => match e with EvAddTask t => [t] | _ => [] end) evs.

(** The tasks whose execution began, in the order it began. *)
Definition started (l : list entry) : list Task :=
  flat_map (fun x => match x with Started t => [t] | Finished _ _ => [] end) l.

(** Number of executions open at the end of [l] when [d] were open at
    its start; [None] as soon as an execution begins while another is
    open, or one ends while none is. *)
Fixpoint overlap_free (d : nat) (l : list entry) : option nat :=
  match l with
  | [] => Some d
  | Started _ :: rest =>
      match d with
      | O => overlap_free 1 rest
      | S _ => None
      end
  | Finished _ _ :: rest =>
      match d with
      | S O => overlap_free 0 rest
      | _ => None
      end
  end.

End Executor.

Arguments state : clear implicits.
Arguments entry : clear implicits.
Arguments event : clear implicits.

End TaskQueue.

(** ** Held Action registry *)

Module HeldTask.

Inductive settlement : Type := pending | completed | cancelled.

Inductive side : Type := Completion | Cancellation.

#[global] Instance side_eq_dec : EqDecision side.
Proof. solve_decision. Defined.

Section Registry.
Context {Op : Type}.

(** Modelled from the spec: the classes of "../HeldTask" are not among
    the sources.  Section 3: a completion operation, a cancellation
    operation, a deadline and a settlement state; [key] is the identity
    the action was registered under. *)
Record action : Type := {
  key : string;
  completionOp : Op;
  cancellationOp : Op;
  deadline : Z;
  status : settlement;
}.

(** [actions] holds every Held Action ever registered, the index being
    its identity; [active] is the registry proper (key to the one active
    action); [invoked] lists the operations run so far; [now] is the
    clock the deadline timers run on, in milliseconds. *)
Record registry : Type := {
  now : Z;
  actions : list action;
  active : gmap string nat;
  invoked : list (nat * side * Op);
}.

Definition create : registry :=
  {| now := 0; actions := []; active := ∅; invoked := [] |}.

(** Modelled from the spec: [register], in the sources
    [new HeldTask(complete, cancel)] followed by
    [addHeldTask(key, heldTask, timeout)], creates a pending Held Action
    and starts its deadline timer; an entry already held for the key is
    silently replaced (the reference behaviour of sections 3 and 9), the
    replaced action keeping its own timer. *)
Definition addHeldTask (k : string) (complete cancel : Op) (timeout : Z)
    (r : registry) : registry :=
  {| now := now r;
     actions := actions r ++
       [{| key := k; completionOp := complete; cancellationOp := cancel;
           deadline := now r + timeout; status := pending |}];
     active := <[k := length (actions r)]> (active r);
     invoked := invoked r |}.

Definition with_status (s : settlement) (a : action) : action :=
  {| key := key a; completionOp := completionOp a;
     cancellationOp := cancellationOp a; deadline := deadline a;
     status := s |}.

Definition opOf (w : side) (a : action) : Op :=
  match w with
  | Completion => completionOp a
  | Cancellation => cancellationOp a
  end.

Definition outcomeOf (w : side) : settlement :=
  match w with
  | Completion => completed
  | Cancellation => cancelled
  end.

(** Modelled from the spec: atomic settlement.  The state field is
    checked and set before the side effect is invoked; the settled
    action's entry leaves the registry. *)
Definition settleAction (id : nat) (w : side) (r : registry) : registry :=
  match actions r !! id with
  | Some a =>
      match status a with
      | pending =>
          {| now := now r;
             actions := <[id := with_status (outcomeOf w) a]> (actions r);
             active := if decide (active r !! key a = Some id)
                       then delete (key a) (active r) else active r;
             invoked := invoked r ++ [(id, w, opOf w a)] |}
      | _ => r
      end
  | None => r
  end.

(** Modelled from the spec: [complete(key)] and [cancel(key)]; with no
    pending action under the key the call is a no-op. *)
Definition resolveKey (w : side) (k : string) (r : registry) : registry :=
  match active r !! k with
  | Some id => settleAction id w r
  | None => r
  end.

Definition complete : string -> registry -> registry := resolveKey Completion.
Definition cancel : string -> registry -> registry := resolveKey Cancellation.

(** Modelled from the spec: deadline firing.  A timer that elapses finds
    its action pending, or does nothing: settlement by another path has
    cancelled the timer. *)
Definition fireDeadline (id : nat) (r : registry) : registry :=
  match actions r !! id with
  | Some a =>
      if decide (deadline a <= now r) then settleAction id Cancellation r else r
  | None => r
  end.

(** The clock moves forward by [dt] milliseconds and every timer that
    has elapsed by then fires, in order of registration. *)
Definition advance (dt : Z) (r : registry) : registry :=
  let r' := {| now := now r + Z.max 0 dt; actions := actions r;
               active := active r; invoked := invoked r |} in
  fold_left (fun acc id => fireDeadline id acc) (seq 0 (length (actions r))) r'.

Inductive event : Type :=
| EvRegister (k : string) (complete cancel : Op) (timeout : Z)
| EvComplete (k : string)
| EvCancel (k : string)
| EvAdvance (dt : Z).

Definition step (r : registry) (e : event) : registry :=
  match e with
  | EvRegister k c x t => addHeldTask k c x t r
  | EvComplete k => complete k r
  | EvCancel k => cancel k r
  | EvAdvance dt => advance dt r
  end.

Definition run (evs : list event) : registry := fold_left step evs create.

(** How many times the operation of side [w] of action [id] has run. *)
Definition ran (id : nat) (w : side) (l : list (nat * side * Op)) : nat :=
  length (filter (fun x => x.1.1 = id ∧ x.1.2 = w) l).

(** No [complete] or [cancel] call names key [k]. *)
Definition undecided (k : string) (evs : list event) : Prop :=
  Forall (fun e => match e with
                   | EvComplete k' | EvCancel k' => k' ≠ k
                   | _ => True
                   end) evs.

End Registry.

Arguments action : clear implicits.
Arguments registry : clear implicits.
Arguments event : clear implicits.

End HeldTask.

(** ** GoogleAPI *)

Module GoogleAPI.

(** [{ success, message }], the result of the bidwar sheet operations. *)
Record Status : Type := {
  success : bool;
  message : option string;
}.

(** JavaScript truthiness of an optional string. *)
Definition truthy (s : option string) : bool :=
  match s with
  | Some EmptyString | None => false
  | Some _ => true
  end.

(** What [GoogleAPI.ts] imports from the spreadsheet modules
    ("./spreadsheets/..."), from [googleapis] and from the language:
    their declarations are not among the sources, so the embedding is
    parametric in them.  An in-place update of a sheet object is a
    function to the updated sheet. *)
Class Spreadsheets : Type := {
  Sheets : Type;
  Date : Type;
  newDate : string -> Date;
  GameRequest_Spreadsheet : Type;
  GameRequestEntry : Type;
  pointsContributed : GameRequestEntry -> Z;
  pointsToActivate : GameRequestEntry -> Z;
  findEntry : GameRequest_Spreadsheet -> string -> option GameRequestEntry;
  addPointsToEntry :
    GameRequest_Spreadsheet -> string -> string -> Z -> Date ->
    GameRequest_Spreadsheet;
  addEntry :
    GameRequest_Spreadsheet -> string -> Z -> option Z -> string -> Z -> Date ->
    GameRequest_Spreadsheet;
  Bidwar_Spreadsheet : Type;
  addBitsToUser :
    Bidwar_Spreadsheet -> string -> string -> Z -> Date -> option string ->
    Bidwar_Spreadsheet;
  spendBitsOnEntry :
    Bidwar_Spreadsheet -> string -> string -> string -> Z -> Date ->
    Status * Bidwar_Spreadsheet;
  bidwarAddEntry : Bidwar_Spreadsheet -> string -> Status * Bidwar_Spreadsheet;
}.

Definition incentiveSheetId : string := "1dNi-OkDok6SH8VrN1s23l-9BIuekwBgfdXsu-SqIIMY".
Definition gameRequestSubSheet : Z := 384782784.
Definition bidwarSubSheet : Z := 877321766.

(** Template-literal rendering of an integral number. *)
Definition show (n : Z) : string := NilZero.string_of_int (Z.to_int n).

Record Reward : Type := {
  reward_id : string;
  cost : Z;
}.

(** The fields of [TwitchEventSub_Event_ChannelPointCustomRewardRedemptionAdd]
    that the handlers read. *)
Record Redemption : Type := {
  id : string;
  broadcaster_user_id : string;
  broadcaster_user_name : string;
  user_id : string;
  user_name : string;
  user_input : string;
  reward : Reward;
  redeemed_at : string;
}.

(** The fields of [TwitchEventSub_Event_Cheer] that [handleCheer] reads;
    an absent field is [undefined]. *)
Record Cheer : Type := {
  is_anonymous : bool;
  cheer_user_id : option string;
  cheer_user_name : option string;
  bits : Z;
}.

Record Subscription : Type := {
  created_at : string;
}.

Inductive FundGameRequestOutcomeType : Type :=
| Fulfilled
| Unfulfilled
| PendingConfirmation.

(** How the body of an [async] function ends: it returns, it throws,
    or it stays suspended on a future that is not settled. *)
Inductive Res (A : Type) : Type :=
| Returned (a : A)
| Thrown (err : string)
| Suspended.

Arguments Returned {A} a.
Arguments Thrown {A} err.
Arguments Suspended {A}.

Section WithSpreadsheets.
Context `{Spreadsheets}.

(** The closure [completeFunding] of [handleGameRequestFund] with the
    variables it captures; [cf_sheet] refers to the sheet object the
    task read, which the closure shares with the task. *)
Record CompleteFunding : Type := {
  cf_sheet : nat;
  cf_respondTo : string;
  cf_username : string;
  cf_gameName : string;
  cf_points : Z;
  cf_timestamp : Date;
}.

Record FundGameRequestOutcome : Type := {
  type : FundGameRequestOutcomeType;
  overfundAmount : option Z;
  complete : option CompleteFunding;
}.

(** The values the handlers' futures are resolved with. *)
Inductive FutureValue : Type :=
| Void
| Outcome (o : FundGameRequestOutcome).

(** The [task] closures of the six handlers, each with the future it
    was created next to and the arguments it captures. *)
Inductive Task : Type :=
| GameRequestFund (future : nat) (respondTo gameName username : string)
    (points : Z) (timestamp : Date)
| GameRequestAdd (future : nat) (respondTo gameName : string)
    (gameLengthHours : Z) (pointsToActivate : option Z) (username : string)
    (points : Z) (timestamp : Date)
| CheerTask (future : nat) (event : Cheer) (subscription : Subscription)
| BidwarContribute (future : nat) (respondTo userId username gameName : string)
    (bits : Z) (timestamp : Date)
| BidwarAddEntry (future : nat) (respondTo gameName : string)
| BidwarAddFunds (future : nat) (respondTo userId username : string)
    (amount : Z) (source : option string) (timestamp : Date).

(** The closures [complete] and [cancel] that [handleGameRequestRedeem]
    hands to [new HeldTask]. *)
Inductive HeldOp : Type :=
| RedeemComplete (outcomeComplete : CompleteFunding) (event : Redemption)
| RedeemCancel (event : Redemption).

(** What the outside observes, in order; [TaskBegins] and [TaskEnds]
    bracket the effects of a task run by the task queue. *)
Inductive effect : Type :=
| Bot (o : TwitchBot.output)
| Read (sheets : Sheets) (doc : string) (subSheet : Z)
| Push (sheets : Sheets) (doc : string) (subSheet : Z)
| UpdateRedemption (redemption rewardId broadcasterId : string) (fulfilled : bool)
| TaskBegins
| TaskEnds.

(** Everything the handlers can reach: the two sub-sheets of the remote
    document, the sheet objects read so far, the fields of the
    [GoogleAPI] instance ([googleSheets], [taskQueue]), the futures the
    handlers created, the bot's held tasks, the calls of
    [handleGameRequestRedeem] suspended on their outcome, and the trace
    of outside effects.  [faults] decides the awaited remote calls in
    order: [Some e] makes the next call reject with [e], [None] (or an
    exhausted list) lets it succeed. *)
Record World : Type := {
  remoteGameRequests : GameRequest_Spreadsheet;
  remoteBidwar : Bidwar_Spreadsheet;
  faults : list (option string);
  objects : list GameRequest_Spreadsheet;
  googleSheets : Future.state Sheets;
  taskQueue : TaskQueue.state Task;
  futures : list (Future.state FutureValue);
  heldTasksByUserId : HeldTask.registry HeldOp;
  awaitingOutcome : list (nat * Redemption);
  trace : list effect;
}.

Definition set_remoteGameRequests v (w : World) : World :=
  {| remoteGameRequests := v; remoteBidwar := remoteBidwar w;
     faults := faults w; objects := objects w;
     googleSheets := googleSheets w; taskQueue := taskQueue w;
     futures := futures w; heldTasksByUserId := heldTasksByUserId w;
     awaitingOutcome := awaitingOutcome w; trace := trace w |}.

Definition set_remoteBidwar v (w : World) : World :=
  {| remoteGameRequests := remoteGameRequests w; remoteBidwar := v;
     faults := faults w; objects := objects w;
     googleSheets := googleSheets w; taskQueue := taskQueue w;
     futures := futures w; heldTasksByUserId := heldTasksByUserId w;
     awaitingOutcome := awaitingOutcome w; trace := trace w |}.

Definition set_faults v (w : World) : World :=
  {| remoteGameRequests := remoteGameRequests w; remoteBidwar := remoteBidwar w;
     faults := v; objects := objects w;
     googleSheets := googleSheets w; taskQueue := taskQueue w;
     futures := futures w; heldTasksByUserId := heldTasksByUserId w;
     awaitingOutcome := awaitingOutcome w; trace := trace w |}.

Definition set_objects v (w : World) : World :=
  {| remoteGameRequests := remoteGameRequests w; remoteBidwar := remoteBidwar w;
     faults := faults w; objects := v;
     googleSheets := googleSheets w; taskQueue := taskQueue w;
     futures := futures w; heldTasksByUserId := heldTasksByUserId w;
     awaitingOutcome := awaitingOutcome w; trace := trace w |}.

Definition set_googleSheets v (w : World) : World :=
  {| remoteGameRequests := remoteGameRequests w; remoteBidwar := remoteBidwar w;
     faults := faults w; objects := objects w;
     googleSheets := v; taskQueue := taskQueue w;
     futures := futures w; heldTasksByUserId := heldTasksByUserId w;
     awaitingOutcome := awaitingOutcome w; trace := trace w |}.

Definition set_taskQueue v (w : World) : World :=
  {| remoteGameRequests := remoteGameRequests w; remoteBidwar := remoteBidwar w;
     faults := faults w; objects := objects w;
     googleSheets := googleSheets w; taskQueue := v;
     futures := futures w; heldTasksByUserId := heldTasksByUserId w;
     awaitingOutcome := awaitingOutcome w; trace := trace w |}.

Definition set_futures v (w : World) : World :=
  {| remoteGameRequests := remoteGameRequests w; remoteBidwar := remoteBidwar w;
     faults := faults w; objects := objects w;
     googleSheets := googleSheets w; taskQueue := taskQueue w;
     futures := v; heldTasksByUserId := heldTasksByUserId w;
     awaitingOutcome := awaitingOutcome w; trace := trace w |}.

Definition set_heldTasksByUserId v (w : World) : World :=
  {| remoteGameRequests := remoteGameRequests w; remoteBidwar := remoteBidwar w;
     faults := faults w; objects := objects w;
     googleSheets := googleSheets w; taskQueue := taskQueue w;
     futures := futures w; heldTasksByUserId := v;
     awaitingOutcome := awaitingOutcome w; trace := trace w |}.

Definition set_awaitingOutcome v (w : World) : World :=
  {| remoteGameRequests := remoteGameRequests w; remoteBidwar := remoteBidwar w;
     faults := faults w; objects := objects w;
     googleSheets := googleSheets w; taskQueue := taskQueue w;
     futures := futures w; heldTasksByUserId := heldTasksByUserId w;
     awaitingOutcome := v; trace := trace w |}.

Definition set_trace v (w : World) : World :=
  {| remoteGameRequests := remoteGameRequests w; remoteBidwar := remoteBidwar w;
     faults := faults w; objects := objects w;
     googleSheets := googleSheets w; taskQueue := taskQueue w;
     futures := futures w; heldTasksByUserId := heldTasksByUserId w;
     awaitingOutcome := awaitingOutcome w; trace := v |}.

(** *** The monad of [async] bodies *)

Definition M (A : Type) : Type := World -> Res A * World.

Definition ret {A} (a : A) : M A := fun w => (Returned a, w).

Definition bind {A B} (m : M A) (k : A -> M B) : M B :=
  fun w =>
    match m w with
    | (Returned a, w') => k a w'
    | (Thrown e, w') => (Thrown e, w')
    | (Suspended, w') => (Suspended, w')
    end.

(** [try { body } catch (err) { handler }] *)
Definition tryCatch {A} (body : M A) (handler : string -> M A) : M A :=
  fun w =>
    match body w with
    | (Thrown e, w') => handler e w'
    | r => r
    end.

Definition modify (f : World -> World) : M unit := fun w => (Returned tt, f w).

Definition emit (es : list effect) : M unit :=
  modify (fun w => set_trace (trace w ++ es) w).

End WithSpreadsheets.

Declare Scope async_scope.
Delimit Scope async_scope with async.
Notation "x <- m ;; k" := (bind m (fun x => k))
  (at level 100, m at next level, right associativity) : async_scope.
Notation "m ;; k" := (bind m (fun _ => k))
  (at level 100, right associativity) : async_scope.

Section Handlers.
Context `{Spreadsheets}.
Local Open Scope async_scope.

(** *** Collaborators *)

(** [this._twitchBot.chat(recipient, message)] *)
Definition chat (recipient message : string) : M unit :=
  emit (map Bot (TwitchBot.chat recipient message)).

(** [console.log(err)] *)
Definition consoleLog (line : string) : M unit :=
  emit [Bot (TwitchBot.ConsoleLog line)].

(** [await this._googleSheets] *)
Definition awaitSheets : M Sheets :=
  fun w =>
    match Future.get (googleSheets w) with
    | Some sheets => (Returned sheets, w)
    | None => (Suspended, w)
    end.

(** Modelled from the spec: the HTTP layer under the spreadsheet and
    Twitch calls is not among the sources.  Section 1: a request/response
    source; a call either answers or rejects.  Each call consumes one
    entry of [faults]. *)
Definition remoteCall : M unit :=
  fun w =>
    match hd None (faults w) with
    | Some e => (Thrown e, set_faults (tl (faults w)) w)
    | None => (Returned tt, set_faults (tl (faults w)) w)
    end.

(** Modelled from the spec: [GameRequest_Spreadsheet.getGameRequestSpreadsheet]
    ("./spreadsheets/GameRequestSpreadsheet") is not among the sources.
    Section 6: the remote read of a task.  It rejects, or yields a new
    sheet object holding the remote content; the result refers to that
    object. *)
Definition getGameRequestSpreadsheet (sheets : Sheets) (doc : string) (sub : Z)
    : M nat :=
  remoteCall ;;
  emit [Read sheets doc sub] ;;
  fun w => (Returned (length (objects w)),
            set_objects (objects w ++ [remoteGameRequests w]) w).

(** Modelled from the spec: [Bidwar_Spreadsheet.getBidwarSpreadsheet]
    ("./spreadsheets/BidwarSpreadsheet") is not among the sources.
    Section 6: the remote read of a task.  The bidwar sheet objects never
    leave the task that read them and are passed by value. *)
Definition getBidwarSpreadsheet (sheets : Sheets) (doc : string) (sub : Z)
    : M Bidwar_Spreadsheet :=
  remoteCall ;;
  emit [Read sheets doc sub] ;;
  fun w => (Returned (remoteBidwar w), w).

(** A method call on a game-request sheet object.  A reference always
    names an object that exists; the other case makes the function
    total. *)
Definition withObject {A} (ref : nat) (f : GameRequest_Spreadsheet -> M A) : M A :=
  fun w =>
    match objects w !! ref with
    | Some sheet => f sheet w
    | None => (Thrown "TypeError", w)
    end.

Definition mutateObject (ref : nat)
    (f : GameRequest_Spreadsheet -> GameRequest_Spreadsheet) : M unit :=
  withObject ref (fun sheet =>
    modify (fun w => set_objects (<[ref := f sheet]> (objects w)) w)).

(** Modelled from the spec: [pushSpreadsheet]
    ("./spreadsheets/SpreadsheetBase") is not among the sources.
    Section 6: the remote write of a task.  For each of the two kinds of
    sheet it rejects, or replaces the remote content of the sub-sheet. *)
Definition pushGameRequests (sheets : Sheets) (doc : string) (sub : Z) (ref : nat)
    : M unit :=
  withObject ref (fun sheet =>
    remoteCall ;;
    emit [Push sheets doc sub] ;;
    modify (set_remoteGameRequests sheet)).

Definition pushBidwar (sheets : Sheets) (doc : string) (sub : Z)
    (sheet : Bidwar_Spreadsheet) : M unit :=
  remoteCall ;;
  emit [Push sheets doc sub] ;;
  modify (set_remoteBidwar sheet).

(** Modelled from the spec: [updateChannelPointRedemption] of the bot is
    not among the sources.  Section 1: a call to the remote API, which
    answers or rejects. *)
Definition updateChannelPointRedemption
    (redemption rewardId broadcasterId : string) (fulfilled : bool) : M unit :=
  remoteCall ;;
  emit [UpdateRedemption redemption rewardId broadcasterId fulfilled].

(** [new Future<...>()] *)
Definition newFuture : M nat :=
  fun w => (Returned (length (futures w)),
            set_futures (futures w ++ [Future.create]) w).

(** [future.resolve(value)] *)
Definition resolve (future : nat) (value : FutureValue) : M unit :=
  modify (fun w => set_futures (alter (Future.resolve value) future (futures w)) w).

(** [this._taskQueue.addTask(task)] and [this._taskQueue.startQueue()] *)
Definition addTask (task : Task) : M unit :=
  modify (fun w => set_taskQueue (TaskQueue.addTask task (taskQueue w)) w).

Definition startQueue : M unit :=
  modify (fun w => set_taskQueue (TaskQueue.startQueue (taskQueue w)) w).

(** *** [startup] *)

(** [startup], from the point where the client [sheets] has been built:
    [this._googleSheets.resolve(sheets)]. *)
Definition startup (sheets : Sheets) : M unit :=
  modify (fun w => set_googleSheets (Future.resolve sheets (googleSheets w)) w).

(** *** [handleGameRequestFund] *)

Definition completeFunding (c : CompleteFunding) : M unit :=
  mutateObject (cf_sheet c)
    (fun sheet => addPointsToEntry sheet (cf_username c) (cf_gameName c)
                    (cf_points c) (cf_timestamp c)) ;;
  sheets <- awaitSheets ;;
  pushGameRequests sheets incentiveSheetId gameRequestSubSheet (cf_sheet c) ;;
  chat (cf_respondTo c)
    ("@" ++ cf_username c ++ ", your " ++ show (cf_points c)
     ++ " points were successfully added to requesting " ++ cf_gameName c
     ++ " on stream!").

Definition gameRequestFundTask (future : nat) (respondTo gameName username : string)
    (points : Z) (timestamp : Date) : M unit :=
  sheets <- awaitSheets ;;
  gameRequestSpreadsheet <-
    getGameRequestSpreadsheet sheets incentiveSheetId gameRequestSubSheet ;;
  withObject gameRequestSpreadsheet (fun sheet =>
    match findEntry sheet gameName with
    | None =>
        chat respondTo
          ("@" ++ username ++ ", your game request was detected as a new request; please wait until an admin adds this game to the spreadsheet before adding any further points") ;;
        resolve future
          (Outcome {| type := Unfulfilled; overfundAmount := None; complete := None |})
    | Some existingEntry =>
        let complete_funding :=
          {| cf_sheet := gameRequestSpreadsheet; cf_respondTo := respondTo;
             cf_username := username; cf_gameName := gameName;
             cf_points := points; cf_timestamp := timestamp |} in
        let notCurrentlyOverfunded :=
          (pointsContributed existingEntry <=? pointsToActivate existingEntry)%Z in
        let wouldBeOverfunded :=
          (pointsContributed existingEntry + points >? pointsToActivate existingEntry)%Z in
        if notCurrentlyOverfunded && wouldBeOverfunded
        then
          resolve future
            (Outcome {| type := PendingConfirmation;
                        overfundAmount :=
                          Some (pointsContributed existingEntry + points
                                - pointsToActivate existingEntry);
                        complete := Some complete_funding |})
        else
          completeFunding complete_funding ;;
          resolve future
            (Outcome {| type := Fulfilled; overfundAmount := None; complete := None |})
    end).

(** *** [handleGameRequestAdd] *)

Definition gameRequestAddTask (future : nat) (respondTo gameName : string)
    (gameLengthHours : Z) (pointsToActivate : option Z) (username : string)
    (points : Z) (timestamp : Date) : M unit :=
  read <-
    tryCatch
      (sheets <- awaitSheets ;;
       ref <- getGameRequestSpreadsheet sheets incentiveSheetId gameRequestSubSheet ;;
       ret (Some ref))
      (fun err =>
         chat respondTo "Failed to read game request spreadsheet. No data altered." ;;
         consoleLog err ;;
         resolve future Void ;;
         ret None) ;;
  match read with
  | None => ret tt
  | Some gameRequestSpreadsheet =>
      withObject gameRequestSpreadsheet (fun sheet =>
        match findEntry sheet gameName with
        | Some _ =>
            chat respondTo "Game request already present in spreadsheet." ;;
            resolve future Void
        | None =>
            mutateObject gameRequestSpreadsheet
              (fun sheet => addEntry sheet gameName gameLengthHours pointsToActivate
                              username points timestamp) ;;
            sheets <- awaitSheets ;;
            pushGameRequests sheets incentiveSheetId gameRequestSubSheet
              gameRequestSpreadsheet ;;
            chat respondTo "Game request successfully added." ;;
            resolve future Void
        end)
  end.

(** *** [handleCheer] *)

Definition cheerTask (future : nat) (event : Cheer) (subscription : Subscription)
    : M unit :=
  match is_anonymous event, cheer_user_id event, cheer_user_name event with
  | false, Some user_id, Some user_name =>
      sheets <- awaitSheets ;;
      bidwarSpreadsheet <- getBidwarSpreadsheet sheets incentiveSheetId bidwarSubSheet ;;
      let bidwarSpreadsheet :=
        addBitsToUser bidwarSpreadsheet user_id user_name (bits event)
          (newDate (created_at subscription)) None in
      sheets <- awaitSheets ;;
      pushBidwar sheets incentiveSheetId bidwarSubSheet bidwarSpreadsheet
  | _, _, _ => resolve future Void
  end.

(** *** [handleBidwarContribute] *)

Definition bidwarContributeTask (future : nat)
    (respondTo userId username gameName : string) (bits : Z) (timestamp : Date)
    : M unit :=
  sheets <- awaitSheets ;;
  bidwarSpreadsheet <- getBidwarSpreadsheet sheets incentiveSheetId bidwarSubSheet ;;
  let '(status, bidwarSpreadsheet) :=
    spendBitsOnEntry bidwarSpreadsheet userId username gameName bits timestamp in
  (if truthy (message status)
   then chat respondTo (default "" (message status))
   else ret tt) ;;
  if negb (success status) then ret tt
  else
    sheets <- awaitSheets ;;
    pushBidwar sheets incentiveSheetId bidwarSubSheet bidwarSpreadsheet ;;
    chat respondTo
      ("@" ++ username ++ ", your bits were successfully contributed to "
       ++ gameName ++ ".").

(** *** [handleBidwarAddEntry] *)

Definition bidwarAddEntryTask (future : nat) (respondTo gameName : string) : M unit :=
  tryCatch
    (sheets <- awaitSheets ;;
     bidwarSpreadsheet <- getBidwarSpreadsheet sheets incentiveSheetId bidwarSubSheet ;;
     let '(status, bidwarSpreadsheet) := bidwarAddEntry bidwarSpreadsheet gameName in
     if negb (success status) && truthy (message status)
     then chat respondTo (default "" (message status))
     else
       sheets <- awaitSheets ;;
       pushBidwar sheets incentiveSheetId bidwarSubSheet bidwarSpreadsheet ;;
       chat respondTo ("Bidwar entry " ++ gameName ++ " was successfully added."))
    (fun err =>
       chat respondTo "Error adding entry." ;;
       consoleLog err).

(** *** [handleBidwarAddFunds] *)

Definition bidwarAddFundsTask (future : nat) (respondTo userId username : string)
    (amount : Z) (source : option string) (timestamp : Date) : M unit :=
  tryCatch
    (sheets <- awaitSheets ;;
     bidwarSpreadsheet <- getBidwarSpreadsheet sheets incentiveSheetId bidwarSubSheet ;;
     let bidwarSpreadsheet :=
       addBitsToUser bidwarSpreadsheet userId username amount timestamp
         (Some (default "manually added by admin" source)) in
     sheets <- awaitSheets ;;
     pushBidwar sheets incentiveSheetId bidwarSubSheet bidwarSpreadsheet ;;
     chat respondTo
       ("User " ++ username ++ " had " ++ show amount
        ++ " added to their bidwar bank balance."))
    (fun err =>
       chat respondTo "Error adding entry." ;;
       consoleLog err).

(** The body of a submitted [task] closure. *)
Definition runTask (t : Task) : M unit :=
  match t with
  | GameRequestFund future respondTo gameName username points timestamp =>
      gameRequestFundTask future respondTo gameName username points timestamp
  | GameRequestAdd future respondTo gameName hours toActivate username points timestamp =>
      gameRequestAddTask future respondTo gameName hours toActivate username points
        timestamp
  | CheerTask future event subscription => cheerTask future event subscription
  | BidwarContribute future respondTo userId username gameName bits timestamp =>
      bidwarContributeTask future respondTo userId username gameName bits timestamp
  | BidwarAddEntry future respondTo gameName =>
      bidwarAddEntryTask future respondTo gameName
  | BidwarAddFunds future respondTo userId username amount source timestamp =>
      bidwarAddFundsTask future respondTo userId username amount source timestamp
  end.

(** The future a task was created next to, the one its handler returns. *)
Definition futureOf (t : Task) : nat :=
  match t with
  | GameRequestFund future _ _ _ _ _
  | GameRequestAdd future _ _ _ _ _ _ _
  | CheerTask future _ _
  | BidwarContribute future _ _ _ _ _ _
  | BidwarAddEntry future _ _
  | BidwarAddFunds future _ _ _ _ _ _ => future
  end.

(** *** The handlers: create the future, queue the task, return the future *)

Definition submit (mk : nat -> Task) : M nat :=
  future <- newFuture ;;
  addTask (mk future) ;;
  startQueue ;;
  ret future.

Definition handleGameRequestFund (respondTo gameName username : string)
    (points : Z) (timestamp : Date) : M nat :=
  submit (fun future =>
    GameRequestFund future respondTo gameName username points timestamp).

Definition handleGameRequestAdd (respondTo gameName : string) (gameLengthHours : Z)
    (pointsToActivate : option Z) (username : string) (points : Z)
    (timestamp : Date) : M nat :=
  submit (fun future =>
    GameRequestAdd future respondTo gameName gameLengthHours pointsToActivate
      username points timestamp).

Definition handleCheer (event : Cheer) (subscription : Subscription) : M nat :=
  submit (fun future => CheerTask future event subscription).

Definition handleBidwarContribute (respondTo userId username gameName : string)
    (bits : Z) (timestamp : Date) : M nat :=
  submit (fun future =>
    BidwarContribute future respondTo userId username gameName bits timestamp).

Definition handleBidwarAddEntry (respondTo gameName : string) : M nat :=
  submit (fun future => BidwarAddEntry future respondTo gameName).

Definition handleBidwarAddFunds (respondTo userId username : string) (amount : Z)
    (source : option string) (timestamp : Date) : M nat :=
  submit (fun future =>
    BidwarAddFunds future respondTo userId username amount source timestamp).

(** *** [handleGameRequestRedeem] *)

Definition timeoutMinutes : Z := 1.

(** The part after [const outcome = await this.handleGameRequestFund(...)]. *)
Definition redeemResume (event : Redemption) (outcome : FundGameRequestOutcome)
    : M unit :=
  match type outcome, complete outcome with
  | Fulfilled, _ =>
      updateChannelPointRedemption (id event) (reward_id (reward event))
        (broadcaster_user_id event) true
  | PendingConfirmation, Some outcomeComplete =>
      chat ("#" ++ broadcaster_user_name event)
        ("@" ++ user_name event
         ++ ", you've submitted enough channel points to overfund the requested game, "
         ++ user_input event
         ++ match overfundAmount outcome with
            | Some amount =>
                if (amount =? 0)%Z then ""
                else ", by " ++ show amount ++ " points"
            | None => ""
            end
         ++ ". Are you sure you want to overfund this game? (respond with !yes or !no) This request will be automatically rejected in "
         ++ show timeoutMinutes ++ " minute(s) without further input.") ;;
      modify (fun w =>
        set_heldTasksByUserId
          (HeldTask.addHeldTask (user_id event)
             (RedeemComplete outcomeComplete event) (RedeemCancel event)
             (timeoutMinutes * 60 * 1000) (heldTasksByUserId w)) w)
  | _, _ => ret tt
  end.

(** The call up to the [await]: the funding task is submitted and the
    rest of the call waits for the returned future. *)
Definition handleGameRequestRedeem (event : Redemption) : M unit :=
  future <-
    handleGameRequestFund ("#" ++ broadcaster_user_name event) (user_input event)
      (user_name event) (cost (reward event)) (newDate (redeemed_at event)) ;;
  modify (fun w => set_awaitingOutcome (awaitingOutcome w ++ [(future, event)]) w).

(** The suspended calls whose future has been settled go on. *)
Fixpoint wake (waiting : list (nat * Redemption)) (w : World)
    : list (nat * Redemption) * World :=
  match waiting with
  | [] => ([], w)
  | (future, event) :: rest =>
      match futures w !! future with
      | Some (Future.Settled (Outcome outcome)) =>
          wake rest (snd (redeemResume event outcome w))
      | _ =>
          let '(still, w') := wake rest w in ((future, event) :: still, w')
      end
  end.

Definition wakeAll (w : World) : World :=
  let '(still, w') := wake (awaitingOutcome w) w in
  set_awaitingOutcome still w'.

(** The two closures given to [new HeldTask(complete, cancel)]. *)
Definition runHeldOp (op : HeldOp) : M unit :=
  match op with
  | RedeemComplete outcomeComplete event =>
      completeFunding outcomeComplete ;;
      updateChannelPointRedemption (id event) (reward_id (reward event))
        (broadcaster_user_id event) true
  | RedeemCancel event =>
      updateChannelPointRedemption (id event) (reward_id (reward event))
        (broadcaster_user_id event) false ;;
      chat ("#" ++ broadcaster_user_name event)
        ("@" ++ user_name event ++ " your " ++ show (cost (reward event))
         ++ " points have been refunded.")
  end.

(** *** The world, one step at a time *)

(** The task the queue is executing runs its body between the queue's
    brackets; the queue then goes on with the next task, and the calls
    waiting for the task's future go on.  A body suspended on
    [googleSheets] has done nothing yet and leaves the task where it
    is. *)
Definition finishTask (w : World) : World :=
  match TaskQueue.executing (taskQueue w) with
  | [] => w
  | t :: _ =>
      match (emit [TaskBegins] ;; runTask t) w with
      | (Suspended, _) => w
      | (r, w') =>
          let threw := match r with Thrown _ => true | _ => false end in
          wakeAll
            (set_taskQueue (TaskQueue.finish 0 threw (taskQueue w'))
               (set_trace (trace w' ++ [TaskEnds]) w'))
      end
  end.

(** The operations the registry invoked between [before] and [after]
    are run, in order. *)
Definition runInvoked (before after : HeldTask.registry HeldOp) (w : World) : World :=
  fold_left (fun acc x => snd (runHeldOp (snd x) acc))
    (drop (length (HeldTask.invoked before)) (HeldTask.invoked after))
    (set_heldTasksByUserId after w).

(** A chat reply [!yes] or [!no] of user [key], and the passing of
    [dt] milliseconds. *)
Definition heldComplete (key : string) (w : World) : World :=
  runInvoked (heldTasksByUserId w)
    (HeldTask.complete key (heldTasksByUserId w)) w.

Definition heldCancel (key : string) (w : World) : World :=
  runInvoked (heldTasksByUserId w)
    (HeldTask.cancel key (heldTasksByUserId w)) w.

Definition elapse (dt : Z) (w : World) : World :=
  runInvoked (heldTasksByUserId w)
    (HeldTask.advance dt (heldTasksByUserId w)) w.

(** A new [GoogleAPI] next to a remote document. *)
Definition initial (gameRequests : GameRequest_Spreadsheet)
    (bidwar : Bidwar_Spreadsheet) (fs : list (option string)) : World :=
  {| remoteGameRequests := gameRequests; remoteBidwar := bidwar;
     faults := fs; objects := [];
     googleSheets := Future.create; taskQueue := TaskQueue.create;
     futures := []; heldTasksByUserId := HeldTask.create;
     awaitingOutcome := []; trace := [] |}.

(** What happens to a [GoogleAPI] instance and the bot around it: the
    public methods are called, the task the queue is executing comes to
    its end, a user replies [!yes] or [!no], time passes. *)
Inductive call : Type :=
| Startup (sheets : Sheets)
| GameRequestRedeem (event : Redemption)
| GameRequestFundCall (respondTo gameName username : string) (points : Z)
    (timestamp : Date)
| GameRequestAddCall (respondTo gameName : string) (gameLengthHours : Z)
    (pointsToActivate : option Z) (username : string) (points : Z) (timestamp : Date)
| CheerCall (event : Cheer) (subscription : Subscription)
| BidwarContributeCall (respondTo userId username gameName : string) (bits : Z)
    (timestamp : Date)
| BidwarAddEntryCall (respondTo gameName : string)
| BidwarAddFundsCall (respondTo userId username : string) (amount : Z)
    (source : option string) (timestamp : Date)
| TaskFinishes
| RepliesYes (key : string)
| RepliesNo (key : string)
| TimePasses (dt : Z).

Definition perform (w : World) (c : call) : World :=
  match c with
  | Startup sheets => snd (startup sheets w)
  | GameRequestRedeem event => snd (handleGameRequestRedeem event w)
  | GameRequestFundCall respondTo gameName username points timestamp =>
      snd (handleGameRequestFund respondTo gameName username points timestamp w)
  | GameRequestAddCall respondTo gameName hours toActivate username points timestamp =>
      snd (handleGameRequestAdd respondTo gameName hours toActivate username points
             timestamp w)
  | CheerCall event subscription => snd (handleCheer event subscription w)
  | BidwarContributeCall respondTo userId username gameName bits timestamp =>
      snd (handleBidwarContribute respondTo userId username gameName bits timestamp w)
  | BidwarAddEntryCall respondTo gameName =>
      snd (handleBidwarAddEntry respondTo gameName w)
  | BidwarAddFundsCall respondTo userId username amount source timestamp =>
      snd (handleBidwarAddFunds respondTo userId username amount source timestamp w)
  | TaskFinishes => finishTask w
  | RepliesYes key => heldComplete key w
  | RepliesNo key => heldCancel key w
  | TimePasses dt => elapse dt w
  end.

Definition history (calls : list call) (w : World) : World :=
  fold_left perform calls w.

(** The handle of the first [startup] among the calls, if any. *)
Fixpoint firstStartup (calls : list call) : option Sheets :=
  match calls with
  | [] => None
  | Startup sheets :: _ => Some sheets
  | _ :: rest => firstStartup rest
  end.

(** *** Observations on traces *)

(** The client handle a remote access went through. *)
Definition handleOf (e : effect) : option Sheets :=
  match e with
  | Read sheets _ _ | Push sheets _ _ => Some sheets
  | _ => None
  end.

(** Every remote access so far went through the handle [googleSheets]
    is settled with. *)
Definition oneHandle (w : World) : Prop :=
  Forall (fun e => forall sheets, handleOf e = Some sheets ->
                                  googleSheets w = Future.Settled sheets)
    (trace w).


Definition isPush (e : effect) : bool :=
  match e with Push _ _ _ => true | _ => false end.

Definition isRemoteAccess (e : effect) : bool :=
  match e with Push _ _ _ | Read _ _ _ => true | _ => false end.

(** The [super.chat] calls of a trace. *)
Definition chats (l : list effect) : list (string * string) :=
  flat_map (fun e => match e with
                     | Bot (TwitchBot.SuperChat r m) => [(r, m)]
                     | _ => []
                     end) l.

(** The effects that [w'] has on top of [w]. *)
Definition since (w w' : World) : list effect :=
  drop (length (trace w)) (trace w').

(** The value a consumer awaiting [future] is given, if it is settled. *)
Definition settledWith (w : World) (future : nat) : option FutureValue :=
  match futures w !! future with
  | Some (Future.Settled v) => Some v
  | _ => None
  end.

Definition outcomeType (w : World) (future : nat)
    : option FundGameRequestOutcomeType :=
  match settledWith w future with
  | Some (Outcome o) => Some (type o)
  | _ => None
  end.

(** Whether a trace that starts inside a task ([inTask]) or outside ends
    inside one. *)
Fixpoint inTaskAfter (inTask : bool) (l : list effect) : bool :=
  match l with
  | [] => inTask
  | TaskBegins :: rest => inTaskAfter true rest
  | TaskEnds :: rest => inTaskAfter false rest
  | _ :: rest => inTaskAfter inTask rest
  end.

(** The held operations that write nothing to the remote document. *)
Definition refundOnly (op : HeldOp) : bool :=
  match op with
  | RedeemCancel _ => true
  | RedeemComplete _ _ => false
  end.

(** Every remote write of the trace happens inside the brackets of a
    task run by the queue; [inTask] tells whether the trace starts
    inside one. *)
Fixpoint serialized (inTask : bool) (l : list effect) : bool :=
  match l with
  | [] => true
  | TaskBegins :: rest => serialized true rest
  | TaskEnds :: rest => serialized false rest
  | Push _ _ _ :: rest => inTask && serialized inTask rest
  | _ :: rest => serialized inTask rest
  end.

(** The funding operation a [GameRequestFund] task builds in world [w]:
    the closure [completeFunding] over the sheet object the task is about
    to create. *)
Definition fundingOf (w : World) (respondTo gameName username : string)
    (points : Z) (timestamp : Date) : CompleteFunding :=
  {| cf_sheet := length (objects w); cf_respondTo := respondTo;
     cf_username := username; cf_gameName := gameName;
     cf_points := points; cf_timestamp := timestamp |}.

Definition fulfilled : FundGameRequestOutcome :=
  {| type := Fulfilled; overfundAmount := None; complete := None |}.

(** What a task that refuses a request leaves behind: it returned, told
    [respondTo] in one chat message, made no remote write, left both
    sub-sheets as they were, and settled its future with [value]. *)
Definition refused (w : World) (t : Task) (respondTo : string) (value : FutureValue)
    : Prop :=
  fst (runTask t w) = Returned tt
  /\ (exists message, chats (since w (snd (runTask t w))) = [(respondTo, message)])
  /\ Forall (fun e => isPush e = false) (since w (snd (runTask t w)))
  /\ remoteGameRequests (snd (runTask t w)) = remoteGameRequests w
  /\ remoteBidwar (snd (runTask t w)) = remoteBidwar w
  /\ settledWith (snd (runTask t w)) (futureOf t) = Some value.

End Handlers.

End GoogleAPI.

(** ** A ledger to run the handlers on *)

Module Ledger.

(** A small in-memory implementation of the interface [Spreadsheets],
    used by the worked examples below.  Nothing is claimed about the
    repository's own spreadsheet classes. *)
Record entry : Type := {
  name : string;
  contributed : Z;
  toActivate : Z;
}.

Definition find (sheet : list entry) (gameName : string) : option entry :=
  List.find (fun e => String.eqb (name e) gameName) sheet.

Definition addPoints (sheet : list entry) (username gameName : string)
    (points : Z) (timestamp : string) : list entry :=
  map (fun e =>
         if String.eqb (name e) gameName
         then {| name := name e; contributed := (contributed e + points)%Z;
                 toActivate := toActivate e |}
         else e) sheet.

Definition add (sheet : list entry) (gameName : string) (hours : Z)
    (pointsToActivate : option Z) (username : string) (points : Z)
    (timestamp : string) : list entry :=
  (sheet ++ [{| name := gameName; contributed := points;
                toActivate := default 100%Z pointsToActivate |}])%list.

Definition ok : GoogleAPI.Status :=
  {| GoogleAPI.success := true; GoogleAPI.message := None |}.

#[export] Instance sheets : GoogleAPI.Spreadsheets :=
  {| GoogleAPI.Sheets := nat;
     GoogleAPI.Date := string;
     GoogleAPI.newDate := fun s => s;
     GoogleAPI.GameRequest_Spreadsheet := list entry;
     GoogleAPI.GameRequestEntry := entry;
     GoogleAPI.pointsContributed := contributed;
     GoogleAPI.pointsToActivate := toActivate;
     GoogleAPI.findEntry := find;
     GoogleAPI.addPointsToEntry := addPoints;
     GoogleAPI.addEntry := add;
     GoogleAPI.Bidwar_Spreadsheet := list (string * Z);
     GoogleAPI.addBitsToUser := fun bank userId _ bits _ _ => (userId, bits) :: bank;
     GoogleAPI.spendBitsOnEntry :=
       fun bank userId _ _ bits _ => (ok, (userId, (- bits)%Z) :: bank);
     GoogleAPI.bidwarAddEntry := fun bank _ => (ok, bank) |}.

(** A remote document with one game request, and a [GoogleAPI] started
    next to it with the client handle [7]. *)
Definition celeste (contributed : Z) : list entry :=
  [{| name := "Celeste"; contributed := contributed; toActivate := 100 |}].

Definition started (contributed : Z) (faults : list (option string))
    : GoogleAPI.World :=
  snd (GoogleAPI.startup 7%nat (GoogleAPI.initial (celeste contributed) [] faults)).

Definition timestamp : string := "2024-01-01T00:00:00Z".

(** The world right after a viewer's contribution of [points] to Celeste
    has been submitted: future [0] is pending and the task is the one
    the queue is executing. *)
Definition contributing (contributed points : Z) (faults : list (option string))
    : GoogleAPI.World :=
  snd (GoogleAPI.handleGameRequestFund "#streamer" "Celeste" "viewer" points
         timestamp (started contributed faults)).

Definition fundTask (points : Z) : GoogleAPI.Task :=
  GoogleAPI.GameRequestFund 0 "#streamer" "Celeste" "viewer" points timestamp.

Definition redemption : GoogleAPI.Redemption :=
  {| GoogleAPI.id := "r-1"; GoogleAPI.broadcaster_user_id := "b-1";
     GoogleAPI.broadcaster_user_name := "streamer"; GoogleAPI.user_id := "u-1";
     GoogleAPI.user_name := "viewer"; GoogleAPI.user_input := "Celeste";
     GoogleAPI.reward := {| GoogleAPI.reward_id := "w-1"; GoogleAPI.cost := 20 |};
     GoogleAPI.redeemed_at := timestamp |}.

End Ledger.

(** ** A bidwar sheet that answers as told *)

Module Scripted.

(** The ledger above with a bidwar sheet whose [spendBitsOnEntry] and
    [addEntry] answer with a given status, for the examples in which a
    sheet operation refuses. *)
Definition sheets (spend add : GoogleAPI.Status) : GoogleAPI.Spreadsheets :=
  {| GoogleAPI.Sheets := nat;
     GoogleAPI.Date := string;
     GoogleAPI.newDate := fun s => s;
     GoogleAPI.GameRequest_Spreadsheet := list Ledger.entry;
     GoogleAPI.GameRequestEntry := Ledger.entry;
     GoogleAPI.pointsContributed := Ledger.contributed;
     GoogleAPI.pointsToActivate := Ledger.toActivate;
     GoogleAPI.findEntry := Ledger.find;
     GoogleAPI.addPointsToEntry := Ledger.addPoints;
     GoogleAPI.addEntry := Ledger.add;
     GoogleAPI.Bidwar_Spreadsheet := list (string * Z);
     GoogleAPI.addBitsToUser := fun bank userId _ bits _ _ => (userId, bits) :: bank;
     GoogleAPI.spendBitsOnEntry :=
       fun bank userId _ _ bits _ => (spend, (userId, (- bits)%Z) :: bank);
     GoogleAPI.bidwarAddEntry := fun bank gameName => (add, (gameName, 0%Z) :: bank) |}.

Definition refusal (message : option string) : GoogleAPI.Status :=
  {| GoogleAPI.success := false; GoogleAPI.message := message |}.

(** A started [GoogleAPI] next to an empty bidwar sheet. *)
Definition started (spend add : GoogleAPI.Status) (faults : list (option string))
    : @GoogleAPI.World (sheets spend add) :=
  snd (@GoogleAPI.startup (sheets spend add) 7%nat
         (@GoogleAPI.initial (sheets spend add) (Ledger.celeste 0) [] faults)).

End Scripted.

(** ** JavaScript strings and plain objects *)

Module JS.

(** [s.split(sep)] for a separator of one character: the pieces between
    the occurrences of [sep], of which there is always at least one. *)
Fixpoint split (sep : ascii) (s : string) : list string :=
  match s with
  | EmptyString => [EmptyString]
  | String c rest =>
      if Ascii.eqb c sep then EmptyString :: split sep rest
      else
        match split sep rest with
        | part :: parts => String c part :: parts
        | [] => [String c EmptyString]
        end
  end.

(** [s.slice(1, s.length)] *)
Definition slice1 (s : string) : string :=
  match s with
  | EmptyString => EmptyString
  | String _ rest => rest
  end.

(** [s.startsWith(start)] *)
Definition startsWith (s start : string) : bool := String.prefix start s.

(** [s.includes(part)] *)
Fixpoint includes (s part : string) : bool :=
  String.prefix part s
  || match s with
     | EmptyString => false
     | String _ rest => includes rest part
     end.

(** An object created by [{}] whose own properties hold strings.  A
    property read that finds no own property goes on to
    [Object.prototype]. *)
Definition object : Type := gmap string string.

Definition prototype : list string :=
  ["constructor"; "hasOwnProperty"; "isPrototypeOf"; "propertyIsEnumerable";
   "toLocaleString"; "toString"; "valueOf"; "__proto__";
   "__defineGetter__"; "__defineSetter__"; "__lookupGetter__"; "__lookupSetter__"].

(** What a property read gives: a string that was stored, or what
    [Object.prototype] holds under the name (a function or, for
    [__proto__], the prototype itself), which is not a string. *)
Inductive value : Type :=
| Text (s : string)
| Inherited (property : string).

(** [o[k]] *)
Definition get (o : object) (k : string) : option value :=
  match o !! k with
  | Some s => Some (Text s)
  | None => if bool_decide (k ∈ prototype) then Some (Inherited k) else None
  end.

(** [o[k] = v] for a string [v]: the setter of [__proto__] ignores a
    value that is not an object, every other name becomes an own
    property. *)
Definition set (k v : string) (o : object) : object :=
  if String.eqb k "__proto__" then o else <[k := v]> o.

(** Truthiness of what a property read gives. *)
Definition truthy (v : option value) : bool :=
  match v with
  | None | Some (Text EmptyString) => false
  | Some _ => true
  end.

End JS.

(** ** TwitchBotBase *)

Module TwitchBotBase.

(** *** Tags and badges of a chat message *)

(** [parseTwitchBadges]: the object built and the console lines
    written. *)
Definition parseTwitchBadges (badges : option string) : JS.object * list string :=
  if negb (GoogleAPI.truthy badges) then (∅, [])
  else
    fold_left
      (fun '(badgeVersionsByBadgeName, console) badge =>
         match JS.split "/" badge with
         | [badgeName; badgeVersion] =>
             (JS.set badgeName badgeVersion badgeVersionsByBadgeName, console)
         | _ =>
             (badgeVersionsByBadgeName,
              (console
               ++ [("Failed to parse a twitch badge tag: " ++ badge
                    ++ ". Expected only 2 parts after splitting on '/'")%string])%list)
         end)
      (JS.split "," (default "" badges)) (∅, []).

(** [parseTwitchTags] *)
Definition parseTwitchTags (tags : option string) : JS.object * list string :=
  if negb (GoogleAPI.truthy tags) then (∅, [])
  else
    let tags := default "" tags in
    let tagsCleaned := if JS.startsWith tags "@" then JS.slice1 tags else tags in
    fold_left
      (fun '(parsedTags, console) tag =>
         match JS.split "=" tag with
         | [key; value] => (JS.set key value parsedTags, console)
         | _ =>
             (parsedTags,
              (console
               ++ [("Failed to parse a twitch tag: " ++ tag
                    ++ ". Expected only 2 parts after splitting on '='")%string])%list)
         end)
      (JS.split ";" tagsCleaned) (∅, []).

(** The field of [IPrivMessageDetail] that is read here. *)
Record IPrivMessageDetail : Type := {
  tags : option string;
}.

(** [shouldIgnoreTimeoutRestrictions].  None of [badges], [broadcaster]
    and [moderator] names a property of [Object.prototype], so the three
    reads find own properties or nothing. *)
Definition shouldIgnoreTimeoutRestrictions (messageDetail : IPrivMessageDetail)
    : bool * list string :=
  let '(tags, console) := parseTwitchTags (tags messageDetail) in
  let '(badgeVersionsByBadgeName, console') := parseTwitchBadges (tags !! "badges") in
  (GoogleAPI.truthy (badgeVersionsByBadgeName !! "broadcaster")
   || GoogleAPI.truthy (badgeVersionsByBadgeName !! "moderator"),
   (console ++ console')%list).

(** *** What is thrown, logged and requested *)

(** What a promise is rejected with or a [throw] throws: a string, or
    an [Error] object with its [name] and [message]. *)
Inductive thrown : Type :=
| Reason (text : string)
| Error (name message : string).

(** [new Error(message)] *)
Definition newError (message : string) : thrown := Error "Error" message.

(** The text of [err] in a template literal: a string as it is, an
    [Error] object through [Error.prototype.toString]. *)
Definition template (err : thrown) : string :=
  match err with
  | Reason text => text
  | Error EmptyString message => message
  | Error name EmptyString => name
  | Error name message => name ++ ": " ++ message
  end.

(** [err.message] in a template literal. *)
Definition messageOf (err : thrown) : string :=
  match err with
  | Reason _ => "undefined"
  | Error _ message => message
  end.

(** An argument of [console.log]. *)
Inductive logged : Type :=
| Line (text : string)
| Object (err : thrown).

Inductive Res (A : Type) : Type :=
| Returned (a : A)
| Thrown (err : thrown)
| Suspended.

Arguments Returned {A} a.
Arguments Thrown {A} err.
Arguments Suspended {A}.

Record TwitchErrorResponse : Type := {
  error : string;
  status : Z;
  message : string;
}.

(** The fields of the answers of the Twitch API that are read. *)
Record TwitchUserInfo : Type := {
  id : string;
}.

Record TwitchGetChannelInfo : Type := {
  game_name : string;
  title : string;
}.

Record TwitchGetStreamInfo : Type := {
  type : string;
}.

Record TwitchAppToken : Type := {
  access_token : string;
}.

Record TwitchUserToken : Type := {
  user_access_token : string;
  user_id : option string;
}.

(** The parsed body of the answer to a request, [{ data: [...] }] or an
    error response, or the [Error] the request fails with. *)
Inductive response (A : Type) : Type :=
| Data (data : list A)
| Failure (errorResponse : TwitchErrorResponse)
| RequestError (err : thrown).

Arguments Data {A} data.
Arguments Failure {A} errorResponse.
Arguments RequestError {A} err.

(** The requests sent to [api.twitch.tv/helix], with the bearer token of
    the [Authorization] header: [users?login=], [channels?broadcaster_id=]
    and [streams?user_login=]. *)
Inductive request : Type :=
| GetUsers (login bearer : string)
| GetChannels (broadcaster_id : JS.value) (bearer : string)
| GetStreams (user_login bearer : string).

Record ITwitchBotAuxCommandConfig : Type := {
  autoPostGameWhitelist : option (list string);
  autoPostIfTitleContainsAny : option (list string);
}.

Record IPartMessageDetail : Type := {
  username : string;
}.

Section Bot.

(** The class [IrcBotBase] ("./IrcBot") is not among the sources: its
    state is a parameter, and so are the methods of it that are called
    here. *)
Context {IrcBotBase : Type}.

(** The fields of a bot that the methods below reach, the answers the
    API will give to the requests of each kind, in order, and what went
    out: the requests and the console lines. *)
Record Bot : Type := {
  base : IrcBotBase;
  channel : string;
  twitchIdByUsername : JS.object;
  userAccessToken : Future.state TwitchUserToken;
  twitchAppToken : Future.state TwitchAppToken;
  users : list (response TwitchUserInfo);
  channels : list (response TwitchGetChannelInfo);
  streams : list (response TwitchGetStreamInfo);
  requests : list request;
  console : list logged;
}.

Definition set_twitchIdByUsername v (b : Bot) : Bot :=
  {| base := base b; channel := channel b; twitchIdByUsername := v;
     userAccessToken := userAccessToken b; twitchAppToken := twitchAppToken b;
     users := users b; channels := channels b; streams := streams b;
     requests := requests b; console := console b |}.

Definition set_userAccessToken v (b : Bot) : Bot :=
  {| base := base b; channel := channel b;
     twitchIdByUsername := twitchIdByUsername b;
     userAccessToken := v; twitchAppToken := twitchAppToken b;
     users := users b; channels := channels b; streams := streams b;
     requests := requests b; console := console b |}.

Definition set_users v (b : Bot) : Bot :=
  {| base := base b; channel := channel b;
     twitchIdByUsername := twitchIdByUsername b;
     userAccessToken := userAccessToken b; twitchAppToken := twitchAppToken b;
     users := v; channels := channels b; streams := streams b;
     requests := requests b; console := console b |}.

Definition set_channels v (b : Bot) : Bot :=
  {| base := base b; channel := channel b;
     twitchIdByUsername := twitchIdByUsername b;
     userAccessToken := userAccessToken b; twitchAppToken := twitchAppToken b;
     users := users b; channels := v; streams := streams b;
     requests := requests b; console := console b |}.

Definition set_streams v (b : Bot) : Bot :=
  {| base := base b; channel := channel b;
     twitchIdByUsername := twitchIdByUsername b;
     userAccessToken := userAccessToken b; twitchAppToken := twitchAppToken b;
     users := users b; channels := channels b; streams := v;
     requests := requests b; console := console b |}.

Definition set_requests v (b : Bot) : Bot :=
  {| base := base b; channel := channel b;
     twitchIdByUsername := twitchIdByUsername b;
     userAccessToken := userAccessToken b; twitchAppToken := twitchAppToken b;
     users := users b; channels := channels b; streams := streams b;
     requests := v; console := console b |}.

Definition set_console v (b : Bot) : Bot :=
  {| base := base b; channel := channel b;
     twitchIdByUsername := twitchIdByUsername b;
     userAccessToken := userAccessToken b; twitchAppToken := twitchAppToken b;
     users := users b; channels := channels b; streams := streams b;
     requests := requests b; console := v |}.

(** The body of an [async] method, as in [GoogleAPI]. *)
Definition M (A : Type) : Type := Bot -> Res A * Bot.

Definition ret {A} (a : A) : M A := fun b => (Returned a, b).

Definition bind {A B} (m : M A) (k : A -> M B) : M B :=
  fun b =>
    match m b with
    | (Returned a, b') => k a b'
    | (Thrown e, b') => (Thrown e, b')
    | (Suspended, b') => (Suspended, b')
    end.

Definition throw {A} (err : thrown) : M A := fun b => (Thrown err, b).

(** A promise that is never settled. *)
Definition never {A} : M A := fun b => (Suspended, b).

Definition tryCatch {A} (body : M A) (handler : thrown -> M A) : M A :=
  fun b =>
    match body b with
    | (Thrown e, b') => handler e b'
    | r => r
    end.

Definition modify (f : Bot -> Bot) : M unit := fun b => (Returned tt, f b).

Definition consoleLog (entry : logged) : M unit :=
  modify (fun b => set_console (console b ++ [entry])%list b).

End Bot.

Arguments Bot : clear implicits.
Arguments M : clear implicits.

Declare Scope bot_scope.
Delimit Scope bot_scope with bot.
Notation "x <- m ;; k" := (bind m (fun x => k))
  (at level 100, m at next level, right associativity) : bot_scope.
Notation "m ;; k" := (bind m (fun _ => k))
  (at level 100, right associativity) : bot_scope.

Section Methods.
Context {IrcBotBase : Type}.
Local Open Scope bot_scope.

(** [JSON.stringify], a library function. *)
Variable stringify : list TwitchUserInfo -> string.

(** The methods of [IrcBotBase] called here: [onError],
    [super.callCommandFunctionFromConfig] and, up to the point where
    they return to their caller, [super.handlePartMessage] and
    [super.trackUsersInChat]. *)
Variable onError : thrown -> Bot IrcBotBase -> Bot IrcBotBase.
Variable superCallCommandFunctionFromConfig :
  ITwitchBotAuxCommandConfig -> string -> M IrcBotBase bool.
Variable superHandlePartMessage : IPartMessageDetail -> Bot IrcBotBase -> Bot IrcBotBase.
Variable superTrackUsersInChat : Z -> Bot IrcBotBase -> Bot IrcBotBase.

(** *** The Twitch API *)

(** [await this._twitchAppToken] and [await this._userAccessToken] *)
Definition awaitAppToken : M IrcBotBase TwitchAppToken :=
  fun b =>
    match Future.get (twitchAppToken b) with
    | Some token => (Returned token, b)
    | None => (Suspended, b)
    end.

Definition awaitUserToken : M IrcBotBase TwitchUserToken :=
  fun b =>
    match Future.get (userAccessToken b) with
    | Some token => (Returned token, b)
    | None => (Suspended, b)
    end.

(** [https.get(url, options, callback)] with its ["data"] and ["error"]
    listeners: the request goes out and the next answer to a request of
    its kind, if there is one, reaches the listeners.  The answer comes
    in one piece that [JSON.parse] accepts. *)
Definition httpsGet {A} (sent : request) (answers : Bot IrcBotBase -> list (response A))
    (set_answers : list (response A) -> Bot IrcBotBase -> Bot IrcBotBase)
    : M IrcBotBase (response A) :=
  fun b =>
    let b := set_requests (requests b ++ [sent])%list b in
    match answers b with
    | [] => (Suspended, b)
    | answer :: rest => (Returned answer, set_answers rest b)
    end.

(** The listener of ["error"], the same for every request. *)
Definition onRequestError {A} (err : thrown) : M IrcBotBase A :=
  consoleLog (Line "Error sending auth token request to twitch:") ;;
  consoleLog (Object err) ;;
  throw err.

(** [`${errorResponse.status} ${errorResponse.error}: ${errorResponse.message}`] *)
Definition describe (errorResponse : TwitchErrorResponse) : string :=
  GoogleAPI.show (status errorResponse) ++ " " ++ error errorResponse ++ ": "
  ++ message errorResponse.

(** [getTwitchId].  On an error response whose [error] is empty the
    listener goes on to read [data], which the response does not have,
    and throws outside the promise, which is then never settled. *)
Definition getTwitchId (username : option string) : M IrcBotBase string :=
  if negb (GoogleAPI.truthy username)
  then throw (Reason "Cannot retrieve user id for user access token unless token already exists!")
  else
    let username := default "" username in
    appToken <- awaitAppToken ;;
    answer <- httpsGet (GetUsers username (access_token appToken)) users set_users ;;
    match answer with
    | RequestError err => onRequestError err
    | Failure errorResponse =>
        if GoogleAPI.truthy (Some (error errorResponse))
        then throw (Reason ("Error retrieving user info for username " ++ username
                            ++ " from twitch API: " ++ describe errorResponse))
        else never
    | Data data =>
        if GoogleAPI.truthy (id <$> head data)
        then ret (default "" (id <$> head data))
        else throw (Reason ("Unable to parse user info from twitch API response: "
                            ++ stringify data))
    end.

(** [getTwitchIdWithCache] *)
Definition getTwitchIdWithCache (username : option string) : M IrcBotBase JS.value :=
  id <-
    (if GoogleAPI.truthy username
     then fun b => (Returned (JS.get (twitchIdByUsername b) (default "" username)), b)
     else token <- awaitUserToken ;; ret (JS.Text <$> user_id token)) ;;
  if negb (JS.truthy id)
  then
    id <-
      tryCatch (getTwitchId username)
        (fun err =>
           throw (newError ("Error retrieving twitch user id: " ++ template err))) ;;
    (if GoogleAPI.truthy username
     then modify (fun b =>
            set_twitchIdByUsername
              (JS.set (default "" username) id (twitchIdByUsername b)) b)
     else
       token <- awaitUserToken ;;
       modify (set_userAccessToken
                 (Future.Settled {| user_access_token := user_access_token token;
                                    user_id := Some id |}))) ;;
    ret (JS.Text id)
  else ret (default (JS.Text "") id).

(** [getUserIdForUsername] *)
Definition getUserIdForUsername (username : string) : M IrcBotBase JS.value :=
  tryCatch (getTwitchIdWithCache (Some username))
    (fun err =>
       throw (newError ("Error receiving user id for username " ++ username
                        ++ " from twitch: " ++ messageOf err))).

(** What [getChannelDetails] and [getStreamDetails] do with the answer:
    exactly one element, or a rejection that names [what] was asked
    for. *)
Definition expectOne {A} (what : string) (answer : response A) : M IrcBotBase A :=
  match answer with
  | RequestError err => onRequestError err
  | Failure errorResponse =>
      if GoogleAPI.truthy (Some (error errorResponse))
      then throw (Reason ("Error retrieving channel info from twitch API: "
                          ++ describe errorResponse))
      else never
  | Data data =>
      if (1 <? length data)%nat
      then throw (Reason ("More than one " ++ what ++ " info received, expected only one."))
      else
        match data with
        | [] => throw (Reason ("No " ++ what ++ " info received in response, expected one."))
        | first :: _ => ret first
        end
  end.

(** [getChannelDetails] *)
Definition getChannelDetails (channelName : string) : M IrcBotBase TwitchGetChannelInfo :=
  broadcasterId <- getTwitchIdWithCache (Some channelName) ;;
  appToken <- awaitAppToken ;;
  answer <-
    httpsGet (GetChannels broadcasterId (access_token appToken)) channels set_channels ;;
  expectOne "channel" answer.

(** [getStreamDetails] *)
Definition getStreamDetails (channelName : string) : M IrcBotBase TwitchGetStreamInfo :=
  appToken <- awaitAppToken ;;
  answer <-
    httpsGet (GetStreams channelName (access_token appToken)) streams set_streams ;;
  expectOne "stream" answer.

(** [isChannelLive] *)
Definition isChannelLive (channelName : string) : M IrcBotBase bool :=
  tryCatch
    (channelInfoResponse <- getStreamDetails channelName ;;
     ret (String.eqb (type channelInfoResponse) "live"))
    (fun _ => ret false).

(** The getter [twitchChannelName] *)
Definition twitchChannelName (b : Bot IrcBotBase) : string := JS.slice1 (channel b).

(** [streamDetails ?? await this.getChannelDetails(this.twitchChannelName)] *)
Definition orChannelDetails (streamDetails : option TwitchGetChannelInfo)
    : M IrcBotBase TwitchGetChannelInfo :=
  match streamDetails with
  | Some details => ret details
  | None => fun b => getChannelDetails (twitchChannelName b) b
  end.

(** [callCommandFunctionFromConfig].  Inside the [try], [inl result]
    stands for [return result] and [inr streamDetails] for going on with
    the variable [streamDetails]. *)
Definition callCommandFunctionFromConfig (command : ITwitchBotAuxCommandConfig)
    (channel : string) : M IrcBotBase bool :=
  returned <-
    tryCatch
      (afterWhitelist <-
         match autoPostGameWhitelist command with
         | Some whitelist =>
             streamDetails <- orChannelDetails None ;;
             if existsb (fun gameName => String.eqb (game_name streamDetails) gameName)
                  whitelist
             then ret (inr (Some streamDetails))
             else ret (inl false)
         | None => ret (inr None)
         end ;;
       match afterWhitelist with
       | inl result => ret (Some result)
       | inr streamDetails =>
           match autoPostIfTitleContainsAny command with
           | Some substrings =>
               streamDetails <- orChannelDetails streamDetails ;;
               if existsb (fun substring => JS.includes (title streamDetails) substring)
                    substrings
               then ret None
               else ret (Some false)
           | None => ret None
           end
       end)
      (fun err => modify (onError err) ;; ret (Some false)) ;;
  match returned with
  | Some result => ret result
  | None => superCallCommandFunctionFromConfig command channel
  end.


(** [handlePartMessage] *)
Definition handlePartMessage (messageDetail : IPartMessageDetail) : M IrcBotBase unit :=
  modify (superHandlePartMessage messageDetail) ;;
  modify (fun b =>
    set_twitchIdByUsername
      (delete (username messageDetail) (twitchIdByUsername b)) b).

End Methods.

End TwitchBotBase.

(** ** A bot to run the methods on *)

Module Channel.

(** A bot of the channel "#streamer" that holds both tokens (the user
    access token with [user_id] as given), has [cache] as its cache and
    will be given [answers] to its [users] requests.  Nothing is
    assumed of [IrcBotBase]: its state is [unit] and its methods do
    nothing. *)
Definition bot (cache : list (string * string)) (userId : option string)
    (answers : list (TwitchBotBase.response TwitchBotBase.TwitchUserInfo))
    : TwitchBotBase.Bot unit :=
  {| TwitchBotBase.base := tt;
     TwitchBotBase.channel := "#streamer";
     TwitchBotBase.twitchIdByUsername := list_to_map cache;
     TwitchBotBase.userAccessToken :=
       Future.Settled {| TwitchBotBase.user_access_token := "user-token";
                         TwitchBotBase.user_id := userId |};
     TwitchBotBase.twitchAppToken :=
       Future.Settled {| TwitchBotBase.access_token := "app-token" |};
     TwitchBotBase.users := answers;
     TwitchBotBase.channels := [];
     TwitchBotBase.streams := [];
     TwitchBotBase.requests := [];
     TwitchBotBase.console := [] |}.

(** A stand-in for [JSON.stringify] that tells the number of elements. *)
Definition stringify (data : list TwitchBotBase.TwitchUserInfo) : string :=
  GoogleAPI.show (Z.of_nat (length data)) ++ " element(s)".

Definition superHandlePartMessage (messageDetail : TwitchBotBase.IPartMessageDetail)
    (b : TwitchBotBase.Bot unit) : TwitchBotBase.Bot unit := b.

End Channel.

(** * Invariants *)

(** The predicates the proofs below carry along. *)

Local Open Scope list_scope.

Section FutureInvariants.
Context {T : Type}.
Implicit Types (ops : list (Future.call T)) (c : Future.cell T).

(** What a deferred value looks like after [ops], told from the first
    [settle] among them. *)
Definition future_shape ops c : Prop :=
  match Future.first_settle ops with
  | None =>
      Future.st c = Future.Pending /\ Future.changes c = 0%nat
      /\ Future.delivered c = [] /\ Future.waiters c = Future.gets ops
  | Some v =>
      Future.st c = Future.Settled v /\ Future.changes c = 1%nat
      /\ Future.waiters c = []
      /\ Forall (fun d => snd d = v) (Future.delivered c)
      /\ map fst (Future.delivered c) ≡ₚ Future.gets ops
  end.

End FutureInvariants.

Section TaskQueueInvariants.
Context {Task : Type}.
Implicit Types (q : TaskQueue.state Task).

(** The drain flag is set exactly while one loop is suspended in a
    task, and the log opens and closes executions accordingly. *)
Record queue_inv q : Prop := {
  inv_loops :
    (TaskQueue.draining q = true /\ exists t, TaskQueue.executing q = [t])
    \/ (TaskQueue.draining q = false /\ TaskQueue.executing q = []);
  inv_log :
    TaskQueue.overlap_free 0 (TaskQueue.log q)
    = Some (length (TaskQueue.executing q));
}.

(** The tasks whose execution ended, in the order it ended. *)
Definition ended (l : list (TaskQueue.entry Task)) : list Task :=
  flat_map (fun x => match x with
                     | TaskQueue.Finished t _ => [t]
                     | TaskQueue.Started _ => []
                     end) l.

End TaskQueueInvariants.

Section HeldTaskInvariants.
Context {Op : Type}.
Implicit Types (r : HeldTask.registry Op) (a : HeldTask.action Op).

(** The attributes fixed at registration. *)
Definition same_registration a a' : Prop :=
  HeldTask.key a' = HeldTask.key a
  /\ HeldTask.completionOp a' = HeldTask.completionOp a
  /\ HeldTask.cancellationOp a' = HeldTask.cancellationOp a
  /\ HeldTask.deadline a' = HeldTask.deadline a.

(** One step of an action's life: it keeps its registration, and once
    settled it is never touched again. *)
Definition evolves a a' : Prop :=
  same_registration a a'
  /\ (HeldTask.status a <> HeldTask.pending -> a' = a).

(** A registry evolves when its clock does not go back and every
    action evolves. *)
Definition extends r r' : Prop :=
  HeldTask.now r <= HeldTask.now r'
  /\ (forall id a, HeldTask.actions r !! id = Some a ->
        exists a', HeldTask.actions r' !! id = Some a' /\ evolves a a')
  /\ (length (HeldTask.actions r) <= length (HeldTask.actions r'))%nat.

(** What the registry state says about the operations run so far. *)
Record held_inv r : Prop := {
  inv_counts : forall id a, HeldTask.actions r !! id = Some a ->
    match HeldTask.status a with
    | HeldTask.pending =>
        HeldTask.ran id HeldTask.Completion (HeldTask.invoked r) = 0%nat
        /\ HeldTask.ran id HeldTask.Cancellation (HeldTask.invoked r) = 0%nat
    | HeldTask.completed =>
        HeldTask.ran id HeldTask.Completion (HeldTask.invoked r) = 1%nat
        /\ HeldTask.ran id HeldTask.Cancellation (HeldTask.invoked r) = 0%nat
    | HeldTask.cancelled =>
        HeldTask.ran id HeldTask.Completion (HeldTask.invoked r) = 0%nat
        /\ HeldTask.ran id HeldTask.Cancellation (HeldTask.invoked r) = 1%nat
    end;
  inv_invoked : forall id w op, In (id, w, op) (HeldTask.invoked r) ->
    exists a, HeldTask.actions r !! id = Some a /\ op = HeldTask.opOf w a;
  inv_active : forall k id, HeldTask.active r !! k = Some id ->
    exists a, HeldTask.actions r !! id = Some a /\ HeldTask.key a = k;
}.

(** The timers of [ids] fire one after the other. *)
Definition fires (ids : list nat) r : HeldTask.registry Op :=
  fold_left (fun acc id => HeldTask.fireDeadline id acc) ids r.

End HeldTaskInvariants.

Section GoogleAPIInvariants.
Context `{GoogleAPI.Spreadsheets}.
Import GoogleAPI.

(** A relation between the world before and after that the remote calls
    and the sheet objects cannot break: it survives a consumed fault, an
    updated sheet object, a remote write, and any effect other than the
    queue's own brackets. *)
Record io_stable (R : World -> World -> Prop) : Prop := {
  io_refl : forall w, R w w;
  io_trans : forall w1 w2 w3, R w1 w2 -> R w2 w3 -> R w1 w3;
  io_faults : forall w v, R w (set_faults v w);
  io_objects : forall w v, R w (set_objects v w);
  io_remoteGameRequests : forall w v, R w (set_remoteGameRequests v w);
  io_remoteBidwar : forall w v, R w (set_remoteBidwar v w);
  io_trace : forall w es,
    Forall (fun e => e <> TaskBegins /\ e <> TaskEnds) es ->
    R w (set_trace (trace w ++ es) w);
}.

(** The body [m] takes every world to one related to it by [R]. *)
Definition preserves (R : World -> World -> Prop) {A} (m : M A) : Prop :=
  forall w, R w (snd (m w)).

(** An effect other than the queue's brackets, and one that is moreover
    no remote write. *)
Definition plain (e : effect) : Prop := e <> TaskBegins /\ e <> TaskEnds.
Definition quiet (e : effect) : Prop := plain e /\ isPush e = false.

(** [w'] has the trace of [w] and, after it, effects that satisfy [P]. *)
Definition appends (P : effect -> Prop) (w w' : World) : Prop :=
  exists l, trace w' = trace w ++ l /\ Forall P l.

(** The trace is serialized so far and ends outside a task. *)
Definition tidy (w : World) : Prop :=
  serialized false (trace w) = true /\ inTaskAfter false (trace w) = false.

(** The cancellation of every held task only refunds. *)
Definition refunds (r : HeldTask.registry HeldOp) : Prop :=
  Forall (fun a => refundOnly (HeldTask.cancellationOp a) = true) (HeldTask.actions r).

(** A step of the registry that runs refunds only. *)
Definition cancels (r r' : HeldTask.registry HeldOp) : Prop :=
  refunds r'
  /\ exists l, HeldTask.invoked r' = HeldTask.invoked r ++ l
               /\ Forall (fun x => refundOnly (snd x) = true) l.

(** The state in which every remote write so far was serialized. *)
Definition orderly (w : World) : Prop := tidy w /\ refunds (heldTasksByUserId w).

(** The marks [updateChannelPointRedemption] left in a trace: the
    redemption and whether it was fulfilled ([true]) or refunded. *)
Definition redemptionUpdates (l : list effect) : list (string * bool) :=
  flat_map (fun e => match e with
                     | UpdateRedemption redemption _ _ fulfilled =>
                         [(redemption, fulfilled)]
                     | _ => []
                     end) l.

(** The tasks whose first step is [await this._googleSheets]: all but
    the task of a cheer that is not banked. *)
Definition awaitsSheets (t : Task) : bool :=
  match t with
  | CheerTask _ event _ =>
      match is_anonymous event, cheer_user_id event, cheer_user_name event with
      | false, Some _, Some _ => true
      | _, _, _ => false
      end
  | _ => true
  end.

End GoogleAPIInvariants.

Section TwitchInvariants.

(** The character [c] does not occur in [s]. *)
Fixpoint free (c : ascii) (s : string) : bool :=
  match s with
  | EmptyString => true
  | String a rest => negb (Ascii.eqb a c) && free c rest
  end.

(** The parts with [sep] between them. *)
Fixpoint joinWith (sep : ascii) (parts : list string) : string :=
  match parts with
  | [] => EmptyString
  | [part] => part
  | part :: rest => (part ++ String sep (joinWith sep rest))%string
  end.

(** Pairs as IRC writes them: [inner] between the two halves of a pair,
    [outer] between the pairs. *)
Definition wire (outer inner : ascii) (pairs : list (string * string)) : string :=
  joinWith outer (map (fun pair => (fst pair ++ String inner (snd pair))%string) pairs).

(** Neither half of the pair holds one of the two separators. *)
Definition clean (outer inner : ascii) (pair : string * string) : Prop :=
  free outer (fst pair) = true /\ free inner (fst pair) = true
  /\ free outer (snd pair) = true /\ free inner (snd pair) = true.

(** The object that assigning the pairs in order gives. *)
Definition bindings (pairs : list (string * string)) : JS.object :=
  fold_left (fun o pair => JS.set (fst pair) (snd pair) o) pairs ∅.

End TwitchInvariants.

(** * Properties *)

(** ** TwitchBotBase.chat *)

Lemma tooLongNotice_length :
  String.length TwitchBot.tooLongNotice = 66%nat.
Proof. reflexivity. Qed.

(** C10.  [TwitchBotBase.chat] makes exactly one [super.chat] call, to the
    recipient it was given.  The message of that call is the original
    message if and only if the original is at most 500 code units long;
    a longer message is replaced by the fixed notice, so the over-length
    text itself is never forwarded. *)
Theorem chat_forwards_or_replaces (recipient message : string) :
  (TwitchBot.forwarded (TwitchBot.chat recipient message) = [(recipient, message)]
   <-> (String.length message <= TwitchBot.maxChatMessageLength)%nat)
  /\ TwitchBot.maxChatMessageLength = 500%nat
  /\ TwitchBot.forwarded (TwitchBot.chat recipient message)
     = [(recipient,
         if (500 <? String.length message)%nat
         then "<Message was too long. Please file a bug report with the owner :)>"
         else message)]
  /\ ((500 < String.length message)%nat ->
      ~ In (recipient, message)
          (TwitchBot.forwarded (TwitchBot.chat recipient message))).
Proof.
  unfold TwitchBot.chat, TwitchBot.maxChatMessageLength.
  assert (Hnotice : (500 < String.length message)%nat ->
                    (recipient, TwitchBot.tooLongNotice) <> (recipient, message)).
  { intros Hlong Heq. injection Heq as Heq.
    rewrite <- Heq, tooLongNotice_length in Hlong. lia. }
  destruct (Nat.ltb_spec 500 (String.length message)) as [Hlong | Hshort]; cbn.
  - split; [split | split; [reflexivity | split; [reflexivity |]]].
    + intros Heq. injection Heq as Heq. exfalso. apply (Hnotice Hlong).
      now rewrite Heq.
    + lia.
    + intros _ [Heq | []]. now apply (Hnotice Hlong).
  - split; [split; [intros _; exact Hshort | reflexivity] |].
    split; [reflexivity | split; [reflexivity | lia]].
Qed.

Lemma chat_forwards_or_replaces_witness :
  ~ In ("#channel", String.concat "" (repeat "a" 501))
      (TwitchBot.forwarded
         (TwitchBot.chat "#channel" (String.concat "" (repeat "a" 501)))).
Proof.
  apply (chat_forwards_or_replaces "#channel" (String.concat "" (repeat "a" 501))).
  vm_compute. lia.
Defined.

(** ** Deferred Value *)

Section FutureFacts.
Context {T : Type}.
Implicit Types (ops : list (Future.call T)) (c : Future.cell T).

Lemma future_run_snoc ops op :
  Future.run (ops ++ [op]) = Future.step (Future.run ops) op.
Proof. unfold Future.run. now rewrite fold_left_app. Qed.

Lemma first_settle_snoc ops op :
  Future.first_settle (ops ++ [op]) =
  match Future.first_settle ops with
  | Some v => Some v
  | None => Future.first_settle [op]
  end.
Proof.
  induction ops as [| [v | k] ops IH]; cbn; auto.
Qed.

Lemma gets_snoc ops op :
  Future.gets (ops ++ [op]) = Future.gets ops ++ Future.gets [op].
Proof. unfold Future.gets. now rewrite flat_map_app. Qed.

Lemma future_shape_run ops : future_shape ops (Future.run ops).
Proof.
  induction ops as [| op ops IH] using rev_ind.
  - cbn. auto.
  - unfold future_shape in *.
    rewrite future_run_snoc, first_settle_snoc, gets_snoc.
    destruct (Future.run ops) as [s ws ds ch]; cbn in IH.
    destruct (Future.first_settle ops) as [v |].
    + destruct IH as (-> & -> & -> & Hall & Hperm).
      destruct op as [v' | k]; cbn.
      * rewrite app_nil_r. auto.
      * split_and!; auto.
        -- apply Forall_app; split; auto.
        -- rewrite map_app. cbn. now rewrite Hperm.
    + destruct IH as (-> & -> & -> & ->).
      destruct op as [v' | k]; cbn.
      * rewrite app_nil_r. split_and!; auto.
        -- apply Forall_forall. intros [k v] Hin.
           apply list_elem_of_In, in_map_iff in Hin as (k' & Heq & _).
           now inversion Heq.
        -- rewrite map_map. cbn. now rewrite map_id.
      * auto.
Qed.

End FutureFacts.

(** Whatever the sequence of [settle] and [get] calls on a deferred
    value: the state changes at most once; every value a [get] returned,
    whether the call came before or after settlement, is the value of the
    first [settle]; once settled, every [get] issued so far has been
    answered and no consumer is left waiting. *)
Lemma future_settles_once {T : Type} (ops : list (Future.call T)) :
  (Future.changes (Future.run ops) <= 1)%nat
  /\ (forall consumer v,
        In (consumer, v) (Future.delivered (Future.run ops)) ->
        Future.first_settle ops = Some v)
  /\ (forall v1 v2 k1 k2,
        In (k1, v1) (Future.delivered (Future.run ops)) ->
        In (k2, v2) (Future.delivered (Future.run ops)) -> v1 = v2)
  /\ (forall v, Future.st (Future.run ops) = Future.Settled v ->
        Future.first_settle ops = Some v
        /\ Future.waiters (Future.run ops) = []
        /\ map fst (Future.delivered (Future.run ops)) ≡ₚ Future.gets ops).
Proof.
  pose proof (future_shape_run ops) as Hshape. unfold future_shape in Hshape.
  assert (Hsame : forall k v, In (k, v) (Future.delivered (Future.run ops)) ->
                              Future.first_settle ops = Some v).
  { intros k v Hin. destruct (Future.first_settle ops) as [v0 |].
    - destruct Hshape as (_ & _ & _ & Hall & _).
      rewrite Forall_forall in Hall.
      apply list_elem_of_In in Hin. apply Hall in Hin. cbn in Hin. now subst.
    - destruct Hshape as (_ & _ & Hd & _). rewrite Hd in Hin. destruct Hin. }
  split; [| split; [exact Hsame | split]].
  - destruct (Future.first_settle ops); destruct Hshape as (_ & Hch & _); lia.
  - intros v1 v2 k1 k2 H1 H2. apply Hsame in H1, H2. congruence.
  - intros v Hst. destruct (Future.first_settle ops) as [v0 |].
    + destruct Hshape as (Hst' & _ & Hw & _ & Hperm).
      rewrite Hst in Hst'. inversion Hst'. subst. auto.
    + destruct Hshape as (Hst' & _). congruence.
Qed.

(** Progress of a deferred value.  Before any [settle] the value is
    pending, nothing has been delivered and every [get] issued waits.
    From the first [settle v] on, the state is settled with [v], the
    state has changed exactly once, nobody waits, and every [get]
    issued, before or after that [settle], has been answered with
    [v]. *)
Lemma future_answers_every_get {T : Type} (ops : list (Future.call T)) :
  (Future.first_settle ops = None ->
   Future.st (Future.run ops) = Future.Pending
   /\ Future.changes (Future.run ops) = 0%nat
   /\ Future.delivered (Future.run ops) = []
   /\ Future.waiters (Future.run ops) = Future.gets ops)
  /\ (forall v,
        Future.first_settle ops = Some v ->
        Future.st (Future.run ops) = Future.Settled v
        /\ Future.changes (Future.run ops) = 1%nat
        /\ Future.waiters (Future.run ops) = []
        /\ forall consumer,
             In consumer (Future.gets ops) ->
             In (consumer, v) (Future.delivered (Future.run ops))).
Proof.
  pose proof (future_shape_run ops) as Hshape. unfold future_shape in Hshape.
  split.
  - intros Hnone. now rewrite Hnone in Hshape.
  - intros v Hsome. rewrite Hsome in Hshape.
    destruct Hshape as (Hst & Hch & Hw & Hall & Hperm).
    split_and!; auto.
    intros consumer Hin. apply list_elem_of_In in Hin.
    rewrite <- Hperm in Hin. apply list_elem_of_In, in_map_iff in Hin.
    destruct Hin as ([k v'] & Hk & Hin). cbn in Hk. subst k.
    rewrite Forall_forall in Hall. apply list_elem_of_In in Hin as Hel.
    specialize (Hall _ Hel). cbn in Hall. now subst v'.
Qed.

(** ** Serialized Task Executor *)

Section TaskQueueFacts.
Context {Task : Type}.
Implicit Types (q : TaskQueue.state Task) (evs : list (TaskQueue.event Task)).

Lemma queue_run_snoc evs e :
  TaskQueue.run (evs ++ [e]) = TaskQueue.step (TaskQueue.run evs) e.
Proof. unfold TaskQueue.run. now rewrite fold_left_app. Qed.

Lemma submitted_snoc evs e :
  TaskQueue.submitted (evs ++ [e]) =
  TaskQueue.submitted evs ++ TaskQueue.submitted [e].
Proof. unfold TaskQueue.submitted. now rewrite flat_map_app. Qed.

Lemma started_app (l l' : list (TaskQueue.entry Task)) :
  TaskQueue.started (l ++ l') = TaskQueue.started l ++ TaskQueue.started l'.
Proof. unfold TaskQueue.started. now rewrite flat_map_app. Qed.

Lemma overlap_free_app (l l' : list (TaskQueue.entry Task)) d :
  TaskQueue.overlap_free d (l ++ l') =
  match TaskQueue.overlap_free d l with
  | Some d' => TaskQueue.overlap_free d' l'
  | None => None
  end.
Proof.
  revert d. induction l as [| [t | t b] l IH]; intros d; cbn; auto.
  - destruct d; auto.
  - destruct d as [| [| d]]; auto.
Qed.

Lemma queue_inv_create : queue_inv (@TaskQueue.create Task).
Proof. split; cbn; auto. Qed.

Lemma queue_inv_addTask q t : queue_inv q -> queue_inv (TaskQueue.addTask t q).
Proof. intros [Hl Hlog]. split; cbn; auto. Qed.

(** The loop head keeps the invariant when it is entered with the flag
    set and no task executing. *)
Lemma queue_inv_loopHead (ts : list Task) (l : list (TaskQueue.entry Task)) :
  TaskQueue.overlap_free 0 l = Some 0%nat ->
  queue_inv (TaskQueue.loopHead
               {| TaskQueue.tasks := ts; TaskQueue.draining := true;
                  TaskQueue.executing := []; TaskQueue.log := l |}).
Proof.
  intros Hlog. unfold TaskQueue.loopHead. cbn.
  destruct ts as [| t rest]; split; cbn; eauto.
  rewrite overlap_free_app, Hlog. reflexivity.
Qed.

Lemma queue_inv_startQueue q : queue_inv q -> queue_inv (TaskQueue.startQueue q).
Proof.
  intros Hinv. unfold TaskQueue.startQueue.
  destruct (TaskQueue.draining q) eqn:Hd; [exact Hinv |].
  destruct Hinv as [[[Hd' _] | [_ Hex]] Hlog]; [congruence |].
  rewrite Hex in *. now apply queue_inv_loopHead.
Qed.

Lemma queue_inv_finish q i threw :
  queue_inv q -> queue_inv (TaskQueue.finish i threw q).
Proof.
  intros Hinv. unfold TaskQueue.finish.
  destruct (TaskQueue.executing q !! i) as [t |] eqn:Hi; [| exact Hinv].
  destruct Hinv as [[[Hd [t' Hex]] | [_ Hex]] Hlog];
    rewrite Hex in *; [| discriminate].
  destruct i as [| i]; [| discriminate]. cbn in *. rewrite Hd.
  apply queue_inv_loopHead. rewrite overlap_free_app, Hlog. reflexivity.
Qed.

Lemma queue_inv_run evs : queue_inv (TaskQueue.run evs).
Proof.
  induction evs as [| e evs IH] using rev_ind.
  - apply queue_inv_create.
  - rewrite queue_run_snoc.
    destruct e; cbn;
      auto using queue_inv_addTask, queue_inv_startQueue, queue_inv_finish.
Qed.

(** Begun executions and pending tasks together are the submissions,
    in order. *)
Lemma queue_fifo_loopHead q :
  TaskQueue.started (TaskQueue.log (TaskQueue.loopHead q))
    ++ TaskQueue.tasks (TaskQueue.loopHead q)
  = TaskQueue.started (TaskQueue.log q) ++ TaskQueue.tasks q.
Proof.
  unfold TaskQueue.loopHead.
  destruct (TaskQueue.tasks q) as [| t rest]; cbn -[TaskQueue.started]; auto.
  rewrite started_app. cbn. now rewrite <- app_assoc.
Qed.

Lemma queue_fifo_run evs :
  TaskQueue.started (TaskQueue.log (TaskQueue.run evs))
    ++ TaskQueue.tasks (TaskQueue.run evs)
  = TaskQueue.submitted evs.
Proof.
  induction evs as [| e evs IH] using rev_ind; [reflexivity |].
  rewrite queue_run_snoc, submitted_snoc, <- IH.
  destruct e as [t | | i threw]; cbn -[TaskQueue.started].
  - now rewrite app_assoc.
  - rewrite app_nil_r. unfold TaskQueue.startQueue.
    destruct (TaskQueue.draining (TaskQueue.run evs)); [reflexivity |].
    now rewrite queue_fifo_loopHead.
  - rewrite app_nil_r. unfold TaskQueue.finish.
    destruct (TaskQueue.executing (TaskQueue.run evs) !! i); [| reflexivity].
    rewrite queue_fifo_loopHead. cbn -[TaskQueue.started].
    rewrite started_app. cbn. now rewrite app_nil_r.
Qed.

Lemma ended_app (l l' : list (TaskQueue.entry Task)) :
  ended (l ++ l') = ended l ++ ended l'.
Proof. unfold ended. now rewrite flat_map_app. Qed.

(** What has begun is what has ended followed by what is executing. *)
Lemma queue_ended_loopHead q :
  ended (TaskQueue.log q) ++ TaskQueue.executing q
  = TaskQueue.started (TaskQueue.log q) ->
  ended (TaskQueue.log (TaskQueue.loopHead q))
    ++ TaskQueue.executing (TaskQueue.loopHead q)
  = TaskQueue.started (TaskQueue.log (TaskQueue.loopHead q)).
Proof.
  intros Hq. unfold TaskQueue.loopHead.
  destruct (TaskQueue.tasks q) as [| t rest]; cbn -[TaskQueue.started ended];
    [exact Hq |].
  rewrite ended_app, started_app. cbn. now rewrite app_nil_r, app_assoc, Hq.
Qed.

Lemma queue_ended_run evs :
  ended (TaskQueue.log (TaskQueue.run evs)) ++ TaskQueue.executing (TaskQueue.run evs)
  = TaskQueue.started (TaskQueue.log (TaskQueue.run evs)).
Proof.
  induction evs as [| e evs IH] using rev_ind; [reflexivity |].
  rewrite queue_run_snoc.
  pose proof (queue_inv_run evs) as [Hloops _].
  destruct e as [t | | i threw]; cbn -[TaskQueue.started ended].
  - exact IH.
  - unfold TaskQueue.startQueue.
    destruct (TaskQueue.draining (TaskQueue.run evs)); [exact IH |].
    now apply queue_ended_loopHead.
  - unfold TaskQueue.finish.
    destruct (TaskQueue.executing (TaskQueue.run evs) !! i) as [t |] eqn:Hi;
      [| exact IH].
    apply queue_ended_loopHead. cbn -[TaskQueue.started ended].
    destruct Hloops as [[_ [t' Hex]] | [_ Hex]]; rewrite Hex in *;
      [| discriminate].
    destruct i as [| i]; [| discriminate]. cbn in Hi. injection Hi as ->.
    rewrite ended_app, started_app. cbn. now rewrite !app_nil_r.
Qed.

(** A drain call on an idle executor begins the task at the head of the
    pending sequence. *)
Lemma queue_drain_progress evs t rest :
  TaskQueue.executing (TaskQueue.run evs) = [] ->
  TaskQueue.tasks (TaskQueue.run evs) = t :: rest ->
  TaskQueue.executing (TaskQueue.run (evs ++ [TaskQueue.EvStartQueue])) = [t]
  /\ TaskQueue.tasks (TaskQueue.run (evs ++ [TaskQueue.EvStartQueue])) = rest
  /\ TaskQueue.log (TaskQueue.run (evs ++ [TaskQueue.EvStartQueue]))
     = TaskQueue.log (TaskQueue.run evs) ++ [TaskQueue.Started t].
Proof.
  intros Hex Hts. rewrite queue_run_snoc. cbn. unfold TaskQueue.startQueue.
  pose proof (queue_inv_run evs) as [[[_ [t' Hex']] | [Hd _]] _]; [congruence |].
  rewrite Hd. unfold TaskQueue.loopHead. cbn. rewrite Hts, Hex. auto.
Qed.

(** The end of the executing task, thrown or not, is logged, and the
    executor goes on with the next pending task, if there is one. *)
Lemma queue_finish_progress evs t threw :
  TaskQueue.executing (TaskQueue.run evs) = [t] ->
  TaskQueue.log (TaskQueue.run (evs ++ [TaskQueue.EvFinish 0 threw]))
  = TaskQueue.log (TaskQueue.run evs)
    ++ TaskQueue.Finished t threw
       :: match TaskQueue.tasks (TaskQueue.run evs) with
          | next :: _ => [TaskQueue.Started next]
          | [] => []
          end
  /\ TaskQueue.executing (TaskQueue.run (evs ++ [TaskQueue.EvFinish 0 threw]))
     = match TaskQueue.tasks (TaskQueue.run evs) with
       | next :: _ => [next]
       | [] => []
       end
  /\ TaskQueue.tasks (TaskQueue.run (evs ++ [TaskQueue.EvFinish 0 threw]))
     = tl (TaskQueue.tasks (TaskQueue.run evs)).
Proof.
  intros Hex. rewrite queue_run_snoc. cbn. unfold TaskQueue.finish.
  rewrite Hex. cbn. unfold TaskQueue.loopHead. cbn.
  destruct (TaskQueue.tasks (TaskQueue.run evs)) as [| next rest]; cbn.
  - auto.
  - rewrite <- app_assoc. auto.
Qed.

(** As many completions as there are tasks executing and pending take
    the executor through all of them, in order. *)
Lemma queue_completions q t (outcomes : list bool) :
  TaskQueue.executing q = [t] ->
  TaskQueue.draining q = true ->
  length outcomes = S (length (TaskQueue.tasks q)) ->
  let q' := fold_left TaskQueue.step (map (TaskQueue.EvFinish 0) outcomes) q in
  TaskQueue.executing q' = []
  /\ TaskQueue.tasks q' = []
  /\ TaskQueue.draining q' = false
  /\ TaskQueue.started (TaskQueue.log q')
     = TaskQueue.started (TaskQueue.log q) ++ TaskQueue.tasks q
  /\ ended (TaskQueue.log q') = ended (TaskQueue.log q) ++ t :: TaskQueue.tasks q.
Proof.
  revert q t. induction outcomes as [| o outcomes IH]; intros q t Hex Hd Hlen q';
    [discriminate |].
  subst q'. cbn [map fold_left TaskQueue.step].
  assert (Hstep : TaskQueue.finish 0 o q
    = TaskQueue.loopHead
        {| TaskQueue.tasks := TaskQueue.tasks q; TaskQueue.draining := true;
           TaskQueue.executing := [];
           TaskQueue.log := TaskQueue.log q ++ [TaskQueue.Finished t o] |}).
  { unfold TaskQueue.finish. rewrite Hex. cbn. now rewrite Hd. }
  rewrite Hstep. clear Hstep. unfold TaskQueue.loopHead. cbn [TaskQueue.tasks].
  destruct (TaskQueue.tasks q) as [| next rest] eqn:Hts.
  - destruct outcomes; [| discriminate]. cbn -[TaskQueue.started ended].
    rewrite started_app, ended_app. cbn. now rewrite !app_nil_r.
  - cbn [TaskQueue.log TaskQueue.executing TaskQueue.draining].
    match goal with
    | |- context [fold_left _ _ ?q1] =>
        destruct (IH q1 next) as (He & Ht & Hdr & Hst & Hen);
          [reflexivity | reflexivity | cbn in *; lia |]
    end.
    cbn -[TaskQueue.started ended] in *.
    rewrite He, Ht, Hdr, Hst, Hen.
    rewrite !started_app, !ended_app. cbn.
    rewrite !app_nil_r, <- !app_assoc. auto.
Qed.

(** One drain call and the completions of all the tasks executing and
    pending: every submitted task has begun and has ended, in submission
    order, and the executor is idle. *)
Lemma queue_drains_all evs (outcomes : list bool) :
  length outcomes
  = (length (TaskQueue.executing (TaskQueue.run evs))
     + length (TaskQueue.tasks (TaskQueue.run evs)))%nat ->
  let q' :=
    TaskQueue.run
      (evs ++ TaskQueue.EvStartQueue :: map (TaskQueue.EvFinish 0) outcomes) in
  TaskQueue.started (TaskQueue.log q') = TaskQueue.submitted evs
  /\ ended (TaskQueue.log q') = TaskQueue.submitted evs
  /\ TaskQueue.executing q' = []
  /\ TaskQueue.tasks q' = []
  /\ TaskQueue.draining q' = false.
Proof.
  intros Hlen q'. subst q'.
  unfold TaskQueue.run. rewrite fold_left_app. fold (TaskQueue.run evs).
  cbn [fold_left TaskQueue.step].
  pose proof (queue_fifo_run evs) as Hfifo.
  pose proof (queue_ended_run evs) as Hended.
  pose proof (queue_inv_run evs) as [Hloops _].
  unfold TaskQueue.startQueue.
  destruct Hloops as [[Hd [t Hex]] | [Hd Hex]]; rewrite Hd.
  - rewrite Hex in Hlen, Hended.
    destruct (queue_completions (TaskQueue.run evs) t outcomes Hex Hd Hlen)
      as (He & Ht & Hdr & Hst & Hen).
    rewrite He, Ht, Hdr, Hst, Hen, Hfifo.
    split_and!; auto.
    change (t :: TaskQueue.tasks (TaskQueue.run evs))
      with ([t] ++ TaskQueue.tasks (TaskQueue.run evs)).
    now rewrite app_assoc, Hended.
  - rewrite Hex in Hlen, Hended. rewrite app_nil_r in Hended.
    unfold TaskQueue.loopHead. cbn [TaskQueue.tasks].
    destruct (TaskQueue.tasks (TaskQueue.run evs)) as [| t rest] eqn:Hts.
    + destruct outcomes; [| discriminate]. cbn -[TaskQueue.started ended].
      rewrite app_nil_r in Hfifo. rewrite Hended, Hfifo. auto.
    + match goal with
      | |- context [fold_left _ _ ?q1] =>
          destruct (queue_completions q1 t outcomes)
            as (He & Ht & Hdr & Hst & Hen);
            [now rewrite Hex | reflexivity | cbn in *; lia |]
      end.
      cbn -[TaskQueue.started ended] in *.
      rewrite He, Ht, Hdr, Hst, Hen.
      rewrite !started_app, !ended_app. cbn.
      rewrite !app_nil_r, <- !app_assoc. cbn.
      rewrite <- Hfifo, Hended. auto.
Qed.

End TaskQueueFacts.

(** C3.  Whatever the interleaving of submissions, drain calls and task
    completions on one executor: the tasks whose execution has begun,
    in the order it began, followed by the tasks still pending, are the
    submitted tasks in submission order (FIFO); at most one task is
    executing; no execution begins while another is open; and submitting
    a task while one is executing leaves the executing task in place,
    begins nothing, and puts the new task at the tail.  And the tasks do
    execute: a drain call on an idle executor begins the task at the
    head of the pending sequence; the end of the executing task, thrown
    or not, begins the next pending one; and after one drain call and as
    many completions as there are tasks executing and pending, every
    submitted task has begun and has ended, in submission order, and the
    executor is idle. *)
Theorem taskQueue_fifo_one_at_a_time {Task : Type}
    (evs : list (TaskQueue.event Task)) :
  TaskQueue.started (TaskQueue.log (TaskQueue.run evs))
    ++ TaskQueue.tasks (TaskQueue.run evs)
  = TaskQueue.submitted evs
  /\ (length (TaskQueue.executing (TaskQueue.run evs)) <= 1)%nat
  /\ TaskQueue.overlap_free 0 (TaskQueue.log (TaskQueue.run evs))
     = Some (length (TaskQueue.executing (TaskQueue.run evs)))
  /\ (forall t,
        TaskQueue.executing (TaskQueue.run evs) <> [] ->
        let q' := TaskQueue.run (evs ++ [TaskQueue.EvAddTask t; TaskQueue.EvStartQueue]) in
        TaskQueue.executing q' = TaskQueue.executing (TaskQueue.run evs)
        /\ TaskQueue.log q' = TaskQueue.log (TaskQueue.run evs)
        /\ TaskQueue.tasks q' = TaskQueue.tasks (TaskQueue.run evs) ++ [t])
  /\ (forall t rest,
        TaskQueue.executing (TaskQueue.run evs) = [] ->
        TaskQueue.tasks (TaskQueue.run evs) = t :: rest ->
        let q' := TaskQueue.run (evs ++ [TaskQueue.EvStartQueue]) in
        TaskQueue.executing q' = [t]
        /\ TaskQueue.tasks q' = rest
        /\ TaskQueue.log q' = TaskQueue.log (TaskQueue.run evs) ++ [TaskQueue.Started t])
  /\ (forall t threw,
        TaskQueue.executing (TaskQueue.run evs) = [t] ->
        let q' := TaskQueue.run (evs ++ [TaskQueue.EvFinish 0 threw]) in
        TaskQueue.log q'
        = TaskQueue.log (TaskQueue.run evs)
          ++ TaskQueue.Finished t threw
             :: match TaskQueue.tasks (TaskQueue.run evs) with
                | next :: _ => [TaskQueue.Started next]
                | [] => []
                end
        /\ TaskQueue.executing q'
           = match TaskQueue.tasks (TaskQueue.run evs) with
             | next :: _ => [next]
             | [] => []
             end
        /\ TaskQueue.tasks q' = tl (TaskQueue.tasks (TaskQueue.run evs)))
  /\ (forall outcomes : list bool,
        length outcomes
        = (length (TaskQueue.executing (TaskQueue.run evs))
           + length (TaskQueue.tasks (TaskQueue.run evs)))%nat ->
        let q' :=
          TaskQueue.run
            (evs ++ TaskQueue.EvStartQueue :: map (TaskQueue.EvFinish 0) outcomes) in
        TaskQueue.started (TaskQueue.log q') = TaskQueue.submitted evs
        /\ ended (TaskQueue.log q') = TaskQueue.submitted evs
        /\ TaskQueue.executing q' = []
        /\ TaskQueue.tasks q' = []
        /\ TaskQueue.draining q' = false).
Proof.
  pose proof (queue_inv_run evs) as [Hloops Hlog].
  split; [apply queue_fifo_run |].
  split; [destruct Hloops as [[_ [t ->]] | [_ ->]]; cbn; lia |].
  split; [exact Hlog |].
  split; [| split; [| split]].
  - intros t Hex q'. subst q'.
    unfold TaskQueue.run. rewrite fold_left_app. cbn.
    fold (TaskQueue.run evs). unfold TaskQueue.startQueue. cbn.
    destruct Hloops as [[-> _] | [_ Hnone]]; [auto | contradiction].
  - intros t rest Hex Hts q'. now apply queue_drain_progress.
  - intros t threw Hex q'. now apply queue_finish_progress.
  - intros outcomes Hlen q'. now apply queue_drains_all.
Qed.

(** ** Held Action registry *)

Section HeldTaskFacts.
Context {Op : Type}.
Implicit Types (r : HeldTask.registry Op) (a : HeldTask.action Op)
  (evs : list (HeldTask.event Op)) (w : HeldTask.side).

Lemma held_run_app evs evs' :
  HeldTask.run (evs ++ evs') = fold_left HeldTask.step evs' (HeldTask.run evs).
Proof. unfold HeldTask.run. now rewrite fold_left_app. Qed.

Lemma ran_snoc id w (l : list (nat * HeldTask.side * Op)) id' w' op :
  HeldTask.ran id w (l ++ [(id', w', op)]) =
  (HeldTask.ran id w l + if decide (id' = id /\ w' = w) then 1 else 0)%nat.
Proof.
  unfold HeldTask.ran. rewrite filter_app, length_app. f_equal.
  rewrite filter_cons, filter_nil. cbn. now destruct (decide _).
Qed.

Lemma evolves_refl a : evolves a a.
Proof. repeat split; auto. Qed.

Lemma evolves_trans a1 a2 a3 : evolves a1 a2 -> evolves a2 a3 -> evolves a1 a3.
Proof.
  intros [(K1 & C1 & X1 & D1) S1] [(K2 & C2 & X2 & D2) S2].
  split; [repeat split; congruence |].
  intros Hs. rewrite (S1 Hs) in *. auto.
Qed.

Lemma extends_refl r : extends r r.
Proof. split; [lia | split; [| lia]]. eauto using evolves_refl. Qed.

Lemma extends_trans r1 r2 r3 : extends r1 r2 -> extends r2 r3 -> extends r1 r3.
Proof.
  intros (N1 & A1 & L1) (N2 & A2 & L2). split; [lia | split; [| lia]].
  intros id a Ha. destruct (A1 _ _ Ha) as (a' & Ha' & E1).
  destruct (A2 _ _ Ha') as (a'' & Ha'' & E2). eauto using evolves_trans.
Qed.

Lemma held_inv_create : held_inv (@HeldTask.create Op).
Proof.
  split; cbn.
  - intros id a Ha. discriminate.
  - intros id w op [].
  - intros k id Hk. rewrite lookup_empty in Hk. discriminate.
Qed.

(** Settling one pending action. *)
Lemma settleAction_pending id w r a :
  HeldTask.actions r !! id = Some a ->
  HeldTask.status a = HeldTask.pending ->
  HeldTask.now (HeldTask.settleAction id w r) = HeldTask.now r
  /\ HeldTask.actions (HeldTask.settleAction id w r)
     = <[id := HeldTask.with_status (HeldTask.outcomeOf w) a]> (HeldTask.actions r)
  /\ HeldTask.invoked (HeldTask.settleAction id w r)
     = HeldTask.invoked r ++ [(id, w, HeldTask.opOf w a)].
Proof.
  intros Ha Hs. unfold HeldTask.settleAction. rewrite Ha, Hs. cbn. auto.
Qed.

Lemma settleAction_other id w r :
  (forall a, HeldTask.actions r !! id = Some a ->
             HeldTask.status a <> HeldTask.pending) ->
  HeldTask.settleAction id w r = r.
Proof.
  intros Hno. unfold HeldTask.settleAction.
  destruct (HeldTask.actions r !! id) as [a |] eqn:Ha; [| reflexivity].
  specialize (Hno a eq_refl). destruct (HeldTask.status a); congruence.
Qed.

Lemma settleAction_extends id w r : extends r (HeldTask.settleAction id w r).
Proof.
  destruct (HeldTask.actions r !! id) as [a |] eqn:Ha.
  - destruct (HeldTask.status a) eqn:Hs.
    + destruct (settleAction_pending id w r a Ha Hs) as (Hn & Hact & _).
      split; [lia | split].
      * intros id' a' Ha'. rewrite Hact.
        destruct (decide (id = id')) as [<- | Hne].
        -- rewrite list_lookup_insert_eq by eauto using lookup_lt_Some.
           eexists; split; [reflexivity |].
           assert (a' = a) by congruence. subst a'.
           split; [repeat split | congruence].
        -- rewrite list_lookup_insert_ne by done. eauto using evolves_refl.
      * rewrite Hact, length_insert. lia.
    + rewrite settleAction_other; [apply extends_refl |].
      intros a' Ha'. congruence.
    + rewrite settleAction_other; [apply extends_refl |].
      intros a' Ha'. congruence.
  - rewrite settleAction_other; [apply extends_refl |]. intros a' Ha'. congruence.
Qed.

Lemma settleAction_inv id w r : held_inv r -> held_inv (HeldTask.settleAction id w r).
Proof.
  intros Hinv.
  destruct (HeldTask.actions r !! id) as [a |] eqn:Ha;
    [destruct (HeldTask.status a) eqn:Hs |];
    try (rewrite settleAction_other; [exact Hinv | intros a' Ha'; congruence]).
  destruct (settleAction_pending id w r a Ha Hs) as (Hn & Hact & Hinvk).
  pose proof (inv_counts r Hinv id a Ha) as Hzero. rewrite Hs in Hzero.
  split.
  - intros id' a'. rewrite Hact, Hinvk, !ran_snoc.
    destruct (decide (id = id')) as [<- | Hne].
    + rewrite list_lookup_insert_eq by eauto using lookup_lt_Some.
      intros [= <-]. destruct Hzero as [-> ->].
      destruct w; cbn; repeat case_decide; intuition (congruence || lia).
    + rewrite list_lookup_insert_ne by done. intros Ha'.
      pose proof (inv_counts r Hinv id' a' Ha') as Hc.
      repeat case_decide; try (exfalso; intuition congruence).
      rewrite !Nat.add_0_r. exact Hc.
  - intros id' w' op. rewrite Hact, Hinvk, in_app_iff. cbn.
    intros [Hin | [[= <- <- <-] | []]].
    + destruct (inv_invoked r Hinv _ _ _ Hin) as (a' & Ha' & ->).
      destruct (decide (id = id')) as [<- | Hne].
      * rewrite list_lookup_insert_eq by eauto using lookup_lt_Some.
        eexists; split; [reflexivity |].
        assert (a' = a) by congruence. subst a'. now destruct w'.
      * rewrite list_lookup_insert_ne by done. eauto.
    + rewrite list_lookup_insert_eq by eauto using lookup_lt_Some.
      eexists; split; [reflexivity |]. now destruct w.
  - intros k id' Hk.
    assert (Hk' : HeldTask.active r !! k = Some id').
    { revert Hk. unfold HeldTask.settleAction. rewrite Ha, Hs. cbn.
      case_decide; [| done].
      destruct (decide (HeldTask.key a = k)) as [<- | Hne].
      - rewrite lookup_delete_eq. discriminate.
      - now rewrite lookup_delete_ne. }
    destruct (inv_active r Hinv _ _ Hk') as (a' & Ha' & Hkey). rewrite Hact.
    destruct (decide (id = id')) as [<- | Hne].
    + rewrite list_lookup_insert_eq by eauto using lookup_lt_Some.
      eexists; split; [reflexivity |].
      assert (a' = a) by congruence. now subst a'.
    + rewrite list_lookup_insert_ne by done. eauto.
Qed.

Lemma ran_absent id w (l : list (nat * HeldTask.side * Op)) :
  (forall w' op, ~ In (id, w', op) l) -> HeldTask.ran id w l = 0%nat.
Proof.
  unfold HeldTask.ran. induction l as [| [[id' w'] op] l IH]; intros Hno.
  - reflexivity.
  - rewrite filter_cons. case_decide as Hx; cbn in Hx.
    + destruct Hx as [-> _]. exfalso. apply (Hno w' op). now left.
    + apply IH. intros w'' op' Hin. apply (Hno w'' op'). now right.
Qed.

Lemma ran_fresh r id w :
  held_inv r -> (length (HeldTask.actions r) <= id)%nat ->
  HeldTask.ran id w (HeldTask.invoked r) = 0%nat.
Proof.
  intros Hinv Hlen. apply ran_absent. intros w' op Hin.
  destruct (inv_invoked r Hinv _ _ _ Hin) as (a & Ha & _).
  apply lookup_lt_Some in Ha. lia.
Qed.

Lemma addHeldTask_inv k c x timeout r :
  held_inv r -> held_inv (HeldTask.addHeldTask k c x timeout r).
Proof.
  intros Hinv. split; cbn.
  - intros id a Ha. apply lookup_app_Some in Ha as [Ha | [Hlen Ha]].
    + exact (inv_counts r Hinv id a Ha).
    + apply list_lookup_singleton_Some in Ha as [_ <-]. cbn.
      split; apply ran_fresh; auto.
  - intros id w op Hin. destruct (inv_invoked r Hinv _ _ _ Hin) as (a & Ha & ->).
    exists a. split; [| reflexivity]. now apply lookup_app_l_Some.
  - intros k' id. destruct (decide (k = k')) as [<- | Hne].
    + rewrite lookup_insert_eq. intros [= <-].
      eexists. split; [apply list_lookup_middle; reflexivity | reflexivity].
    + rewrite lookup_insert_ne by done. intros Hk.
      destruct (inv_active r Hinv _ _ Hk) as (a & Ha & Hkey).
      exists a. split; [now apply lookup_app_l_Some | exact Hkey].
Qed.

Lemma addHeldTask_extends k c x timeout r :
  extends r (HeldTask.addHeldTask k c x timeout r).
Proof.
  split; [cbn; lia | split; cbn].
  - intros id a Ha. exists a. split; [now apply lookup_app_l_Some | apply evolves_refl].
  - rewrite length_app. lia.
Qed.

Lemma resolveKey_inv w k r : held_inv r -> held_inv (HeldTask.resolveKey w k r).
Proof.
  intros Hinv. unfold HeldTask.resolveKey.
  destruct (HeldTask.active r !! k); auto using settleAction_inv.
Qed.

Lemma resolveKey_extends w k r : extends r (HeldTask.resolveKey w k r).
Proof.
  unfold HeldTask.resolveKey.
  destruct (HeldTask.active r !! k); auto using settleAction_extends, extends_refl.
Qed.

Lemma fireDeadline_inv id r : held_inv r -> held_inv (HeldTask.fireDeadline id r).
Proof.
  intros Hinv. unfold HeldTask.fireDeadline.
  destruct (HeldTask.actions r !! id); [| done].
  case_decide; auto using settleAction_inv.
Qed.

Lemma fireDeadline_extends id r : extends r (HeldTask.fireDeadline id r).
Proof.
  unfold HeldTask.fireDeadline.
  destruct (HeldTask.actions r !! id); [| apply extends_refl].
  case_decide; auto using settleAction_extends, extends_refl.
Qed.

Lemma fireDeadline_now id r :
  HeldTask.now (HeldTask.fireDeadline id r) = HeldTask.now r.
Proof.
  unfold HeldTask.fireDeadline, HeldTask.settleAction.
  destruct (HeldTask.actions r !! id) as [a |]; [| done].
  case_decide; [| done]. now destruct (HeldTask.status a).
Qed.

(** A timer that has elapsed leaves its action settled. *)
Lemma fireDeadline_settles id r a a' :
  HeldTask.actions r !! id = Some a ->
  HeldTask.deadline a <= HeldTask.now r ->
  HeldTask.actions (HeldTask.fireDeadline id r) !! id = Some a' ->
  HeldTask.status a' <> HeldTask.pending.
Proof.
  intros Ha Hdue. unfold HeldTask.fireDeadline. rewrite Ha.
  case_decide; [| lia].
  destruct (HeldTask.status a) eqn:Hs.
  - destruct (settleAction_pending id HeldTask.Cancellation r a Ha Hs)
      as (_ & -> & _).
    rewrite list_lookup_insert_eq by eauto using lookup_lt_Some.
    intros [= <-]. discriminate.
  - rewrite settleAction_other by (intros ? ?; congruence).
    rewrite Ha. intros [= <-]. congruence.
  - rewrite settleAction_other by (intros ? ?; congruence).
    rewrite Ha. intros [= <-]. congruence.
Qed.

Lemma fires_cons i ids r :
  fires (i :: ids) r = fires ids (HeldTask.fireDeadline i r).
Proof. reflexivity. Qed.

Lemma fires_inv ids r : held_inv r -> held_inv (fires ids r).
Proof.
  revert r. induction ids as [| i ids IH]; intros r Hinv; [exact Hinv |].
  rewrite fires_cons. apply IH. now apply fireDeadline_inv.
Qed.

Lemma fires_extends ids r : extends r (fires ids r).
Proof.
  revert r. induction ids as [| i ids IH]; intros r.
  - apply extends_refl.
  - rewrite fires_cons.
    eapply extends_trans; [apply fireDeadline_extends | apply IH].
Qed.

Lemma fires_now ids r : HeldTask.now (fires ids r) = HeldTask.now r.
Proof.
  revert r. induction ids as [| i ids IH]; intros r; [reflexivity |].
  now rewrite fires_cons, IH, fireDeadline_now.
Qed.

Lemma fires_settles ids r id a a' :
  In id ids ->
  HeldTask.actions r !! id = Some a ->
  HeldTask.deadline a <= HeldTask.now r ->
  HeldTask.actions (fires ids r) !! id = Some a' ->
  HeldTask.status a' <> HeldTask.pending.
Proof.
  revert r a. induction ids as [| i ids IH]; intros r a Hin Ha Hdue Ha'; [destruct Hin |].
  change (HeldTask.actions (fires ids (HeldTask.fireDeadline i r)) !! id = Some a')
    in Ha'.
  destruct (fireDeadline_extends i r) as (_ & Hact & _).
  destruct (Hact _ _ Ha) as (a1 & Ha1 & [(_ & _ & _ & Hd1) Hfix1]).
  destruct (decide (i = id)) as [-> | Hne].
  - pose proof (fireDeadline_settles id r a a1 Ha Hdue Ha1) as Hs1.
    destruct (fires_extends ids (HeldTask.fireDeadline id r)) as (_ & Hact2 & _).
    destruct (Hact2 _ _ Ha1) as (a2 & Ha2 & [_ Hfix2]).
    rewrite Ha' in Ha2. injection Ha2 as <-. now rewrite (Hfix2 Hs1).
  - destruct Hin as [-> | Hin]; [done |].
    apply (IH (HeldTask.fireDeadline i r) a1); auto.
    rewrite fireDeadline_now. lia.
Qed.

Lemma advance_fires dt r :
  HeldTask.advance dt r =
  fires (seq 0 (length (HeldTask.actions r)))
    {| HeldTask.now := HeldTask.now r + Z.max 0 dt;
       HeldTask.actions := HeldTask.actions r;
       HeldTask.active := HeldTask.active r;
       HeldTask.invoked := HeldTask.invoked r |}.
Proof. reflexivity. Qed.

Lemma advance_inv dt r : held_inv r -> held_inv (HeldTask.advance dt r).
Proof.
  intros [Hc Hi Ha]. rewrite advance_fires. apply fires_inv. now split.
Qed.

Lemma advance_extends dt r : extends r (HeldTask.advance dt r).
Proof.
  rewrite advance_fires. eapply extends_trans; [| apply fires_extends].
  split; [cbn; lia | split; [| cbn; lia]]. cbn. eauto using evolves_refl.
Qed.

(** After the clock has moved, no action whose deadline has passed is
    still pending. *)
Lemma advance_settles dt r id a a' :
  HeldTask.actions r !! id = Some a ->
  HeldTask.deadline a <= HeldTask.now r + Z.max 0 dt ->
  HeldTask.actions (HeldTask.advance dt r) !! id = Some a' ->
  HeldTask.status a' <> HeldTask.pending.
Proof.
  intros Ha Hdue. rewrite advance_fires.
  apply (fires_settles _ _ id a); auto.
  apply in_seq. apply lookup_lt_Some in Ha. lia.
Qed.

Lemma step_inv r e : held_inv r -> held_inv (HeldTask.step r e).
Proof.
  destruct e; cbn; unfold HeldTask.complete, HeldTask.cancel;
    auto using addHeldTask_inv, resolveKey_inv, advance_inv.
Qed.

Lemma step_extends r e : extends r (HeldTask.step r e).
Proof.
  destruct e; cbn; unfold HeldTask.complete, HeldTask.cancel;
    auto using addHeldTask_extends, resolveKey_extends, advance_extends.
Qed.

Lemma steps_inv evs r : held_inv r -> held_inv (fold_left HeldTask.step evs r).
Proof.
  revert r. induction evs as [| e evs IH]; intros r Hinv; cbn; auto using step_inv.
Qed.

Lemma steps_extends evs r : extends r (fold_left HeldTask.step evs r).
Proof.
  revert r. induction evs as [| e evs IH]; intros r; cbn.
  - apply extends_refl.
  - eapply extends_trans; [apply step_extends | apply IH].
Qed.

Lemma run_inv evs : held_inv (HeldTask.run evs).
Proof. apply steps_inv, held_inv_create. Qed.

(** How one settlement changes the action [id]. *)
Lemma settleAction_lookup id' w r id a a' :
  HeldTask.actions r !! id = Some a ->
  HeldTask.actions (HeldTask.settleAction id' w r) !! id = Some a' ->
  a' = a
  \/ (id' = id /\ HeldTask.status a = HeldTask.pending
      /\ a' = HeldTask.with_status (HeldTask.outcomeOf w) a).
Proof.
  intros Ha. unfold HeldTask.settleAction.
  destruct (HeldTask.actions r !! id') as [b |] eqn:Hb;
    [| rewrite Ha; intros [= <-]; now left].
  destruct (HeldTask.status b) eqn:Hs; cbn;
    try (rewrite Ha; intros [= <-]; now left).
  destruct (decide (id' = id)) as [-> | Hne].
  - rewrite list_lookup_insert_eq by eauto using lookup_lt_Some.
    intros [= <-]. right. assert (b = a) by congruence. subst b. auto.
  - rewrite list_lookup_insert_ne by done. rewrite Ha. intros [= <-]. now left.
Qed.

(** Without a [complete] call for its key, an action is never
    completed. *)
Lemma step_not_completed r e id a a' :
  held_inv r ->
  HeldTask.actions r !! id = Some a ->
  HeldTask.status a <> HeldTask.completed ->
  match e with HeldTask.EvComplete k => k <> HeldTask.key a | _ => True end ->
  HeldTask.actions (HeldTask.step r e) !! id = Some a' ->
  HeldTask.status a' <> HeldTask.completed.
Proof.
  intros Hinv Ha Hs He.
  destruct e as [k c x t | k | k | dt]; cbn.
  - rewrite (lookup_app_l_Some _ _ _ _ Ha). intros [= <-]. exact Hs.
  - unfold HeldTask.complete, HeldTask.resolveKey.
    destruct (HeldTask.active r !! k) as [id' |] eqn:Hk;
      [| rewrite Ha; intros [= <-]; exact Hs].
    intros Ha'.
    destruct (settleAction_lookup _ _ _ _ _ _ Ha Ha') as [-> | (-> & _ & _)]; [exact Hs |].
    destruct (inv_active r Hinv _ _ Hk) as (b & Hb & Hkey).
    rewrite Ha in Hb. injection Hb as <-. congruence.
  - unfold HeldTask.cancel, HeldTask.resolveKey.
    destruct (HeldTask.active r !! k) as [id' |];
      [| rewrite Ha; intros [= <-]; exact Hs].
    intros Ha'.
    destruct (settleAction_lookup _ _ _ _ _ _ Ha Ha') as [-> | (_ & _ & ->)];
      [exact Hs | discriminate].
  - rewrite advance_fires.
    set (r0 := {| HeldTask.now := _ |}).
    assert (Ha0 : HeldTask.actions r0 !! id = Some a) by exact Ha.
    clearbody r0. clear Ha He Hinv.
    revert r0 a Hs Ha0.
    induction (seq 0 (length (HeldTask.actions r))) as [| i ids IH];
      intros r0 a Hs Ha0; cbn.
    + rewrite Ha0. intros [= <-]. exact Hs.
    + destruct (fireDeadline_extends i r0) as (_ & Hact & _).
      destruct (Hact _ _ Ha0) as (a1 & Ha1 & _).
      apply (IH _ a1); [| exact Ha1].
      revert Ha1. unfold HeldTask.fireDeadline.
      destruct (HeldTask.actions r0 !! i);
        [| rewrite Ha0; intros [= <-]; exact Hs].
      case_decide; [| rewrite Ha0; intros [= <-]; exact Hs].
      intros Ha1.
      destruct (settleAction_lookup _ _ _ _ _ _ Ha0 Ha1) as [-> | (_ & _ & ->)];
        [exact Hs | discriminate].
Qed.

Lemma steps_not_completed evs r id a a' :
  held_inv r ->
  HeldTask.actions r !! id = Some a ->
  HeldTask.status a <> HeldTask.completed ->
  HeldTask.undecided (HeldTask.key a) evs ->
  HeldTask.actions (fold_left HeldTask.step evs r) !! id = Some a' ->
  HeldTask.status a' <> HeldTask.completed.
Proof.
  revert r a. induction evs as [| e evs IH]; intros r a Hinv Ha Hs Hund; cbn.
  - rewrite Ha. intros [= <-]. exact Hs.
  - apply Forall_cons in Hund as [He Hund].
    destruct (step_extends r e) as (_ & Hact & _).
    destruct (Hact _ _ Ha) as (a1 & Ha1 & [(Hkey & _) _]).
    apply (IH _ a1); auto using step_inv.
    + apply (step_not_completed r e id a a1); auto.
      destruct e; auto.
    + now rewrite Hkey.
Qed.

(** The counts of a settled action are read off its status, so they are
    the same in any two registries that hold the action unchanged. *)
Lemma settled_counts r id a :
  held_inv r ->
  HeldTask.actions r !! id = Some a ->
  HeldTask.status a <> HeldTask.pending ->
  (HeldTask.ran id HeldTask.Completion (HeldTask.invoked r)
   + HeldTask.ran id HeldTask.Cancellation (HeldTask.invoked r) = 1)%nat
  /\ (HeldTask.status a <> HeldTask.completed ->
      HeldTask.ran id HeldTask.Cancellation (HeldTask.invoked r) = 1%nat
      /\ HeldTask.ran id HeldTask.Completion (HeldTask.invoked r) = 0%nat).
Proof.
  intros Hinv Ha Hs. pose proof (inv_counts r Hinv id a Ha) as Hc.
  destruct (HeldTask.status a); [congruence | |]; destruct Hc as [-> ->].
  - split; [lia | congruence].
  - split; [lia | auto].
Qed.

End HeldTaskFacts.

(** C2.  Take any history [evs0], a registration of a Held Action after
    it, and any events [evs1] after that: [complete] and [cancel] calls
    for any key, repeated or late, further registrations, time passing.
    - Its completion and cancellation operations have run at most once
      between them, and what ran is what was registered.
    - Once the clock has reached its deadline exactly one of the two has
      run, whatever follows; and if no [complete] or [cancel] named its
      key before, it is the cancellation that ran, once.
    - Once one of the two has run, no further event runs either again. *)
Theorem heldTask_exactly_one_side {Op : Type}
    (evs0 : list (HeldTask.event Op)) (k : string) (c x : Op) (timeout : Z)
    (evs1 : list (HeldTask.event Op)) :
  let id := length (HeldTask.actions (HeldTask.run evs0)) in
  let history := evs0 ++ HeldTask.EvRegister k c x timeout :: evs1 in
  let r := HeldTask.run history in
  (HeldTask.ran id HeldTask.Completion (HeldTask.invoked r)
   + HeldTask.ran id HeldTask.Cancellation (HeldTask.invoked r) <= 1)%nat
  /\ (forall w op, In (id, w, op) (HeldTask.invoked r) ->
        op = match w with HeldTask.Completion => c | HeldTask.Cancellation => x end)
  /\ (forall dt evs2,
        HeldTask.now (HeldTask.run evs0) + timeout <= HeldTask.now r + Z.max 0 dt ->
        let r' := HeldTask.run (history ++ HeldTask.EvAdvance dt :: evs2) in
        (HeldTask.ran id HeldTask.Completion (HeldTask.invoked r')
         + HeldTask.ran id HeldTask.Cancellation (HeldTask.invoked r') = 1)%nat
        /\ (HeldTask.undecided k evs1 ->
            HeldTask.ran id HeldTask.Cancellation (HeldTask.invoked r') = 1%nat
            /\ HeldTask.ran id HeldTask.Completion (HeldTask.invoked r') = 0%nat))
  /\ (forall e w,
        (HeldTask.ran id HeldTask.Completion (HeldTask.invoked r)
         + HeldTask.ran id HeldTask.Cancellation (HeldTask.invoked r) = 1)%nat ->
        HeldTask.ran id w (HeldTask.invoked (HeldTask.step r e))
        = HeldTask.ran id w (HeldTask.invoked r)).
Proof.
  intros id history r.
  set (r0 := HeldTask.run evs0) in *.
  set (r1 := HeldTask.addHeldTask k c x timeout r0).
  set (a1 := {| HeldTask.key := k; HeldTask.completionOp := c;
                HeldTask.cancellationOp := x;
                HeldTask.deadline := HeldTask.now r0 + timeout;
                HeldTask.status := HeldTask.pending |}).
  assert (Hr : r = fold_left HeldTask.step evs1 r1).
  { subst r history. now rewrite held_run_app. }
  assert (Ha1 : HeldTask.actions r1 !! id = Some a1).
  { subst r1 id. cbn. now apply list_lookup_middle. }
  assert (Hinv1 : held_inv r1) by apply addHeldTask_inv, run_inv.
  assert (Hinv : held_inv r) by (rewrite Hr; now apply steps_inv).
  destruct (steps_extends evs1 r1) as (_ & Hact & _).
  destruct (Hact _ _ Ha1) as (a & Ha & [(Hkey & Hc & Hx & Hd) _]).
  rewrite <- Hr in Ha. cbn in Hkey, Hc, Hx, Hd.
  split; [| split; [| split]].
  - pose proof (inv_counts r Hinv id a Ha) as Hcount.
    destruct (HeldTask.status a); destruct Hcount as [-> ->]; lia.
  - intros w op Hin. destruct (inv_invoked r Hinv _ _ _ Hin) as (a' & Ha' & ->).
    assert (a' = a) by congruence. subst a'. now destruct w.
  - intros dt evs2 Hdue r'.
    assert (Hr' : r' = fold_left HeldTask.step evs2 (HeldTask.advance dt r)).
    { subst r' r. now rewrite held_run_app. }
    destruct (advance_extends dt r) as (_ & Hact2 & _).
    destruct (Hact2 _ _ Ha) as (a2 & Ha2 & _).
    assert (Hs2 : HeldTask.status a2 <> HeldTask.pending).
    { apply (advance_settles dt r id a a2); auto. lia. }
    destruct (steps_extends evs2 (HeldTask.advance dt r)) as (_ & Hact3 & _).
    destruct (Hact3 _ _ Ha2) as (a3 & Ha3 & [_ Hfix]).
    rewrite (Hfix Hs2) in Ha3. rewrite <- Hr' in Ha3.
    assert (Hinv' : held_inv r').
    { rewrite Hr'. now apply steps_inv, advance_inv. }
    destruct (settled_counts r' id a2 Hinv' Ha3 Hs2) as [Hone Hcancel].
    split; [exact Hone |]. intros Hund. apply Hcancel.
    apply (step_not_completed r (HeldTask.EvAdvance dt) id a a2); auto.
    rewrite Hr in Ha.
    apply (steps_not_completed evs1 r1 id a1 a); auto; discriminate.
  - intros e w Hone.
    assert (Hs : HeldTask.status a <> HeldTask.pending).
    { intros Hp. pose proof (inv_counts r Hinv id a Ha) as Hcount.
      rewrite Hp in Hcount. lia. }
    destruct (step_extends r e) as (_ & Hact2 & _).
    destruct (Hact2 _ _ Ha) as (a2 & Ha2 & [_ Hfix]). rewrite (Hfix Hs) in Ha2.
    pose proof (inv_counts r Hinv id a Ha) as Hcount.
    pose proof (inv_counts _ (step_inv r e Hinv) id a Ha2) as Hcount'.
    destruct (HeldTask.status a); [congruence | |];
      destruct Hcount as [E1 E2], Hcount' as [E1' E2']; destruct w; congruence.
Qed.

(** ** GoogleAPI: running a task body *)

Section TaskFacts.
Context `{GoogleAPI.Spreadsheets}.
Import GoogleAPI.

Ltac async_unfold :=
  unfold runTask, gameRequestFundTask, gameRequestAddTask, cheerTask,
    bidwarContributeTask, bidwarAddEntryTask, bidwarAddFundsTask, completeFunding,
    getGameRequestSpreadsheet, getBidwarSpreadsheet, pushGameRequests, pushBidwar,
    mutateObject, withObject, updateChannelPointRedemption, chat, consoleLog,
    resolve, emit, modify, tryCatch, bind, ret, awaitSheets, remoteCall.

Lemma chats_app (l l' : list effect) : chats (l ++ l') = chats l ++ chats l'.
Proof. unfold chats. now rewrite flat_map_app. Qed.

(** One call of the bot's [chat] is one [super.chat] call to the same
    recipient and no remote access. *)
Lemma chats_of_chat recipient message :
  chats (map Bot (TwitchBot.chat recipient message))
  = [(recipient,
      if (500 <? String.length message)%nat then TwitchBot.tooLongNotice
      else message)].
Proof.
  unfold TwitchBot.chat, TwitchBot.maxChatMessageLength.
  now destruct (500 <? String.length message)%nat.
Qed.

Lemma chat_no_push recipient message :
  Forall (fun e => isRemoteAccess e = false)
    (map Bot (TwitchBot.chat recipient message)).
Proof.
  unfold TwitchBot.chat.
  destruct (_ <? _)%nat; repeat constructor.
Qed.

(** Projections of updated worlds. *)
Ltac world_simpl :=
  cbn [remoteGameRequests remoteBidwar faults objects googleSheets taskQueue
       futures heldTasksByUserId awaitingOutcome trace
       set_remoteGameRequests set_remoteBidwar set_faults set_objects
       set_googleSheets set_taskQueue set_futures set_heldTasksByUserId
       set_awaitingOutcome set_trace].

(** One chat message went out. *)
Ltac told :=
  eexists; rewrite ?chats_app, ?chats_of_chat; reflexivity.

(** No effect of the list is a remote write. *)
Ltac no_push :=
  repeat (apply Forall_app; split);
  try (eapply Forall_impl; [apply chat_no_push | now intros []]);
  repeat constructor.

Lemma since_app w w' l : trace w' = trace w ++ l -> since w w' = l.
Proof. intros Ht. unfold since. rewrite Ht. apply drop_app_length. Qed.

(** C9.  The task of [handleCheer] for a cheer that is anonymous, or has
    no [user_id], or no [user_name], returns after resolving its future
    and nothing else: no remote call is made (no read, no write, the
    [faults] are untouched), the trace is as before, and both sub-sheets
    of the remote document are unchanged. *)
Theorem anonymous_cheer_leaves_ledger_alone
    (w : World) (future : nat) (event : Cheer) (subscription : Subscription) :
  is_anonymous event = true \/ cheer_user_id event = None
    \/ cheer_user_name event = None ->
  runTask (CheerTask future event subscription) w
  = (Returned tt, set_futures (alter (Future.resolve Void) future (futures w)) w)
  /\ trace (snd (runTask (CheerTask future event subscription) w)) = trace w
  /\ faults (snd (runTask (CheerTask future event subscription) w)) = faults w
  /\ remoteBidwar (snd (runTask (CheerTask future event subscription) w))
     = remoteBidwar w
  /\ remoteGameRequests (snd (runTask (CheerTask future event subscription) w))
     = remoteGameRequests w.
Proof.
  intros Hcase.
  assert (Hrun : runTask (CheerTask future event subscription) w
                 = (Returned tt,
                    set_futures (alter (Future.resolve Void) future (futures w)) w)).
  { cbn. unfold cheerTask.
    destruct (is_anonymous event), (cheer_user_id event), (cheer_user_name event);
      try reflexivity.
    destruct Hcase as [? | [? | ?]]; discriminate. }
  rewrite Hrun. auto.
Qed.

(** C6.  The three ways a game-request task gives up.
    - [handleGameRequestFund], the game has no entry in the sheet read;
    - [handleGameRequestAdd], the read of the sheet fails;
    - [handleGameRequestAdd], the game already has an entry.
    Each time the user is told in chat, nothing is written to the remote
    document, and the future is settled; for [handleGameRequestFund] the
    outcome is [Unfulfilled]. *)
Theorem game_request_refusals_notify_without_writing
    (w : World) (sheets : Sheets) (future : nat) (respondTo gameName username : string)
    (gameLengthHours : Z) (toActivate : option Z) (points : Z) (timestamp : Date) :
  googleSheets w = Future.Settled sheets ->
  futures w !! future = Some Future.Pending ->
  (hd None (faults w) = None ->
   findEntry (remoteGameRequests w) gameName = None ->
   refused w (GameRequestFund future respondTo gameName username points timestamp)
     respondTo
     (Outcome {| type := Unfulfilled; overfundAmount := None; complete := None |}))
  /\ (forall err, hd None (faults w) = Some err ->
      refused w
        (GameRequestAdd future respondTo gameName gameLengthHours toActivate
           username points timestamp)
        respondTo Void)
  /\ (forall existingEntry,
      hd None (faults w) = None ->
      findEntry (remoteGameRequests w) gameName = Some existingEntry ->
      refused w
        (GameRequestAdd future respondTo gameName gameLengthHours toActivate
           username points timestamp)
        respondTo Void).
Proof.
  intros Hs Hp. unfold refused, settledWith. split; [| split].
  - intros Hf He. async_unfold. cbn. rewrite Hs. cbn. rewrite Hf. cbn.
    rewrite list_lookup_middle by reflexivity. rewrite He. cbn.
    rewrite list_lookup_alter_eq, Hp. cbn.
    erewrite since_app by (cbn; rewrite <- app_assoc; reflexivity).
    split_and!; auto; [told | no_push].
  - intros err Hf. async_unfold. cbn. rewrite Hs. cbn. rewrite Hf. cbn.
    rewrite list_lookup_alter_eq, Hp. cbn.
    erewrite since_app by (cbn; rewrite <- app_assoc; reflexivity).
    split_and!; auto; [told | no_push].
  - intros e Hf He. async_unfold. cbn. rewrite Hs. cbn. rewrite Hf. cbn.
    rewrite list_lookup_middle by reflexivity. rewrite He. cbn.
    rewrite list_lookup_alter_eq, Hp. cbn.
    erewrite since_app by (cbn; rewrite <- app_assoc; reflexivity).
    split_and!; auto; [told | no_push].
Qed.

(** The world after a [GameRequestFund] task found its entry and stopped
    at the confirmation: the sheet was read, the future is settled. *)
Lemma fund_pending_run w sheets future respondTo gameName username points timestamp e :
  googleSheets w = Future.Settled sheets ->
  hd None (faults w) = None ->
  findEntry (remoteGameRequests w) gameName = Some e ->
  ((pointsContributed e <=? pointsToActivate e)
   && (pointsContributed e + points >? pointsToActivate e))%Z = true ->
  runTask (GameRequestFund future respondTo gameName username points timestamp) w
  = (Returned tt,
     set_futures
       (alter
          (Future.resolve
             (Outcome
                {| type := PendingConfirmation;
                   overfundAmount :=
                     Some (pointsContributed e + points - pointsToActivate e);
                   complete :=
                     Some (fundingOf w respondTo gameName username points timestamp) |}))
          future (futures w))
       (set_objects (objects w ++ [remoteGameRequests w])
          (set_trace (trace w ++ [Read sheets incentiveSheetId gameRequestSubSheet])
             (set_faults (tl (faults w)) w)))).
Proof.
  intros Hs Hf He Hb. async_unfold. cbn. rewrite Hs. cbn. rewrite Hf. cbn.
  rewrite list_lookup_middle by reflexivity. rewrite He. cbn. rewrite Hb.
  reflexivity.
Qed.

(** The funding operation, run where its sheet object holds [sheet] and
    the remote write succeeds. *)
Lemma completeFunding_run w sheets c sheet :
  googleSheets w = Future.Settled sheets ->
  hd None (faults w) = None ->
  objects w !! cf_sheet c = Some sheet ->
  exists w',
    completeFunding c w = (Returned tt, w')
    /\ remoteGameRequests w'
       = addPointsToEntry sheet (cf_username c) (cf_gameName c) (cf_points c)
           (cf_timestamp c)
    /\ objects w' !! cf_sheet c = Some (remoteGameRequests w')
    /\ futures w' = futures w
    /\ googleSheets w' = googleSheets w
    /\ faults w' = tl (faults w)
    /\ exists message,
         trace w' = trace w ++ Push sheets incentiveSheetId gameRequestSubSheet
                                 :: map Bot (TwitchBot.chat (cf_respondTo c) message).
Proof.
  intros Hs Hf Ho. async_unfold. cbn. rewrite Ho. cbn. rewrite Hs. cbn.
  rewrite list_lookup_insert_eq by eauto using lookup_lt_Some. cbn.
  rewrite Hf. cbn. eexists. split; [reflexivity |]. cbn.
  rewrite list_lookup_insert_eq by eauto using lookup_lt_Some.
  split_and!; auto. eexists. rewrite <- app_assoc. reflexivity.
Qed.

(** The funding operation fails on a rejected remote write, after it
    updated its sheet object. *)
Lemma completeFunding_fails w sheets c sheet err :
  googleSheets w = Future.Settled sheets ->
  hd None (faults w) = Some err ->
  objects w !! cf_sheet c = Some sheet ->
  completeFunding c w
  = (Thrown err,
     set_faults (tl (faults w))
       (set_objects
          (<[cf_sheet c := addPointsToEntry sheet (cf_username c) (cf_gameName c)
                             (cf_points c) (cf_timestamp c)]> (objects w)) w)).
Proof.
  intros Hs Hf Ho. async_unfold. cbn. rewrite Ho. cbn. rewrite Hs. cbn.
  rewrite list_lookup_insert_eq by eauto using lookup_lt_Some. cbn.
  rewrite Hf. reflexivity.
Qed.

(** A [GameRequestFund] task that found its entry and does not stop at
    the confirmation is the funding operation followed by
    [future.resolve({ type: Fulfilled })]. *)
Lemma fund_direct_run w sheets future respondTo gameName username points timestamp e :
  googleSheets w = Future.Settled sheets ->
  hd None (faults w) = None ->
  findEntry (remoteGameRequests w) gameName = Some e ->
  ((pointsContributed e <=? pointsToActivate e)
   && (pointsContributed e + points >? pointsToActivate e))%Z = false ->
  runTask (GameRequestFund future respondTo gameName username points timestamp) w
  = bind (completeFunding (fundingOf w respondTo gameName username points timestamp))
      (fun _ => resolve future (Outcome fulfilled))
      (set_objects (objects w ++ [remoteGameRequests w])
         (set_trace (trace w ++ [Read sheets incentiveSheetId gameRequestSubSheet])
            (set_faults (tl (faults w)) w))).
Proof.
  intros Hs Hf He Hb.
  unfold runTask, gameRequestFundTask, getGameRequestSpreadsheet.
  unfold bind at 1. unfold awaitSheets at 1. rewrite Hs. cbn [Future.get].
  unfold bind at 1. unfold bind at 1. unfold remoteCall at 1. rewrite Hf.
  unfold bind at 1. cbn [emit modify].
  unfold withObject at 1. world_simpl.
  rewrite list_lookup_middle by reflexivity. rewrite He. cbn zeta. rewrite Hb.
  reflexivity.
Qed.

(** What the direct path leaves behind, by the fate of the remote write. *)
Lemma fund_direct_result w sheets future respondTo gameName username points timestamp e :
  googleSheets w = Future.Settled sheets ->
  hd None (faults w) = None ->
  findEntry (remoteGameRequests w) gameName = Some e ->
  futures w !! future = Some Future.Pending ->
  ((pointsContributed e <=? pointsToActivate e)
   && (pointsContributed e + points >? pointsToActivate e))%Z = false ->
  let run :=
    runTask (GameRequestFund future respondTo gameName username points timestamp) w in
  let funded :=
    addPointsToEntry (remoteGameRequests w) username gameName points timestamp in
  objects (snd run) !! length (objects w) = Some funded
  /\ match hd None (tl (faults w)) with
     | None =>
         fst run = Returned tt
         /\ futures (snd run) !! future = Some (Future.Settled (Outcome fulfilled))
         /\ remoteGameRequests (snd run) = funded
     | Some err =>
         fst run = Thrown err
         /\ futures (snd run) = futures w
         /\ remoteGameRequests (snd run) = remoteGameRequests w
     end.
Proof.
  intros Hs Hf He Hp Hb run funded. subst run.
  rewrite (fund_direct_run w sheets _ _ _ _ _ _ e Hs Hf He Hb).
  set (w1 := set_objects _ _).
  assert (Ho : objects w1 !! cf_sheet (fundingOf w respondTo gameName username
                                         points timestamp)
               = Some (remoteGameRequests w)).
  { subst w1. cbn. now apply list_lookup_middle. }
  assert (Hs1 : googleSheets w1 = Future.Settled sheets) by exact Hs.
  unfold bind.
  destruct (hd None (tl (faults w))) as [err |] eqn:Hf2.
  - rewrite (completeFunding_fails w1 sheets _ _ err Hs1 Hf2 Ho). cbn.
    split; [| auto].
    rewrite list_lookup_insert_eq; [reflexivity |].
    rewrite length_app. cbn. lia.
  - destruct (completeFunding_run w1 sheets _ _ Hs1 Hf2 Ho)
      as (w2 & Hrun & Hremote & Hobj & Hfut & _).
    rewrite Hrun. cbn in *. rewrite Hobj, Hremote. split; [reflexivity |].
    split; [reflexivity |]. split; [| reflexivity].
    now rewrite Hfut, list_lookup_alter_eq, Hp.
Qed.

(** C1, amended.  A [GameRequestFund] task that read the sheet and found
    the entry:
    - if the entry is not overfunded yet and the points would overfund it,
      the outcome is [PendingConfirmation] with [overfundAmount] the
      excess and [complete] the funding operation; nothing has been
      written, and running [complete] (its remote write succeeding)
      is what puts the points into the remote sheet;
    - in every other case the points are applied at once and, the remote
      write succeeding, the outcome is [Fulfilled]. *)
Theorem fund_outcome_by_crossing
    (w : World) (sheets : Sheets) (future : nat) (respondTo gameName username : string)
    (points : Z) (timestamp : Date) (existingEntry : GameRequestEntry) :
  googleSheets w = Future.Settled sheets ->
  hd None (faults w) = None ->
  findEntry (remoteGameRequests w) gameName = Some existingEntry ->
  futures w !! future = Some Future.Pending ->
  let run :=
    runTask (GameRequestFund future respondTo gameName username points timestamp) w in
  let funding := fundingOf w respondTo gameName username points timestamp in
  let funded :=
    addPointsToEntry (remoteGameRequests w) username gameName points timestamp in
  if ((pointsContributed existingEntry <=? pointsToActivate existingEntry)
      && (pointsContributed existingEntry + points >? pointsToActivate existingEntry))%Z
  then
    fst run = Returned tt
    /\ settledWith (snd run) future
       = Some (Outcome
                 {| type := PendingConfirmation;
                    overfundAmount :=
                      Some (pointsContributed existingEntry + points
                            - pointsToActivate existingEntry);
                    complete := Some funding |})
    /\ remoteGameRequests (snd run) = remoteGameRequests w
    /\ Forall (fun e => isPush e = false) (since w (snd run))
    /\ (hd None (faults (snd run)) = None ->
        remoteGameRequests (snd (completeFunding funding (snd run))) = funded)
  else
    hd None (tl (faults w)) = None ->
    fst run = Returned tt
    /\ settledWith (snd run) future = Some (Outcome fulfilled)
    /\ remoteGameRequests (snd run) = funded.
Proof.
  intros Hs Hf He Hp run funding funded.
  destruct ((_ <=? _)%Z && _) eqn:Hb.
  - subst run.
    rewrite (fund_pending_run w sheets _ _ _ _ _ _ existingEntry Hs Hf He Hb).
    unfold settledWith. cbn. rewrite list_lookup_alter_eq, Hp. cbn.
    erewrite since_app by reflexivity.
    split_and!; [reflexivity | reflexivity | reflexivity | no_push |].
    intros Hf2.
    match goal with
    | |- remoteGameRequests (snd (completeFunding _ ?w1)) = _ =>
        destruct (completeFunding_run w1 sheets funding (remoteGameRequests w))
          as (w2 & Hrun & Hremote & _);
        [exact Hs | exact Hf2 | cbn; now apply list_lookup_middle |]
    end.
    now rewrite Hrun.
  - intros Hf2.
    destruct (fund_direct_result w sheets future respondTo gameName username
                points timestamp existingEntry Hs Hf He Hp Hb) as [_ Hres].
    rewrite Hf2 in Hres. destruct Hres as (Hret & Hfut & Hremote).
    unfold settledWith. subst run. now rewrite Hfut.
Qed.

(** C8.  A [GameRequestFund] task that read the sheet and found the
    entry.
    - If the entry is already overfunded, a positive contribution is
      applied to the sheet and written without any confirmation: the
      outcome is never [PendingConfirmation], it carries no pending
      operation, and with the remote write succeeding it is [Fulfilled].
    - The outcome [PendingConfirmation] is reached only by a contribution
      that takes the entry from not overfunded to overfunded. *)
Theorem overfunded_entry_funded_without_confirmation
    (w : World) (sheets : Sheets) (future : nat) (respondTo gameName username : string)
    (points : Z) (timestamp : Date) (existingEntry : GameRequestEntry) :
  googleSheets w = Future.Settled sheets ->
  hd None (faults w) = None ->
  findEntry (remoteGameRequests w) gameName = Some existingEntry ->
  futures w !! future = Some Future.Pending ->
  let run :=
    runTask (GameRequestFund future respondTo gameName username points timestamp) w in
  let funded :=
    addPointsToEntry (remoteGameRequests w) username gameName points timestamp in
  (pointsToActivate existingEntry < pointsContributed existingEntry ->
   0 < points ->
   (forall o, settledWith (snd run) future = Some (Outcome o) -> o = fulfilled)
   /\ objects (snd run) !! length (objects w) = Some funded
   /\ (hd None (tl (faults w)) = None ->
       fst run = Returned tt
       /\ settledWith (snd run) future = Some (Outcome fulfilled)
       /\ remoteGameRequests (snd run) = funded))
  /\ (forall o,
        settledWith (snd run) future = Some (Outcome o) ->
        type o = PendingConfirmation ->
        pointsContributed existingEntry <= pointsToActivate existingEntry
        /\ pointsToActivate existingEntry < pointsContributed existingEntry + points).
Proof.
  intros Hs Hf He Hp run funded.
  assert (Hdirect :
    ((pointsContributed existingEntry <=? pointsToActivate existingEntry)
     && (pointsContributed existingEntry + points >? pointsToActivate existingEntry))%Z
    = false ->
    (forall o, settledWith (snd run) future = Some (Outcome o) -> o = fulfilled)
    /\ objects (snd run) !! length (objects w) = Some funded
    /\ (hd None (tl (faults w)) = None ->
        fst run = Returned tt
        /\ settledWith (snd run) future = Some (Outcome fulfilled)
        /\ remoteGameRequests (snd run) = funded)).
  { intros Hb.
    destruct (fund_direct_result w sheets future respondTo gameName username
                points timestamp existingEntry Hs Hf He Hp Hb) as [Hobj Hres].
    fold run in Hobj, Hres. unfold settledWith.
    destruct (hd None (tl (faults w))) as [err |].
    - destruct Hres as (_ & Hfut & _). rewrite Hfut, Hp.
      split; [discriminate | split; [exact Hobj | discriminate]].
    - destruct Hres as (Hret & Hfut & Hremote). rewrite Hfut.
      split; [now intros o [= <-] | auto]. }
  split.
  - intros Hover Hpos. apply Hdirect.
    apply andb_false_iff. left. apply Z.leb_gt. lia.
  - intros o Ho Htype.
    destruct ((_ <=? _)%Z && _) eqn:Hb.
    + apply andb_true_iff in Hb as [Hle Hgt].
      apply Z.leb_le in Hle. apply Z.gtb_lt in Hgt. lia.
    + destruct (Hdirect eq_refl) as [Hful _].
      rewrite (Hful o Ho) in Htype. discriminate.
Qed.

(** *** [handleGameRequestRedeem] after the outcome *)

(** On a [PendingConfirmation] outcome that carries its funding operation,
    [handleGameRequestRedeem] asks in chat and registers one held task
    under the redeeming user's id, for one minute: completing it runs
    the funding operation, cancelling it refunds the points. *)
Lemma redeem_registers_heldTask event outcome c (w : World) :
  type outcome = PendingConfirmation ->
  complete outcome = Some c ->
  fst (redeemResume event outcome w) = Returned tt
  /\ heldTasksByUserId (snd (redeemResume event outcome w))
     = HeldTask.addHeldTask (user_id event) (RedeemComplete c event)
         (RedeemCancel event) 60000 (heldTasksByUserId w)
  /\ (exists message,
        chats (since w (snd (redeemResume event outcome w)))
        = [("#" ++ broadcaster_user_name event, message)]%string)
  /\ remoteGameRequests (snd (redeemResume event outcome w)) = remoteGameRequests w.
Proof.
  intros Ht Hc. unfold redeemResume. rewrite Ht, Hc.
  async_unfold. cbn. erewrite since_app by reflexivity.
  split_and!; auto. told.
Qed.

(** On a [Fulfilled] outcome it only marks the redemption fulfilled: no
    question is asked and no held task is registered. *)
Lemma redeem_fulfilled_no_confirmation event (w : World) :
  heldTasksByUserId (snd (redeemResume event fulfilled w)) = heldTasksByUserId w
  /\ chats (since w (snd (redeemResume event fulfilled w))) = [].
Proof.
  unfold redeemResume. async_unfold. cbn.
  destruct (hd None (faults w)); cbn.
  - split; [reflexivity |]. unfold since. cbn. now rewrite drop_all.
  - erewrite since_app by reflexivity. auto.
Qed.

(** *** Suspension and the client handle *)

Ltac world_simpl_all :=
  cbn [remoteGameRequests remoteBidwar faults objects googleSheets taskQueue
       futures heldTasksByUserId awaitingOutcome trace
       set_remoteGameRequests set_remoteBidwar set_faults set_objects
       set_googleSheets set_taskQueue set_futures set_heldTasksByUserId
       set_awaitingOutcome set_trace Future.get fst snd] in *.

(** Every path through a body, with [googleSheets w] known as [Hs]. *)
Ltac all_paths Hs :=
  repeat (case_match; world_simpl_all; rewrite ?Hs in *; world_simpl_all;
          try discriminate; simplify_eq);
  world_simpl_all; rewrite ?Hs in *; world_simpl_all;
  try discriminate; simplify_eq.

(** A task body stays suspended only on a pending [googleSheets], and
    then it has not touched anything yet. *)
Lemma suspended_untouched (t : Task) (w w' : World) :
  runTask t w = (Suspended, w') -> w' = w /\ googleSheets w = Future.Pending.
Proof.
  destruct t; async_unfold; world_simpl_all.
  all: destruct (googleSheets w) eqn:Hs; world_simpl_all.
  all: try (intros [= <-]; auto; fail).
  all: all_paths Hs.
  all: try (intros [= <-]; auto; fail).
Qed.

Lemma Forall_bot (P : effect -> Prop) (l : list TwitchBot.output) :
  (forall o, P (Bot o)) -> Forall P (map Bot l).
Proof. intros HP. induction l; constructor; auto. Qed.

Ltac handles :=
  unfold oneHandle in *; world_simpl_all;
  repeat rewrite Forall_app; split_and?;
  try assumption; try reflexivity;
  try (apply Forall_bot; intros ? ? [=]);
  try (repeat constructor; cbn; intros ? [= <-]; assumption).

(** A task body reads and writes through the handle [googleSheets] is
    settled with, and leaves [googleSheets] alone. *)
Lemma runTask_oneHandle (t : Task) (w : World) :
  oneHandle w ->
  oneHandle (snd (runTask t w))
  /\ googleSheets (snd (runTask t w)) = googleSheets w.
Proof.
  intros HJ.
  destruct t; async_unfold; world_simpl_all.
  all: destruct (googleSheets w) eqn:Hs; world_simpl_all.
  all: all_paths Hs.
  all: split; [| try assumption; reflexivity].
  all: handles.
Qed.

Lemma runHeldOp_oneHandle (op : HeldOp) (w : World) :
  oneHandle w ->
  oneHandle (snd (runHeldOp op w))
  /\ googleSheets (snd (runHeldOp op w)) = googleSheets w.
Proof.
  intros HJ.
  destruct op; unfold runHeldOp; async_unfold; world_simpl_all.
  all: destruct (googleSheets w) eqn:Hs; world_simpl_all.
  all: all_paths Hs.
  all: split; [| try assumption; reflexivity].
  all: handles.
Qed.

Lemma redeemResume_oneHandle event outcome (w : World) :
  oneHandle w ->
  oneHandle (snd (redeemResume event outcome w))
  /\ googleSheets (snd (redeemResume event outcome w)) = googleSheets w.
Proof.
  intros HJ.
  unfold redeemResume; async_unfold; world_simpl_all.
  destruct (googleSheets w) eqn:Hs; world_simpl_all.
  all: all_paths Hs.
  all: split; [| try assumption; reflexivity].
  all: handles.
Qed.

Lemma wake_oneHandle waiting (w : World) :
  oneHandle w ->
  oneHandle (snd (wake waiting w))
  /\ googleSheets (snd (wake waiting w)) = googleSheets w.
Proof.
  revert w. induction waiting as [| [future event] rest IH]; intros w HJ; cbn.
  - auto.
  - destruct (futures w !! future) as [[| [| outcome]] |].
    1, 2, 4: destruct (IH w HJ) as [IH1 IH2];
      destruct (wake rest w) as [still w1]; auto.
    destruct (redeemResume_oneHandle event outcome w HJ) as [HJ1 Hs1].
    destruct (IH _ HJ1) as [IH1 IH2]. split; [exact IH1 | congruence].
Qed.

Lemma wakeAll_oneHandle (w : World) :
  oneHandle w -> oneHandle (wakeAll w) /\ googleSheets (wakeAll w) = googleSheets w.
Proof.
  intros HJ. unfold wakeAll.
  destruct (wake_oneHandle (awaitingOutcome w) w HJ) as [HJ1 Hs1].
  destruct (wake (awaitingOutcome w) w) as [still w1]. cbn in *. auto.
Qed.

Lemma finishTask_oneHandle (w : World) :
  oneHandle w -> oneHandle (finishTask w) /\ googleSheets (finishTask w) = googleSheets w.
Proof.
  intros HJ. unfold finishTask.
  destruct (TaskQueue.executing (taskQueue w)) as [| t rest]; [auto |].
  change ((emit [TaskBegins] ;; runTask t)%async w)
    with (runTask t (set_trace (trace w ++ [TaskBegins]) w)).
  assert (HJ0 : oneHandle (set_trace (trace w ++ [TaskBegins]) w)) by handles.
  destruct (runTask_oneHandle t _ HJ0) as [HJ1 Hs1].
  destruct (runTask t (set_trace (trace w ++ [TaskBegins]) w)) as [[[] | err |] w1];
    cbn [fst snd] in *; [| | auto].
  all: match goal with
       | |- oneHandle (wakeAll ?w2) /\ _ =>
           assert (HJ2 : oneHandle w2) by handles;
           destruct (wakeAll_oneHandle w2 HJ2) as [HJ3 Hs3];
           split; [exact HJ3 | rewrite Hs3; exact Hs1]
       end.
Qed.

Lemma runInvoked_oneHandle before after (w : World) :
  oneHandle w ->
  oneHandle (runInvoked before after w)
  /\ googleSheets (runInvoked before after w) = googleSheets w.
Proof.
  intros HJ. unfold runInvoked.
  generalize (drop (length (HeldTask.invoked before)) (HeldTask.invoked after)).
  intros ops.
  assert (HJ0 : oneHandle (set_heldTasksByUserId after w)) by exact HJ.
  change (googleSheets w) with (googleSheets (set_heldTasksByUserId after w)).
  revert HJ0. generalize (set_heldTasksByUserId after w). clear w HJ.
  induction ops as [| x ops IH]; intros w HJ; cbn; [auto |].
  destruct (runHeldOp_oneHandle (snd x) w HJ) as [HJ1 Hs1].
  destruct (IH _ HJ1) as [IH1 IH2]. split; [exact IH1 | congruence].
Qed.

Lemma startup_oneHandle sheets (w : World) :
  oneHandle w -> oneHandle (snd (startup sheets w)).
Proof.
  unfold oneHandle. cbn. intros HJ.
  destruct (googleSheets w) eqn:Hs; cbn; [| exact HJ].
  eapply Forall_impl; [exact HJ |]. cbn. intros e He h Hh.
  specialize (He h Hh). discriminate.
Qed.

Lemma perform_oneHandle (c : call) (w : World) :
  oneHandle w -> oneHandle (perform w c).
Proof.
  intros HJ. destruct c; cbn [perform];
    try exact HJ;
    auto using startup_oneHandle;
    try (apply finishTask_oneHandle; exact HJ);
    try (apply runInvoked_oneHandle; exact HJ).
Qed.

(** Whatever happens to a new instance, every remote read and write so
    far used the handle [googleSheets] is settled with. *)
Lemma history_oneHandle (calls : list call) gameRequests bidwar fs :
  oneHandle (history calls (initial gameRequests bidwar fs)).
Proof.
  unfold history.
  assert (HJ : oneHandle (initial gameRequests bidwar fs)) by constructor.
  revert HJ. generalize (initial gameRequests bidwar fs).
  induction calls as [| c calls IH]; intros w HJ; cbn; auto using perform_oneHandle.
Qed.

(** Only [startup] settles [googleSheets]. *)
Lemma perform_googleSheets (c : call) (w : World) :
  oneHandle w ->
  googleSheets (perform w c)
  = match c with
    | Startup sheets => Future.resolve sheets (googleSheets w)
    | _ => googleSheets w
    end.
Proof.
  intros HJ. destruct c; cbn [perform]; try reflexivity.
  - now apply finishTask_oneHandle.
  - now apply runInvoked_oneHandle.
  - now apply runInvoked_oneHandle.
  - now apply runInvoked_oneHandle.
Qed.

Lemma history_googleSheets (calls : list call) gameRequests bidwar fs :
  googleSheets (history calls (initial gameRequests bidwar fs))
  = match firstStartup calls with
    | Some sheets => Future.Settled sheets
    | None => Future.Pending
    end.
Proof.
  unfold history.
  assert (HJ : oneHandle (initial gameRequests bidwar fs)) by constructor.
  assert (Hgen : forall w, oneHandle w ->
            googleSheets (fold_left perform calls w)
            = match googleSheets w with
              | Future.Settled sheets => Future.Settled sheets
              | Future.Pending =>
                  match firstStartup calls with
                  | Some sheets => Future.Settled sheets
                  | None => Future.Pending
                  end
              end).
  { clear HJ. induction calls as [| c calls IH]; intros w HJ.
    - cbn. now destruct (googleSheets w).
    - cbn [fold_left]. rewrite (IH _ (perform_oneHandle c w HJ)).
      rewrite (perform_googleSheets c w HJ).
      destruct c; cbn [firstStartup]; try reflexivity.
      now destruct (googleSheets w). }
  now rewrite (Hgen _ HJ).
Qed.

(** ** GoogleAPI: what the other task bodies leave behind *)

Lemma chats_map_bot (out : list TwitchBot.output) :
  chats (map Bot out) = TwitchBot.forwarded out.
Proof.
  unfold chats, TwitchBot.forwarded. induction out as [| [] out IH]; cbn; congruence.
Qed.

(** The effects a body added, read off the world it returns. *)
Ltac effects_since :=
  erewrite since_app by (world_simpl; rewrite <- ?app_assoc; cbn [app]; reflexivity).

(** X1.  The task of [handleGameRequestAdd] for a game that has no entry
    in the sheet it read: the entry is added to the sheet object; when
    the remote write is accepted the remote sheet is the one read plus
    the entry, the effects are the read, the write and the chat message,
    in this order, and the future is settled; when the write is rejected
    the task throws, the remote sheet is as before, nobody is told and
    the future is left pending. *)
Theorem game_request_add_writes_new_entry
    (w : World) (sheets : Sheets) (future : nat) (respondTo gameName : string)
    (gameLengthHours : Z) (toActivate : option Z) (username : string) (points : Z)
    (timestamp : Date) :
  googleSheets w = Future.Settled sheets ->
  futures w !! future = Some Future.Pending ->
  hd None (faults w) = None ->
  findEntry (remoteGameRequests w) gameName = None ->
  let run :=
    runTask (GameRequestAdd future respondTo gameName gameLengthHours toActivate
               username points timestamp) w in
  let added :=
    addEntry (remoteGameRequests w) gameName gameLengthHours toActivate username
      points timestamp in
  objects (snd run) !! length (objects w) = Some added
  /\ match hd None (tl (faults w)) with
     | None =>
         fst run = Returned tt
         /\ remoteGameRequests (snd run) = added
         /\ since w (snd run)
            = [Read sheets incentiveSheetId gameRequestSubSheet;
               Push sheets incentiveSheetId gameRequestSubSheet;
               Bot (TwitchBot.SuperChat respondTo "Game request successfully added.")]
         /\ settledWith (snd run) future = Some Void
     | Some err =>
         fst run = Thrown err
         /\ remoteGameRequests (snd run) = remoteGameRequests w
         /\ since w (snd run) = [Read sheets incentiveSheetId gameRequestSubSheet]
         /\ settledWith (snd run) future = None
     end.
Proof.
  intros Hs Hp Hf He run added. subst run added. unfold settledWith.
  async_unfold. cbn. rewrite Hs. cbn. rewrite Hf. cbn.
  rewrite list_lookup_middle by reflexivity. rewrite He. cbn.
  rewrite list_lookup_middle by reflexivity. cbn. rewrite Hs. cbn.
  rewrite list_lookup_insert_eq by (rewrite length_app; cbn; lia). cbn.
  destruct (hd None (tl (faults w))) as [err |]; cbn.
  - rewrite list_lookup_insert_eq by (rewrite length_app; cbn; lia).
    rewrite Hp. effects_since. auto.
  - rewrite list_lookup_insert_eq by (rewrite length_app; cbn; lia).
    rewrite list_lookup_alter_eq, Hp. cbn. effects_since. auto.
Qed.

(** X2.  The task of [handleCheer] for a cheer that names its user, the
    read and the write being accepted: the remote bidwar sheet becomes
    the sheet read with the bits added to the user's balance, dated by
    the subscription; the effects are the read and the write, nothing is
    said in chat and the game-request sheet is untouched. *)
Theorem named_cheer_banks_bits
    (w : World) (sheets : Sheets) (future : nat) (event : Cheer)
    (subscription : Subscription) (userId userName : string) :
  googleSheets w = Future.Settled sheets ->
  is_anonymous event = false ->
  cheer_user_id event = Some userId ->
  cheer_user_name event = Some userName ->
  hd None (faults w) = None ->
  hd None (tl (faults w)) = None ->
  let run := runTask (CheerTask future event subscription) w in
  fst run = Returned tt
  /\ remoteBidwar (snd run)
     = addBitsToUser (remoteBidwar w) userId userName (bits event)
         (newDate (created_at subscription)) None
  /\ since w (snd run)
     = [Read sheets incentiveSheetId bidwarSubSheet;
        Push sheets incentiveSheetId bidwarSubSheet]
  /\ remoteGameRequests (snd run) = remoteGameRequests w.
Proof.
  intros Hs Ha Hi Hn Hf Hf2 run. subst run.
  cbn [runTask]. unfold cheerTask. rewrite Ha, Hi, Hn.
  async_unfold. cbn. rewrite Hs. cbn. rewrite Hf. cbn. rewrite Hs. cbn.
  rewrite Hf2. cbn. effects_since. auto.
Qed.

(** X3.  The task of [handleBidwarContribute], the read being accepted.
    The message of the status, when it has one, is sent to chat first.
    A status that is not a success ends the task there: nothing is
    written and the remote bidwar sheet is as before.  On a success the
    sheet with the bits spent is written and, the write being accepted,
    the contribution is confirmed in chat; a rejected write makes the
    task throw after the status message went out. *)
Theorem bidwar_contribute_writes_only_on_success
    (w : World) (sheets : Sheets) (future : nat)
    (respondTo userId username gameName : string) (bits : Z) (timestamp : Date) :
  googleSheets w = Future.Settled sheets ->
  hd None (faults w) = None ->
  let run :=
    runTask (BidwarContribute future respondTo userId username gameName bits
               timestamp) w in
  let spent := spendBitsOnEntry (remoteBidwar w) userId username gameName bits timestamp in
  let said :=
    if truthy (message (fst spent))
    then map Bot (TwitchBot.chat respondTo (default "" (message (fst spent))))
    else [] in
  if success (fst spent)
  then
    match hd None (tl (faults w)) with
    | None =>
        fst run = Returned tt
        /\ remoteBidwar (snd run) = snd spent
        /\ since w (snd run)
           = Read sheets incentiveSheetId bidwarSubSheet :: said
             ++ Push sheets incentiveSheetId bidwarSubSheet
                :: map Bot (TwitchBot.chat respondTo
                              ("@" ++ username
                               ++ ", your bits were successfully contributed to "
                               ++ gameName ++ "."))
    | Some err =>
        fst run = Thrown err
        /\ remoteBidwar (snd run) = remoteBidwar w
        /\ since w (snd run) = Read sheets incentiveSheetId bidwarSubSheet :: said
    end
  else
    fst run = Returned tt
    /\ remoteBidwar (snd run) = remoteBidwar w
    /\ faults (snd run) = tl (faults w)
    /\ since w (snd run) = Read sheets incentiveSheetId bidwarSubSheet :: said.
Proof.
  intros Hs Hf run spent said. subst run said spent.
  cbn [runTask]. unfold bidwarContributeTask.
  async_unfold. cbn. rewrite Hs. cbn. rewrite Hf. cbn.
  destruct (spendBitsOnEntry _ _ _ _ _ _) as [status sheet]. cbn.
  destruct (truthy (message status)), (success status); cbn; rewrite ?Hs; cbn.
  all: try destruct (hd None (tl (faults w))); cbn.
  all: effects_since; rewrite ?app_nil_r; auto.
Qed.

(** X4.  The tasks of [handleBidwarAddEntry] and [handleBidwarAddFunds]
    never throw, in whatever world they run and whatever the remote
    calls answer: their whole body sits in a [try] whose handler only
    talks.  When the read of the sheet is rejected with [err], the task
    returns, the requester is told "Error adding entry.", [err] goes to
    the console, and nothing is read or written. *)
Theorem bidwar_admin_tasks_catch_every_error
    (w : World) (future : nat) (respondTo gameName userId username : string)
    (amount : Z) (source : option string) (timestamp : Date) (t : Task) :
  t = BidwarAddEntry future respondTo gameName
  \/ t = BidwarAddFunds future respondTo userId username amount source timestamp ->
  (forall err, fst (runTask t w) <> Thrown err)
  /\ (forall sheets err,
        googleSheets w = Future.Settled sheets ->
        hd None (faults w) = Some err ->
        fst (runTask t w) = Returned tt
        /\ since w (snd (runTask t w))
           = [Bot (TwitchBot.SuperChat respondTo "Error adding entry.");
              Bot (TwitchBot.ConsoleLog err)]
        /\ faults (snd (runTask t w)) = tl (faults w)
        /\ remoteBidwar (snd (runTask t w)) = remoteBidwar w).
Proof.
  intros Ht. split.
  - intros err. destruct Ht as [-> | ->].
    all: async_unfold; world_simpl_all.
    all: destruct (googleSheets w) eqn:Hs; world_simpl_all; try discriminate.
    all: all_paths Hs; discriminate.
  - intros sheets err Hs Hf. destruct Ht as [-> | ->].
    all: async_unfold; cbn; rewrite Hs; cbn; rewrite Hf; cbn.
    all: effects_since; auto.
Qed.

(** X5.  The task of [handleBidwarAddEntry], the read being accepted.
    The task stops without writing only on a status that is not a
    success and has a message, which is sent to chat.  Every other
    status, a failure without message included, has the sheet written:
    when the write is accepted the remote bidwar sheet is the one
    [addEntry] left and the entry is reported as added; when it is
    rejected the requester is told "Error adding entry.". *)
Theorem bidwar_add_entry_stops_only_on_refusal_with_message
    (w : World) (sheets : Sheets) (future : nat) (respondTo gameName : string) :
  googleSheets w = Future.Settled sheets ->
  hd None (faults w) = None ->
  let run := runTask (BidwarAddEntry future respondTo gameName) w in
  let added := bidwarAddEntry (remoteBidwar w) gameName in
  fst run = Returned tt
  /\ if negb (success (fst added)) && truthy (message (fst added))
     then
       remoteBidwar (snd run) = remoteBidwar w
       /\ faults (snd run) = tl (faults w)
       /\ since w (snd run)
          = Read sheets incentiveSheetId bidwarSubSheet
            :: map Bot (TwitchBot.chat respondTo (default "" (message (fst added))))
     else
       match hd None (tl (faults w)) with
       | None =>
           remoteBidwar (snd run) = snd added
           /\ since w (snd run)
              = Read sheets incentiveSheetId bidwarSubSheet
                :: Push sheets incentiveSheetId bidwarSubSheet
                :: map Bot (TwitchBot.chat respondTo
                              ("Bidwar entry " ++ gameName
                               ++ " was successfully added."))
       | Some err =>
           remoteBidwar (snd run) = remoteBidwar w
           /\ since w (snd run)
              = [Read sheets incentiveSheetId bidwarSubSheet;
                 Bot (TwitchBot.SuperChat respondTo "Error adding entry.");
                 Bot (TwitchBot.ConsoleLog err)]
       end.
Proof.
  intros Hs Hf run added. subst run added.
  cbn [runTask]. unfold bidwarAddEntryTask.
  async_unfold. cbn. rewrite Hs. cbn. rewrite Hf. cbn.
  destruct (bidwarAddEntry _ _) as [status sheet]. cbn.
  destruct (negb (success status) && truthy (message status)); cbn; rewrite ?Hs; cbn.
  all: try destruct (hd None (tl (faults w))); cbn.
  all: effects_since; auto.
Qed.

(** X6.  The task of [handleBidwarAddFunds], the read being accepted:
    the amount is added to the user's balance under the given source,
    or under "manually added by admin" when none is given, and the sheet
    is written.  When the write is accepted the remote bidwar sheet is
    that sheet and the requester is told the amount; when it is rejected
    the remote sheet is as before and the requester is told
    "Error adding entry.". *)
Theorem bidwar_add_funds_defaults_source
    (w : World) (sheets : Sheets) (future : nat) (respondTo userId username : string)
    (amount : Z) (source : option string) (timestamp : Date) :
  googleSheets w = Future.Settled sheets ->
  hd None (faults w) = None ->
  let run :=
    runTask (BidwarAddFunds future respondTo userId username amount source
               timestamp) w in
  let banked :=
    addBitsToUser (remoteBidwar w) userId username amount timestamp
      (Some match source with
            | Some given => given
            | None => "manually added by admin"
            end) in
  fst run = Returned tt
  /\ match hd None (tl (faults w)) with
     | None =>
         remoteBidwar (snd run) = banked
         /\ since w (snd run)
            = Read sheets incentiveSheetId bidwarSubSheet
              :: Push sheets incentiveSheetId bidwarSubSheet
              :: map Bot (TwitchBot.chat respondTo
                            ("User " ++ username ++ " had " ++ show amount
                             ++ " added to their bidwar bank balance."))
     | Some err =>
         remoteBidwar (snd run) = remoteBidwar w
         /\ since w (snd run)
            = [Read sheets incentiveSheetId bidwarSubSheet;
               Bot (TwitchBot.SuperChat respondTo "Error adding entry.");
               Bot (TwitchBot.ConsoleLog err)]
     end.
Proof.
  intros Hs Hf run banked. subst run banked.
  cbn [runTask]. unfold bidwarAddFundsTask.
  async_unfold. cbn. rewrite Hs. cbn. rewrite Hf. cbn. rewrite Hs. cbn.
  destruct (hd None (tl (faults w))); cbn.
  all: effects_since; destruct source; auto.
Qed.

(** X7.  What [handleGameRequestRedeem] does to the redemption once the
    outcome of the funding is known.  Only a [Fulfilled] outcome marks
    it, as fulfilled, and the mark is the only effect.  On [Unfulfilled],
    and on a [PendingConfirmation] that carries no operation, the call
    returns without any effect at all: the redemption is neither
    fulfilled nor refunded, and no held task is registered. *)
Theorem redeem_marks_redemption_only_when_fulfilled
    (event : Redemption) (outcome : FundGameRequestOutcome) (w : World) :
  let run := redeemResume event outcome w in
  match type outcome, complete outcome with
  | Fulfilled, _ =>
      match hd None (faults w) with
      | None =>
          fst run = Returned tt
          /\ since w (snd run)
             = [UpdateRedemption (id event) (reward_id (reward event))
                  (broadcaster_user_id event) true]
      | Some err => fst run = Thrown err /\ since w (snd run) = []
      end
      /\ heldTasksByUserId (snd run) = heldTasksByUserId w
  | PendingConfirmation, Some _ =>
      fst run = Returned tt /\ redemptionUpdates (since w (snd run)) = []
  | _, _ => run = (Returned tt, w)
  end.
Proof.
  intros run. subst run. unfold redeemResume.
  destruct (type outcome), (complete outcome); try reflexivity.
  1, 2: async_unfold; cbn; destruct (hd None (faults w)); cbn.
  1, 3: unfold since; cbn; rewrite drop_all; auto.
  1, 2: effects_since; auto.
  async_unfold. cbn. effects_since. split; [reflexivity |].
  unfold redemptionUpdates, TwitchBot.chat. now destruct (_ <? _)%nat.
Qed.

(** X8.  The cancellation [handleGameRequestRedeem] registers: the
    redemption is marked as not fulfilled first and the viewer is told
    of the refund after it.  When the mark is rejected the operation
    throws before anything is said.  Either way no sheet is read or
    written and both remote sheets stay as they are. *)
Theorem redeem_cancel_refunds_then_tells (event : Redemption) (w : World) :
  let run := runHeldOp (RedeemCancel event) w in
  match hd None (faults w) with
  | None =>
      fst run = Returned tt
      /\ since w (snd run)
         = UpdateRedemption (id event) (reward_id (reward event))
             (broadcaster_user_id event) false
           :: map Bot (TwitchBot.chat ("#" ++ broadcaster_user_name event)
                         ("@" ++ user_name event ++ " your "
                          ++ show (cost (reward event))
                          ++ " points have been refunded."))
  | Some err => fst run = Thrown err /\ since w (snd run) = []
  end
  /\ remoteGameRequests (snd run) = remoteGameRequests w
  /\ remoteBidwar (snd run) = remoteBidwar w
  /\ objects (snd run) = objects w.
Proof.
  intros run. subst run. cbn [runHeldOp]. async_unfold. cbn.
  destruct (hd None (faults w)); cbn.
  - unfold since. cbn. rewrite drop_all. auto.
  - effects_since. auto.
Qed.

(** X9.  The completion [handleGameRequestRedeem] registers, run where
    its sheet object holds [sheet]: the points are written first and the
    redemption is marked fulfilled after the chat message.  When the
    write is rejected nothing is marked and nobody is told; when the
    write is accepted and the mark is rejected, the points are in the
    remote sheet and the redemption stays unmarked. *)
Theorem redeem_complete_writes_before_marking
    (c : CompleteFunding) (event : Redemption) (w : World) (sheets : Sheets)
    (sheet : GameRequest_Spreadsheet) :
  googleSheets w = Future.Settled sheets ->
  objects w !! cf_sheet c = Some sheet ->
  let run := runHeldOp (RedeemComplete c event) w in
  let funded :=
    addPointsToEntry sheet (cf_username c) (cf_gameName c) (cf_points c)
      (cf_timestamp c) in
  let written :=
    Push sheets incentiveSheetId gameRequestSubSheet
    :: map Bot (TwitchBot.chat (cf_respondTo c)
                  ("@" ++ cf_username c ++ ", your " ++ show (cf_points c)
                   ++ " points were successfully added to requesting "
                   ++ cf_gameName c ++ " on stream!")) in
  match hd None (faults w), hd None (tl (faults w)) with
  | Some err, _ =>
      fst run = Thrown err
      /\ remoteGameRequests (snd run) = remoteGameRequests w
      /\ since w (snd run) = []
  | None, Some err =>
      fst run = Thrown err
      /\ remoteGameRequests (snd run) = funded
      /\ since w (snd run) = written
  | None, None =>
      fst run = Returned tt
      /\ remoteGameRequests (snd run) = funded
      /\ since w (snd run)
         = written ++ [UpdateRedemption (id event) (reward_id (reward event))
                         (broadcaster_user_id event) true]
  end.
Proof.
  intros Hs Ho run funded written. subst run funded written.
  cbn [runHeldOp]. async_unfold. cbn. rewrite Ho. cbn. rewrite Hs. cbn.
  rewrite list_lookup_insert_eq by eauto using lookup_lt_Some. cbn.
  destruct (hd None (faults w)); cbn.
  - unfold since. cbn. rewrite drop_all. auto.
  - destruct (hd None (tl (faults w))); cbn; effects_since; auto.
Qed.

(** A task body leaves [googleSheets] alone, and the sheet objects that
    exist when it starts: it only changes the object it reads itself. *)
Lemma runTask_keeps_objects (t : Task) (w : World) :
  googleSheets (snd (runTask t w)) = googleSheets w
  /\ forall ref sheet,
       objects w !! ref = Some sheet ->
       objects (snd (runTask t w)) !! ref = Some sheet.
Proof.
  assert (Hread : forall ref sheet (x : GameRequest_Spreadsheet),
    objects w !! ref = Some sheet -> (objects w ++ [x]) !! ref = Some sheet).
  { intros ref sheet x Hr. pose proof (lookup_lt_Some _ _ _ Hr) as Hlt.
    now rewrite lookup_app_l by lia. }
  assert (Hupdate : forall ref sheet (x y : GameRequest_Spreadsheet),
    objects w !! ref = Some sheet ->
    <[length (objects w) := y]> (objects w ++ [x]) !! ref = Some sheet).
  { intros ref sheet x y Hr. pose proof (lookup_lt_Some _ _ _ Hr) as Hlt.
    rewrite list_lookup_insert_ne by lia. now apply Hread. }
  destruct t; async_unfold; world_simpl_all.
  all: destruct (googleSheets w) eqn:Hs; world_simpl_all.
  all: all_paths Hs; split; try reflexivity; try congruence.
  all: intros ref sheet Hr; try exact Hr.
  all: first [exact (Hread _ _ _ Hr) | exact (Hupdate _ _ _ _ Hr)].
Qed.

Lemma runTasks_keep_objects (ts : list Task) (w : World) :
  let w' := fold_left (fun acc t => snd (runTask t acc)) ts w in
  googleSheets w' = googleSheets w
  /\ forall ref sheet, objects w !! ref = Some sheet -> objects w' !! ref = Some sheet.
Proof.
  revert w. induction ts as [| t ts IH]; intros w; cbn; [auto |].
  destruct (IH (snd (runTask t w))) as [Hs Ho].
  destruct (runTask_keeps_objects t w) as [Hs1 Ho1].
  split; [congruence | auto].
Qed.

(** X10.  The funding operation carried by a [PendingConfirmation]
    outcome writes the sheet its task read.  Whatever tasks run between
    the outcome and the confirmation, and whatever they write to the
    remote game-request sheet, the confirmed operation (its write being
    accepted) leaves the remote sheet as the sheet read back then plus
    the points: what was written in between is overwritten. *)
Theorem confirmed_funding_writes_the_sheet_it_read
    (w : World) (sheets : Sheets) (future : nat) (respondTo gameName username : string)
    (points : Z) (timestamp : Date) (existingEntry : GameRequestEntry)
    (between : list Task) :
  googleSheets w = Future.Settled sheets ->
  hd None (faults w) = None ->
  findEntry (remoteGameRequests w) gameName = Some existingEntry ->
  ((pointsContributed existingEntry <=? pointsToActivate existingEntry)
   && (pointsContributed existingEntry + points >? pointsToActivate existingEntry))%Z
  = true ->
  let asked :=
    snd (runTask (GameRequestFund future respondTo gameName username points
                    timestamp) w) in
  let later := fold_left (fun acc t => snd (runTask t acc)) between asked in
  hd None (faults later) = None ->
  let confirmed :=
    completeFunding (fundingOf w respondTo gameName username points timestamp) later in
  fst confirmed = Returned tt
  /\ remoteGameRequests (snd confirmed)
     = addPointsToEntry (remoteGameRequests w) username gameName points timestamp.
Proof.
  intros Hs Hf He Hb asked later Hf2 confirmed.
  destruct (runTasks_keep_objects between asked) as [Hs2 Ho2]. fold later in Hs2, Ho2.
  assert (Ho : objects asked !! length (objects w) = Some (remoteGameRequests w)).
  { subst asked.
    rewrite (fund_pending_run w sheets _ _ _ _ _ _ existingEntry Hs Hf He Hb).
    cbn. now apply list_lookup_middle. }
  assert (Hs1 : googleSheets asked = Future.Settled sheets).
  { subst asked.
    rewrite (fund_pending_run w sheets _ _ _ _ _ _ existingEntry Hs Hf He Hb).
    exact Hs. }
  destruct (completeFunding_run later sheets
              (fundingOf w respondTo gameName username points timestamp)
              (remoteGameRequests w))
    as (w' & Hrun & Hremote & _); [congruence | exact Hf2 | now apply Ho2 |].
  subst confirmed. rewrite Hrun. auto.
Qed.

(** X11.  Before [startup] has resolved [googleSheets], a task that
    reads a sheet is suspended at its first step and has changed
    nothing; the queue stays in that task, so nothing submitted after it
    runs either. *)
Theorem tasks_wait_for_startup (t : Task) (w : World) :
  googleSheets w = Future.Pending ->
  awaitsSheets t = true ->
  runTask t w = (Suspended, w)
  /\ forall rest, TaskQueue.executing (taskQueue w) = t :: rest -> finishTask w = w.
Proof.
  intros Hs Ht.
  assert (Hrun : runTask t w = (Suspended, w)).
  { destruct t; cbn in Ht; cbn [runTask]; try discriminate.
    all: async_unfold; rewrite ?Hs; cbn; try reflexivity.
    destruct (is_anonymous event), (cheer_user_id event), (cheer_user_name event);
      try discriminate.
    rewrite Hs. reflexivity. }
  split; [exact Hrun |].
  intros rest He. unfold finishTask. rewrite He.
  unfold bind at 1. cbn [emit modify]. 
  replace (runTask t _) with
    (@Suspended unit, set_trace (trace w ++ [TaskBegins]) w); [reflexivity |].
  symmetry.
  destruct t; cbn in Ht; cbn [runTask]; try discriminate.
  all: async_unfold; world_simpl; rewrite ?Hs; cbn; try reflexivity.
  destruct (is_anonymous event), (cheer_user_id event), (cheer_user_name event);
    try discriminate.
  world_simpl. rewrite Hs. reflexivity.
Qed.

End TaskFacts.

(** C7.  Whatever the sequence of [settle] and [get] calls on a deferred
    value: the state changes at most once; every value a [get] returned,
    whether the call came before or after settlement, is the value of the
    first [settle]; once settled, every [get] issued so far has been
    answered and no consumer is left waiting.  And the calls do take
    effect: before any [settle] the value is pending and every [get]
    waits; from the first [settle v] on the state is settled with [v],
    it has changed exactly once, and every [get] issued, before or after
    that [settle], has been answered with [v].  For [GoogleAPI]:
    whatever is called on a new instance, [googleSheets] holds the handle
    of the first [startup], a task that awaits it after that [startup] is
    given this handle, and every spreadsheet read and write of every task
    and held operation went through that one handle. *)
Theorem future_settles_once_same_value {T : Type} (ops : list (Future.call T)) :
  ((Future.changes (Future.run ops) <= 1)%nat
   /\ (forall consumer v,
         In (consumer, v) (Future.delivered (Future.run ops)) ->
         Future.first_settle ops = Some v)
   /\ (forall v1 v2 k1 k2,
         In (k1, v1) (Future.delivered (Future.run ops)) ->
         In (k2, v2) (Future.delivered (Future.run ops)) -> v1 = v2)
   /\ (forall v, Future.st (Future.run ops) = Future.Settled v ->
         Future.first_settle ops = Some v
         /\ Future.waiters (Future.run ops) = []
         /\ map fst (Future.delivered (Future.run ops)) ≡ₚ Future.gets ops))
  /\ ((Future.first_settle ops = None ->
       Future.st (Future.run ops) = Future.Pending
       /\ Future.changes (Future.run ops) = 0%nat
       /\ Future.delivered (Future.run ops) = []
       /\ Future.waiters (Future.run ops) = Future.gets ops)
      /\ (forall v,
            Future.first_settle ops = Some v ->
            Future.st (Future.run ops) = Future.Settled v
            /\ Future.changes (Future.run ops) = 1%nat
            /\ Future.waiters (Future.run ops) = []
            /\ forall consumer,
                 In consumer (Future.gets ops) ->
                 In (consumer, v) (Future.delivered (Future.run ops))))
  /\ (forall (S : GoogleAPI.Spreadsheets) (calls : list GoogleAPI.call)
        gameRequests bidwar fs,
        let w := GoogleAPI.history calls (GoogleAPI.initial gameRequests bidwar fs) in
        GoogleAPI.googleSheets w
        = match GoogleAPI.firstStartup calls with
          | Some sheets => Future.Settled sheets
          | None => Future.Pending
          end
        /\ (forall sheets,
              GoogleAPI.firstStartup calls = Some sheets ->
              GoogleAPI.awaitSheets w = (GoogleAPI.Returned sheets, w))
        /\ forall e sheets,
             In e (GoogleAPI.trace w) ->
             GoogleAPI.handleOf e = Some sheets ->
             GoogleAPI.firstStartup calls = Some sheets).
Proof.
  split; [apply future_settles_once |].
  split; [apply future_answers_every_get |].
  intros S calls gameRequests bidwar fs w.
  pose proof (history_googleSheets calls gameRequests bidwar fs) as Hs.
  fold w in Hs. split; [exact Hs | split].
  - intros sheets Hfirst. unfold GoogleAPI.awaitSheets.
    rewrite Hs, Hfirst. reflexivity.
  - intros e sheets Hin He.
    pose proof (history_oneHandle calls gameRequests bidwar fs) as HJ.
    fold w in HJ. unfold GoogleAPI.oneHandle in HJ.
    rewrite Forall_forall in HJ. apply list_elem_of_In in Hin.
    specialize (HJ e Hin sheets He). rewrite Hs in HJ.
    destruct (GoogleAPI.firstStartup calls); congruence.
Qed.

(** ** GoogleAPI: what a task body cannot touch *)

Section Preserved.
Context `{GoogleAPI.Spreadsheets}.
Import GoogleAPI.

Variable R : World -> World -> Prop.
Hypothesis stable : io_stable R.

Lemma preserves_ret {A} (a : A) : preserves R (ret a).
Proof. intros w. apply (io_refl R stable). Qed.

Lemma preserves_bind {A B} (m : M A) (k : A -> M B) :
  preserves R m -> (forall a, preserves R (k a)) -> preserves R (bind m k).
Proof.
  intros Hm Hk w. unfold bind. specialize (Hm w).
  destruct (m w) as [[a | e |] w1]; cbn in *; auto.
  eapply (io_trans R stable); [exact Hm | apply Hk].
Qed.

Lemma preserves_tryCatch {A} (body : M A) (handler : string -> M A) :
  preserves R body -> (forall e, preserves R (handler e)) ->
  preserves R (tryCatch body handler).
Proof.
  intros Hb Hh w. unfold tryCatch. specialize (Hb w).
  destruct (body w) as [[a | e |] w1]; cbn in *; auto.
  eapply (io_trans R stable); [exact Hb | apply Hh].
Qed.

Lemma preserves_emit es :
  Forall (fun e => e <> TaskBegins /\ e <> TaskEnds) es -> preserves R (emit es).
Proof. intros Hes w. cbn. now apply (io_trace R stable). Qed.

Lemma preserves_chat recipient message : preserves R (chat recipient message).
Proof.
  apply preserves_emit. unfold TwitchBot.chat.
  destruct (_ <? _)%nat; repeat constructor; discriminate.
Qed.

Lemma preserves_consoleLog line : preserves R (consoleLog line).
Proof. apply preserves_emit. repeat constructor; discriminate. Qed.

Lemma preserves_awaitSheets : preserves R awaitSheets.
Proof.
  intros w. unfold awaitSheets.
  destruct (Future.get (googleSheets w)); apply (io_refl R stable).
Qed.

Lemma preserves_remoteCall : preserves R remoteCall.
Proof.
  intros w. unfold remoteCall.
  destruct (hd None (faults w)); apply (io_faults R stable).
Qed.

Lemma preserves_withObject {A} ref (f : GameRequest_Spreadsheet -> M A) :
  (forall sheet, preserves R (f sheet)) -> preserves R (withObject ref f).
Proof.
  intros Hf w. unfold withObject.
  destruct (objects w !! ref); [apply Hf | apply (io_refl R stable)].
Qed.

Lemma preserves_mutateObject ref f : preserves R (mutateObject ref f).
Proof.
  apply preserves_withObject. intros sheet w. apply (io_objects R stable).
Qed.

Lemma preserves_getGameRequestSpreadsheet sheets doc sub :
  preserves R (getGameRequestSpreadsheet sheets doc sub).
Proof.
  unfold getGameRequestSpreadsheet.
  apply preserves_bind; [apply preserves_remoteCall | intros _].
  apply preserves_bind;
    [apply preserves_emit; repeat constructor; discriminate | intros _].
  intros w. apply (io_objects R stable).
Qed.

Lemma preserves_getBidwarSpreadsheet sheets doc sub :
  preserves R (getBidwarSpreadsheet sheets doc sub).
Proof.
  unfold getBidwarSpreadsheet.
  apply preserves_bind; [apply preserves_remoteCall | intros _].
  apply preserves_bind;
    [apply preserves_emit; repeat constructor; discriminate | intros _].
  intros w. apply (io_refl R stable).
Qed.

Lemma preserves_pushGameRequests sheets doc sub ref :
  preserves R (pushGameRequests sheets doc sub ref).
Proof.
  apply preserves_withObject. intros sheet.
  apply preserves_bind; [apply preserves_remoteCall | intros _].
  apply preserves_bind;
    [apply preserves_emit; repeat constructor; discriminate | intros _].
  intros w. apply (io_remoteGameRequests R stable).
Qed.

Lemma preserves_pushBidwar sheets doc sub sheet :
  preserves R (pushBidwar sheets doc sub sheet).
Proof.
  unfold pushBidwar.
  apply preserves_bind; [apply preserves_remoteCall | intros _].
  apply preserves_bind;
    [apply preserves_emit; repeat constructor; discriminate | intros _].
  intros w. apply (io_remoteBidwar R stable).
Qed.

Lemma preserves_updateChannelPointRedemption redemption rewardId broadcasterId b :
  preserves R (updateChannelPointRedemption redemption rewardId broadcasterId b).
Proof.
  unfold updateChannelPointRedemption.
  apply preserves_bind; [apply preserves_remoteCall | intros _].
  apply preserves_emit; repeat constructor; discriminate.
Qed.

Lemma preserves_completeFunding c : preserves R (completeFunding c).
Proof.
  unfold completeFunding.
  apply preserves_bind; [apply preserves_mutateObject | intros _].
  apply preserves_bind; [apply preserves_awaitSheets | intros sheets].
  apply preserves_bind; [apply preserves_pushGameRequests | intros _].
  apply preserves_chat.
Qed.

(** The bodies that never call [future.resolve]. *)
Lemma preserves_bidwarContributeTask future respondTo userId username gameName bits
    timestamp :
  preserves R (bidwarContributeTask future respondTo userId username gameName bits
               timestamp).
Proof.
  unfold bidwarContributeTask.
  apply preserves_bind; [apply preserves_awaitSheets | intros sheets].
  apply preserves_bind; [apply preserves_getBidwarSpreadsheet | intros sheet].
  destruct (spendBitsOnEntry _ _ _ _ _ _) as [status sheet'].
  apply preserves_bind.
  - destruct (truthy _); [apply preserves_chat | apply preserves_ret].
  - intros _. destruct (negb _); [apply preserves_ret |].
    apply preserves_bind; [apply preserves_awaitSheets | intros sheets'].
    apply preserves_bind; [apply preserves_pushBidwar | intros _].
    apply preserves_chat.
Qed.

Lemma preserves_bidwarAddEntryTask future respondTo gameName :
  preserves R (bidwarAddEntryTask future respondTo gameName).
Proof.
  unfold bidwarAddEntryTask. apply preserves_tryCatch.
  - apply preserves_bind; [apply preserves_awaitSheets | intros sheets].
    apply preserves_bind; [apply preserves_getBidwarSpreadsheet | intros sheet].
    destruct (bidwarAddEntry _ _) as [status sheet'].
    destruct (_ && _); [apply preserves_chat |].
    apply preserves_bind; [apply preserves_awaitSheets | intros sheets'].
    apply preserves_bind; [apply preserves_pushBidwar | intros _].
    apply preserves_chat.
  - intros err. apply preserves_bind; [apply preserves_chat | intros _].
    apply preserves_consoleLog.
Qed.

Lemma preserves_bidwarAddFundsTask future respondTo userId username amount source
    timestamp :
  preserves R (bidwarAddFundsTask future respondTo userId username amount source
               timestamp).
Proof.
  unfold bidwarAddFundsTask. apply preserves_tryCatch.
  - apply preserves_bind; [apply preserves_awaitSheets | intros sheets].
    apply preserves_bind; [apply preserves_getBidwarSpreadsheet | intros sheet].
    apply preserves_bind; [apply preserves_awaitSheets | intros sheets'].
    apply preserves_bind; [apply preserves_pushBidwar | intros _].
    apply preserves_chat.
  - intros err. apply preserves_bind; [apply preserves_chat | intros _].
    apply preserves_consoleLog.
Qed.

Lemma preserves_cheerTask_named future event subscription userId userName :
  is_anonymous event = false ->
  cheer_user_id event = Some userId ->
  cheer_user_name event = Some userName ->
  preserves R (cheerTask future event subscription).
Proof.
  intros Ha Hi Hn. unfold cheerTask. rewrite Ha, Hi, Hn.
  apply preserves_bind; [apply preserves_awaitSheets | intros sheets].
  apply preserves_bind; [apply preserves_getBidwarSpreadsheet | intros sheet].
  apply preserves_bind; [apply preserves_awaitSheets | intros sheets'].
  apply preserves_pushBidwar.
Qed.

(** The remaining bodies settle their future; they preserve a relation
    that also survives that. *)
Section WithResolve.
Hypothesis io_futures : forall w v, R w (set_futures v w).

Lemma preserves_resolve future value : preserves R (resolve future value).
Proof. intros w. apply io_futures. Qed.

Lemma preserves_gameRequestFundTask future respondTo gameName username points
    timestamp :
  preserves R (gameRequestFundTask future respondTo gameName username points timestamp).
Proof.
  unfold gameRequestFundTask.
  apply preserves_bind; [apply preserves_awaitSheets | intros sheets].
  apply preserves_bind; [apply preserves_getGameRequestSpreadsheet | intros ref].
  apply preserves_withObject. intros sheet.
  destruct (findEntry sheet gameName) as [e |].
  - cbn zeta. destruct (_ && _); [apply preserves_resolve |].
    apply preserves_bind; [apply preserves_completeFunding | intros _].
    apply preserves_resolve.
  - apply preserves_bind; [apply preserves_chat | intros _].
    apply preserves_resolve.
Qed.

Lemma preserves_gameRequestAddTask future respondTo gameName hours toActivate
    username points timestamp :
  preserves R (gameRequestAddTask future respondTo gameName hours toActivate username
               points timestamp).
Proof.
  unfold gameRequestAddTask. apply preserves_bind.
  - apply preserves_tryCatch.
    + apply preserves_bind; [apply preserves_awaitSheets | intros sheets].
      apply preserves_bind; [apply preserves_getGameRequestSpreadsheet | intros ref].
      apply preserves_ret.
    + intros err. apply preserves_bind; [apply preserves_chat | intros _].
      apply preserves_bind; [apply preserves_consoleLog | intros _].
      apply preserves_bind; [apply preserves_resolve | intros _].
      apply preserves_ret.
  - intros [ref |]; [| apply preserves_ret].
    apply preserves_withObject. intros sheet.
    destruct (findEntry sheet gameName) as [e |].
    + apply preserves_bind; [apply preserves_chat | intros _].
      apply preserves_resolve.
    + apply preserves_bind; [apply preserves_mutateObject | intros _].
      apply preserves_bind; [apply preserves_awaitSheets | intros sheets].
      apply preserves_bind; [apply preserves_pushGameRequests | intros _].
      apply preserves_bind; [apply preserves_chat | intros _].
      apply preserves_resolve.
Qed.

Lemma preserves_cheerTask future event subscription :
  preserves R (cheerTask future event subscription).
Proof.
  destruct (is_anonymous event) eqn:Ha;
    [unfold cheerTask; rewrite Ha; apply preserves_resolve |].
  destruct (cheer_user_id event) as [userId |] eqn:Hi;
    [| unfold cheerTask; rewrite Ha, Hi; apply preserves_resolve].
  destruct (cheer_user_name event) as [userName |] eqn:Hn;
    [| unfold cheerTask; rewrite Ha, Hi, Hn; apply preserves_resolve].
  eapply preserves_cheerTask_named; eauto.
Qed.

Lemma preserves_runTask (t : Task) : preserves R (runTask t).
Proof.
  destruct t; cbn [runTask];
    auto using preserves_gameRequestFundTask, preserves_gameRequestAddTask,
      preserves_cheerTask, preserves_bidwarContributeTask,
      preserves_bidwarAddEntryTask, preserves_bidwarAddFundsTask.
Qed.

End WithResolve.

End Preserved.

(** ** GoogleAPI: futures, the queue and the deferred funding *)

Section QueueFacts.
Context `{GoogleAPI.Spreadsheets}.
Import GoogleAPI.

Lemma keeps_futures_stable : io_stable (fun w w' => futures w' = futures w).
Proof. split; intros; cbn; congruence. Qed.

Lemma keeps_taskQueue_stable : io_stable (fun w w' => taskQueue w' = taskQueue w).
Proof. split; intros; cbn; congruence. Qed.

(** The tasks of the three bidwar handlers, and of [handleCheer] for a
    named user, leave every future as it is, however they end. *)
Lemma bidwar_tasks_keep_futures (w : World) (future : nat) :
  (forall respondTo userId username gameName bits timestamp,
     futures (snd (runTask (BidwarContribute future respondTo userId username
                              gameName bits timestamp) w))
     = futures w)
  /\ (forall respondTo gameName,
        futures (snd (runTask (BidwarAddEntry future respondTo gameName) w))
        = futures w)
  /\ (forall respondTo userId username amount source timestamp,
        futures (snd (runTask (BidwarAddFunds future respondTo userId username
                                 amount source timestamp) w))
        = futures w)
  /\ (forall event subscription userId userName,
        is_anonymous event = false ->
        cheer_user_id event = Some userId ->
        cheer_user_name event = Some userName ->
        futures (snd (runTask (CheerTask future event subscription) w))
        = futures w).
Proof.
  split_and!; intros; cbn [runTask].
  - apply (preserves_bidwarContributeTask _ keeps_futures_stable).
  - apply (preserves_bidwarAddEntryTask _ keeps_futures_stable).
  - apply (preserves_bidwarAddFundsTask _ keeps_futures_stable).
  - eapply (preserves_cheerTask_named _ keeps_futures_stable); eauto.
Qed.

(** A [GameRequestFund] task whose read of the sheet is rejected throws
    and leaves its future pending. *)
Lemma fund_read_failure_keeps_future w sheets future respondTo gameName username
    points timestamp err :
  googleSheets w = Future.Settled sheets ->
  hd None (faults w) = Some err ->
  runTask (GameRequestFund future respondTo gameName username points timestamp) w
  = (Thrown err, set_faults (tl (faults w)) w).
Proof.
  intros Hs Hf. cbn. unfold gameRequestFundTask, getGameRequestSpreadsheet, bind,
    awaitSheets, remoteCall. rewrite Hs. cbn. now rewrite Hf.
Qed.

(** Every handler creates a pending future, puts its task at the tail of
    the one queue of the instance, asks the queue to drain, and returns
    the future. *)
Lemma submit_run (mk : nat -> Task) (w : World) :
  submit mk w
  = (Returned (length (futures w)),
     set_taskQueue
       (TaskQueue.startQueue
          (TaskQueue.addTask (mk (length (futures w))) (taskQueue w)))
       (set_futures (futures w ++ [Future.Pending]) w)).
Proof. reflexivity. Qed.

Lemma handlers_share_one_queue :
  (forall respondTo gameName username points timestamp,
     handleGameRequestFund respondTo gameName username points timestamp
     = submit (fun future =>
         GameRequestFund future respondTo gameName username points timestamp))
  /\ (forall respondTo gameName hours toActivate username points timestamp,
        handleGameRequestAdd respondTo gameName hours toActivate username points
          timestamp
        = submit (fun future =>
            GameRequestAdd future respondTo gameName hours toActivate username
              points timestamp))
  /\ (forall event subscription,
        handleCheer event subscription
        = submit (fun future => CheerTask future event subscription))
  /\ (forall respondTo userId username gameName bits timestamp,
        handleBidwarContribute respondTo userId username gameName bits timestamp
        = submit (fun future =>
            BidwarContribute future respondTo userId username gameName bits
              timestamp))
  /\ (forall respondTo gameName,
        handleBidwarAddEntry respondTo gameName
        = submit (fun future => BidwarAddEntry future respondTo gameName))
  /\ (forall respondTo userId username amount source timestamp,
        handleBidwarAddFunds respondTo userId username amount source timestamp
        = submit (fun future =>
            BidwarAddFunds future respondTo userId username amount source
              timestamp)).
Proof. split_and!; reflexivity. Qed.

(** The operations a held task runs never go through the queue: nothing
    is submitted, started or finished. *)
Lemma runHeldOp_keeps_taskQueue (op : HeldOp) (w : World) :
  taskQueue (snd (runHeldOp op w)) = taskQueue w.
Proof.
  revert w. change (preserves (fun w w' => taskQueue w' = taskQueue w) (runHeldOp op)).
  destruct op as [c event | event]; cbn [runHeldOp].
  - apply (preserves_bind _ keeps_taskQueue_stable);
      [apply (preserves_completeFunding _ keeps_taskQueue_stable) | intros _].
    apply (preserves_updateChannelPointRedemption _ keeps_taskQueue_stable).
  - apply (preserves_bind _ keeps_taskQueue_stable);
      [apply (preserves_updateChannelPointRedemption _ keeps_taskQueue_stable)
      | intros _].
    apply (preserves_chat _ keeps_taskQueue_stable).
Qed.

Lemma runInvoked_keeps_taskQueue before after (w : World) :
  taskQueue (runInvoked before after w) = taskQueue w.
Proof.
  unfold runInvoked.
  generalize (drop (length (HeldTask.invoked before)) (HeldTask.invoked after)).
  intros ops.
  change (taskQueue w) with (taskQueue (set_heldTasksByUserId after w)).
  generalize (set_heldTasksByUserId after w). clear w.
  induction ops as [| x ops IH]; intros w; cbn; [reflexivity |].
  now rewrite IH, runHeldOp_keeps_taskQueue.
Qed.

Lemma heldComplete_keeps_taskQueue key (w : World) :
  taskQueue (heldComplete key w) = taskQueue w.
Proof. apply runInvoked_keeps_taskQueue. Qed.

End QueueFacts.

(** ** GoogleAPI: which writes are serialized *)

Section Serialization.
Context `{GoogleAPI.Spreadsheets}.
Import GoogleAPI.

Lemma serialized_app b (l l' : list effect) :
  serialized b (l ++ l') = serialized b l && serialized (inTaskAfter b l) l'.
Proof.
  revert b. induction l as [| e l IH]; intros b; [reflexivity |].
  destruct e; cbn; rewrite ?IH; try reflexivity. now rewrite andb_assoc.
Qed.

Lemma inTaskAfter_app b (l l' : list effect) :
  inTaskAfter b (l ++ l') = inTaskAfter (inTaskAfter b l) l'.
Proof.
  revert b. induction l as [| e l IH]; intros b; [reflexivity |].
  destruct e; cbn; now rewrite ?IH.
Qed.

Lemma plain_inTaskAfter b (l : list effect) : Forall plain l -> inTaskAfter b l = b.
Proof.
  induction 1 as [| e l [Hb He] _ IH]; [reflexivity |].
  destruct e; cbn; auto; congruence.
Qed.

Lemma plain_serialized_inside (l : list effect) : Forall plain l -> serialized true l = true.
Proof.
  induction 1 as [| e l [Hb He] _ IH]; [reflexivity |].
  destruct e; cbn; auto; congruence.
Qed.

Lemma quiet_serialized b (l : list effect) : Forall quiet l -> serialized b l = true.
Proof.
  induction 1 as [| e l [[Hb He] Hp] _ IH]; [reflexivity |].
  destruct e; cbn in *; auto; congruence.
Qed.

Lemma quiet_plain (l : list effect) : Forall quiet l -> Forall plain l.
Proof. intros Hq. eapply Forall_impl; [exact Hq | now intros e [? _]]. Qed.

Lemma appends_refl P w : appends P w w.
Proof. exists []. now rewrite app_nil_r. Qed.

Lemma appends_trans P w1 w2 w3 : appends P w1 w2 -> appends P w2 w3 -> appends P w1 w3.
Proof.
  intros (l & Hl & HP) (l' & Hl' & HP'). exists (l ++ l').
  split; [now rewrite Hl', Hl, app_assoc | now apply Forall_app].
Qed.

Lemma appends_same P (w w' : World) : trace w' = trace w -> appends P w w'.
Proof. intros Ht. exists []. now rewrite app_nil_r. Qed.

Lemma appends_plain_stable : io_stable (appends plain).
Proof.
  split; intros; eauto using appends_refl, appends_trans;
    try (now apply appends_same).
  now exists es.
Qed.

Lemma keeps_held_stable :
  io_stable (fun w w' => heldTasksByUserId w' = heldTasksByUserId w).
Proof. split; intros; cbn; congruence. Qed.

Lemma tidy_quiet (w w' : World) : tidy w -> appends quiet w w' -> tidy w'.
Proof.
  intros [Hs Ho] (l & Hl & Hq). unfold tidy. rewrite Hl. split.
  - now rewrite serialized_app, Hs, Ho, quiet_serialized.
  - rewrite inTaskAfter_app, Ho. now apply plain_inTaskAfter, quiet_plain.
Qed.

Ltac quiet_effects :=
  eexists; split; [rewrite <- ?app_assoc; reflexivity |];
  repeat (apply Forall_app; split);
  try (apply Forall_bot; intros o; repeat split; discriminate);
  repeat constructor; discriminate.

Lemma redeemResume_quiet event outcome (w : World) :
  refunds (heldTasksByUserId w) ->
  appends quiet w (snd (redeemResume event outcome w))
  /\ refunds (heldTasksByUserId (snd (redeemResume event outcome w))).
Proof.
  intros Hr. unfold redeemResume, updateChannelPointRedemption, chat, emit, modify,
    bind, ret, remoteCall.
  destruct (type outcome), (complete outcome); cbn;
    try destruct (hd None (faults w)); cbn;
    split; try exact Hr; try (now apply appends_same); try quiet_effects.
  all: apply Forall_app; split; [exact Hr | repeat constructor].
Qed.

Lemma wake_quiet waiting (w : World) :
  refunds (heldTasksByUserId w) ->
  appends quiet w (snd (wake waiting w))
  /\ refunds (heldTasksByUserId (snd (wake waiting w))).
Proof.
  revert w. induction waiting as [| [future event] rest IH]; intros w Hr; cbn.
  - split; [apply appends_refl | exact Hr].
  - destruct (futures w !! future) as [[| [| outcome]] |].
    1, 2, 4: destruct (IH w Hr) as [IH1 IH2];
      destruct (wake rest w) as [still w1]; auto.
    destruct (redeemResume_quiet event outcome w Hr) as [Hq1 Hr1].
    destruct (IH _ Hr1) as [IH1 IH2]. eauto using appends_trans.
Qed.

Lemma wakeAll_quiet (w : World) :
  refunds (heldTasksByUserId w) ->
  appends quiet w (wakeAll w) /\ refunds (heldTasksByUserId (wakeAll w)).
Proof.
  intros Hr. unfold wakeAll.
  destruct (wake_quiet (awaitingOutcome w) w Hr) as [Hq1 Hr1].
  destruct (wake (awaitingOutcome w) w) as [still w1]. cbn in *. auto.
Qed.

(** The effects of a task run by the queue lie between its brackets, so
    the remote writes among them are serialized. *)
Lemma finishTask_tidy (w : World) :
  tidy w -> refunds (heldTasksByUserId w) ->
  tidy (finishTask w) /\ refunds (heldTasksByUserId (finishTask w)).
Proof.
  intros [Hs Ho] Hr. unfold finishTask.
  destruct (TaskQueue.executing (taskQueue w)) as [| t rest]; [now split |].
  change ((emit [TaskBegins] ;; runTask t)%async w)
    with (runTask t (set_trace (trace w ++ [TaskBegins]) w)).
  set (w0 := set_trace (trace w ++ [TaskBegins]) w).
  destruct (preserves_runTask _ appends_plain_stable
              (fun w v => appends_same plain w (set_futures v w) eq_refl) t w0)
    as (lt & Ht & Hplain).
  pose proof (preserves_runTask _ keeps_held_stable (fun w v => eq_refl) t w0) as Hheld.
  cbn beta in Hheld.
  destruct (runTask t w0) as [[[] | err |] w1]; cbn [fst snd] in *; [| | now split].
  all: match goal with
       | |- tidy (wakeAll ?w2) /\ _ =>
           assert (Hr2 : refunds (heldTasksByUserId w2))
             by (cbn; rewrite Hheld; exact Hr);
           assert (Ht2 : tidy w2);
           [| destruct (wakeAll_quiet w2 Hr2) as [Hq3 Hr3];
              split; [exact (tidy_quiet _ _ Ht2 Hq3) | exact Hr3]]
       end.
  all: unfold tidy; cbn; rewrite Ht; subst w0; cbn.
  all: rewrite !serialized_app, !inTaskAfter_app, Hs, Ho; cbn.
  all: rewrite ?(plain_inTaskAfter true lt Hplain), (plain_serialized_inside lt Hplain).
  all: split; reflexivity.
Qed.

Lemma cancels_refl r : refunds r -> cancels r r.
Proof. intros Hr. split; [exact Hr |]. exists []. now rewrite app_nil_r. Qed.

Lemma cancels_trans r1 r2 r3 : cancels r1 r2 -> cancels r2 r3 -> cancels r1 r3.
Proof.
  intros (_ & l & Hl & HP) (Hr & l' & Hl' & HP'). split; [exact Hr |].
  exists (l ++ l'). split; [now rewrite Hl', Hl, app_assoc | now apply Forall_app].
Qed.

Lemma settleAction_refunds id side r :
  refunds r -> refunds (HeldTask.settleAction id side r).
Proof.
  intros Hr. unfold HeldTask.settleAction.
  destruct (HeldTask.actions r !! id) as [a |] eqn:Ha; [| exact Hr].
  destruct (HeldTask.status a); try exact Hr.
  unfold refunds. cbn. apply Forall_insert; [exact Hr |].
  unfold refunds in Hr. rewrite Forall_lookup in Hr. exact (Hr id a Ha).
Qed.

Lemma settleAction_cancels id r :
  refunds r -> cancels r (HeldTask.settleAction id HeldTask.Cancellation r).
Proof.
  intros Hr. split; [now apply settleAction_refunds |].
  unfold HeldTask.settleAction.
  destruct (HeldTask.actions r !! id) as [a |] eqn:Ha;
    [| exists []; now rewrite app_nil_r].
  destruct (HeldTask.status a); try (exists []; now rewrite app_nil_r).
  cbn. eexists. split; [reflexivity |]. repeat constructor. cbn.
  unfold refunds in Hr. rewrite Forall_lookup in Hr. exact (Hr id a Ha).
Qed.

Lemma cancel_cancels key r : refunds r -> cancels r (HeldTask.cancel key r).
Proof.
  intros Hr. unfold HeldTask.cancel, HeldTask.resolveKey.
  destruct (HeldTask.active r !! key); auto using settleAction_cancels, cancels_refl.
Qed.

Lemma fireDeadline_cancels id r : refunds r -> cancels r (HeldTask.fireDeadline id r).
Proof.
  intros Hr. unfold HeldTask.fireDeadline.
  destruct (HeldTask.actions r !! id); [| now apply cancels_refl].
  case_decide; auto using settleAction_cancels, cancels_refl.
Qed.

Lemma advance_cancels dt r : refunds r -> cancels r (HeldTask.advance dt r).
Proof.
  intros Hr. unfold HeldTask.advance.
  set (r0 := {| HeldTask.now := _ |}).
  assert (H0 : cancels r r0).
  { split; [exact Hr |]. exists []. subst r0. cbn. now rewrite app_nil_r. }
  clearbody r0. revert r0 H0.
  induction (seq 0 (length (HeldTask.actions r))) as [| id ids IH]; intros r0 H0; cbn.
  - exact H0.
  - apply IH. eapply cancels_trans; [exact H0 |].
    apply fireDeadline_cancels. apply H0.
Qed.

(** A refund tells the user and updates the redemption; it writes
    nothing to the remote document and leaves the held tasks alone. *)
Lemma runHeldOp_refund_quiet op (w : World) :
  refundOnly op = true ->
  appends quiet w (snd (runHeldOp op w))
  /\ heldTasksByUserId (snd (runHeldOp op w)) = heldTasksByUserId w.
Proof.
  destruct op as [c event | event]; [discriminate | intros _].
  unfold runHeldOp, updateChannelPointRedemption, chat, emit, modify, bind, remoteCall.
  destruct (hd None (faults w)); cbn; split; try reflexivity;
    try (now apply appends_same); quiet_effects.
Qed.

Lemma runInvoked_quiet before after (w : World) :
  cancels before after ->
  appends quiet w (runInvoked before after w)
  /\ heldTasksByUserId (runInvoked before after w) = after.
Proof.
  intros (_ & l & Hl & Hq). unfold runInvoked. rewrite Hl, drop_app_length.
  clear Hl.
  assert (H0 : appends quiet w (set_heldTasksByUserId after w)
               /\ heldTasksByUserId (set_heldTasksByUserId after w) = after)
    by (split; [now apply appends_same | reflexivity]).
  revert H0. generalize (set_heldTasksByUserId after w).
  induction Hq as [| x l Hx _ IH]; intros w0 [Ha Hh]; cbn; [now split |].
  destruct (runHeldOp_refund_quiet (snd x) w0 Hx) as [Ha1 Hh1].
  apply IH. split; [eauto using appends_trans | congruence].
Qed.

Lemma perform_orderly (c : call) (w : World) :
  (forall key, c <> RepliesYes key) -> orderly w -> orderly (perform w c).
Proof.
  intros Hc [Ht Hr]. destruct c; cbn [perform]; try (split; [exact Ht | exact Hr]).
  - now apply finishTask_tidy.
  - now destruct (Hc key).
  - destruct (runInvoked_quiet _ _ w (cancel_cancels key _ Hr)) as [Hq Hh].
    split; [exact (tidy_quiet _ _ Ht Hq) |].
    unfold heldCancel. rewrite Hh. now apply cancel_cancels.
  - destruct (runInvoked_quiet _ _ w (advance_cancels dt _ Hr)) as [Hq Hh].
    split; [exact (tidy_quiet _ _ Ht Hq) |].
    unfold elapse. rewrite Hh. now apply advance_cancels.
Qed.

(** As long as no user confirms an overfunding, every write to the
    remote document is made by a task that the one queue of the
    instance is executing. *)
Lemma writes_serialized_without_confirmation (calls : list call) gameRequests
    bidwar fs :
  Forall (fun c => forall key, c <> RepliesYes key) calls ->
  serialized false (trace (history calls (initial gameRequests bidwar fs))) = true.
Proof.
  intros Hcalls.
  assert (Hgen : forall w, orderly w -> orderly (history calls w)).
  { unfold history. induction Hcalls as [| c calls Hc _ IH]; intros w Hw; cbn;
      auto using perform_orderly. }
  apply Hgen. repeat split. constructor.
Qed.

End Serialization.


(** ** Worked examples on the ledger *)

Lemma anonymous_cheer_leaves_ledger_alone_witness :
  GoogleAPI.remoteBidwar
    (snd (GoogleAPI.runTask
            (GoogleAPI.CheerTask 0
               {| GoogleAPI.is_anonymous := true; GoogleAPI.cheer_user_id := None;
                  GoogleAPI.cheer_user_name := None; GoogleAPI.bits := 100 |}
               {| GoogleAPI.created_at := "2024-01-01T00:00:00Z" |})
            (Ledger.started 90 [])))
  = [].
Proof.
  apply (@anonymous_cheer_leaves_ledger_alone Ledger.sheets (Ledger.started 90 []) 0
           {| GoogleAPI.is_anonymous := true; GoogleAPI.cheer_user_id := None;
              GoogleAPI.cheer_user_name := None; GoogleAPI.bits := 100 |}
           {| GoogleAPI.created_at := "2024-01-01T00:00:00Z" |}).
  left. reflexivity.
Defined.

(** C1, as stated, fails where the entry is already overfunded: with 150
    of 100 points contributed, 10 more points would overfund the goal, yet
    the outcome is [Fulfilled] and the points are written at once. *)
Lemma fund_overfunded_entry_counterexample :
  let e := {| Ledger.name := "Celeste"; Ledger.contributed := 150;
              Ledger.toActivate := 100 |} in
  let w := Ledger.contributing 150 10 [] in
  let w' := snd (GoogleAPI.runTask (Ledger.fundTask 10) w) in
  Ledger.find (GoogleAPI.remoteGameRequests w) "Celeste" = Some e
  /\ ~ (Ledger.contributed e + 10 > Ledger.toActivate e ->
        GoogleAPI.outcomeType w' 0 = Some GoogleAPI.PendingConfirmation)
  /\ GoogleAPI.outcomeType w' 0 = Some GoogleAPI.Fulfilled
  /\ GoogleAPI.remoteGameRequests w' = Ledger.celeste 160.
Proof.
  cbv zeta. split; [reflexivity | split; [| split; reflexivity]].
  intros Hclaim.
  assert (Hover : 150 + 10 > 100) by lia.
  specialize (Hclaim Hover). vm_compute in Hclaim. discriminate.
Qed.

Lemma fund_outcome_by_crossing_witness :
  GoogleAPI.outcomeType
    (snd (GoogleAPI.runTask (Ledger.fundTask 20) (Ledger.contributing 90 20 []))) 0
  = Some GoogleAPI.PendingConfirmation.
Proof.
  pose proof (@fund_outcome_by_crossing Ledger.sheets
                (Ledger.contributing 90 20 []) 7%nat 0
                "#streamer" "Celeste" "viewer" 20 Ledger.timestamp
                {| Ledger.name := "Celeste"; Ledger.contributed := 90;
                   Ledger.toActivate := 100 |}
                eq_refl eq_refl eq_refl eq_refl) as (_ & Hsettled & _).
  unfold GoogleAPI.outcomeType, Ledger.fundTask. now rewrite Hsettled.
Defined.

Lemma overfunded_entry_funded_without_confirmation_witness :
  GoogleAPI.outcomeType
    (snd (GoogleAPI.runTask (Ledger.fundTask 10) (Ledger.contributing 150 10 []))) 0
  = Some GoogleAPI.Fulfilled.
Proof.
  pose proof (@overfunded_entry_funded_without_confirmation Ledger.sheets
                (Ledger.contributing 150 10 []) 7%nat 0
                "#streamer" "Celeste" "viewer" 10 Ledger.timestamp
                {| Ledger.name := "Celeste"; Ledger.contributed := 150;
                   Ledger.toActivate := 100 |}
                eq_refl eq_refl eq_refl eq_refl) as [Hover _].
  destruct Hover as (_ & _ & Hok); [cbn; lia | lia |].
  destruct (Hok eq_refl) as (_ & Hsettled & _).
  unfold GoogleAPI.outcomeType, Ledger.fundTask. now rewrite Hsettled.
Defined.

Lemma game_request_refusals_notify_without_writing_witness :
  GoogleAPI.refused (Ledger.contributing 90 20 [])
    (@GoogleAPI.GameRequestFund Ledger.sheets 0 "#streamer" "Hades" "viewer" 20
       Ledger.timestamp)
    "#streamer"
    (GoogleAPI.Outcome
       {| GoogleAPI.type := GoogleAPI.Unfulfilled;
          GoogleAPI.overfundAmount := None; GoogleAPI.complete := None |}).
Proof.
  apply (@game_request_refusals_notify_without_writing Ledger.sheets
           (Ledger.contributing 90 20 []) 7%nat 0 "#streamer" "Hades" "viewer"
           2 None 20 Ledger.timestamp eq_refl eq_refl); reflexivity.
Defined.

(** C4: the code at a failing input.  [handleBidwarAddEntry("#streamer",
    "Celeste")] on a started instance: the task runs to its end, once with
    the remote calls succeeding and once with the read rejected (the
    error is caught inside the task); the user is told the result both
    times, and the future the handler returned is still pending.  The
    same holds for [handleBidwarContribute], for [handleBidwarAddFunds]
    and for the cheer of a named user. *)
Theorem bidwar_handler_future_left_pending :
  let addEntry := @GoogleAPI.BidwarAddEntry Ledger.sheets 0 "#streamer" "Celeste" in
  let ok :=
    GoogleAPI.finishTask
      (snd (GoogleAPI.handleBidwarAddEntry "#streamer" "Celeste"
              (Ledger.started 90 []))) in
  let failed :=
    GoogleAPI.finishTask
      (snd (GoogleAPI.handleBidwarAddEntry "#streamer" "Celeste"
              (Ledger.started 90 [Some "503"]))) in
  let contributed :=
    GoogleAPI.finishTask
      (snd (@GoogleAPI.handleBidwarContribute Ledger.sheets "#streamer" "u-1" "viewer" "Celeste"
              50 Ledger.timestamp (Ledger.started 90 []))) in
  let funded :=
    GoogleAPI.finishTask
      (snd (@GoogleAPI.handleBidwarAddFunds Ledger.sheets "#streamer" "u-1" "viewer" 50 None
              Ledger.timestamp (Ledger.started 90 []))) in
  let cheered :=
    GoogleAPI.finishTask
      (snd (GoogleAPI.handleCheer
              {| GoogleAPI.is_anonymous := false;
                 GoogleAPI.cheer_user_id := Some "u-1";
                 GoogleAPI.cheer_user_name := Some "viewer";
                 GoogleAPI.bits := 50 |}
              {| GoogleAPI.created_at := Ledger.timestamp |}
              (Ledger.started 90 []))) in
  (TaskQueue.log (GoogleAPI.taskQueue ok)
   = [TaskQueue.Started addEntry; TaskQueue.Finished addEntry false]
   /\ GoogleAPI.chats (GoogleAPI.trace ok)
      = [("#streamer", "Bidwar entry Celeste was successfully added.")]
   /\ GoogleAPI.futures ok = [Future.Pending])
  /\ (TaskQueue.log (GoogleAPI.taskQueue failed)
      = [TaskQueue.Started addEntry; TaskQueue.Finished addEntry false]
      /\ GoogleAPI.chats (GoogleAPI.trace failed) = [("#streamer", "Error adding entry.")]
      /\ GoogleAPI.futures failed = [Future.Pending])
  /\ (TaskQueue.executing (GoogleAPI.taskQueue contributed) = []
      /\ GoogleAPI.remoteBidwar contributed = [("u-1", -50)]
      /\ GoogleAPI.futures contributed = [Future.Pending])
  /\ (TaskQueue.executing (GoogleAPI.taskQueue funded) = []
      /\ GoogleAPI.remoteBidwar funded = [("u-1", 50)]
      /\ GoogleAPI.futures funded = [Future.Pending])
  /\ (TaskQueue.executing (GoogleAPI.taskQueue cheered) = []
      /\ GoogleAPI.remoteBidwar cheered = [("u-1", 50)]
      /\ GoogleAPI.futures cheered = [Future.Pending]).
Proof. vm_compute. repeat split. Qed.

(** C5: the code at a failing input.  A redemption of 20 points for
    Celeste, at 90 of 100: the funding task stops at the confirmation and
    the queue falls idle.  The user's [!yes] then runs the funding
    operation from the held task: the remote sheet goes from 90 to 110
    while the queue holds, starts and finishes nothing, so this write is
    not one of the queue's serialized tasks. *)
Theorem confirmed_overfund_written_outside_queue :
  let submitted :=
    snd (GoogleAPI.handleGameRequestRedeem Ledger.redemption (Ledger.started 90 [])) in
  let asked := GoogleAPI.finishTask submitted in
  let confirmed := GoogleAPI.heldComplete "u-1" asked in
  GoogleAPI.outcomeType asked 0 = Some GoogleAPI.PendingConfirmation
  /\ TaskQueue.draining (GoogleAPI.taskQueue asked) = false
  /\ TaskQueue.executing (GoogleAPI.taskQueue asked) = []
  /\ GoogleAPI.remoteGameRequests asked = Ledger.celeste 90
  /\ GoogleAPI.serialized false (GoogleAPI.trace asked) = true
  /\ GoogleAPI.taskQueue confirmed = GoogleAPI.taskQueue asked
  /\ GoogleAPI.remoteGameRequests confirmed = Ledger.celeste 110
  /\ filter (fun e => GoogleAPI.isPush e = true)
       (GoogleAPI.since asked confirmed)
     = [@GoogleAPI.Push Ledger.sheets 7%nat GoogleAPI.incentiveSheetId
          GoogleAPI.gameRequestSubSheet]
  /\ GoogleAPI.serialized false (GoogleAPI.trace confirmed) = false.
Proof. vm_compute. repeat split. Qed.

(** Scenarios A and B of the held action: unanswered for 1000 ms, the
    cancellation runs once; completed at 200 ms, the completion runs once
    and nothing more happens at the deadline. *)
Example held_scenarios :
  HeldTask.invoked
    (HeldTask.run [HeldTask.EvRegister "u-1" "complete" "cancel" 1000;
                   HeldTask.EvAdvance 999; HeldTask.EvAdvance 1])
  = [(0%nat, HeldTask.Cancellation, "cancel")]
  /\ HeldTask.invoked
       (HeldTask.run [HeldTask.EvRegister "u-1" "complete" "cancel" 1000;
                      HeldTask.EvAdvance 200; HeldTask.EvComplete "u-1";
                      HeldTask.EvAdvance 800; HeldTask.EvCancel "u-1";
                      HeldTask.EvComplete "u-1"])
     = [(0%nat, HeldTask.Completion, "complete")].
Proof. vm_compute. split; reflexivity. Qed.

(** Scenario C of the executor: [B] fails, [C] still runs after it. *)
Example queue_scenario :
  TaskQueue.log
    (TaskQueue.run [TaskQueue.EvAddTask "A"; TaskQueue.EvStartQueue;
                    TaskQueue.EvAddTask "B"; TaskQueue.EvStartQueue;
                    TaskQueue.EvAddTask "C"; TaskQueue.EvStartQueue;
                    TaskQueue.EvFinish 0 false; TaskQueue.EvFinish 0 true;
                    TaskQueue.EvFinish 0 false])
  = [TaskQueue.Started "A"; TaskQueue.Finished "A" false;
     TaskQueue.Started "B"; TaskQueue.Finished "B" true;
     TaskQueue.Started "C"; TaskQueue.Finished "C" false].
Proof. reflexivity. Qed.

Lemma heldTask_exactly_one_side_witness :
  HeldTask.ran 0 HeldTask.Cancellation
    (HeldTask.invoked
       (HeldTask.run [HeldTask.EvRegister "u-1" "complete" "cancel" 1000;
                      HeldTask.EvAdvance 1000; HeldTask.EvComplete "u-1"]))
  = 1%nat
  /\ HeldTask.ran 0 HeldTask.Completion
       (HeldTask.invoked
          (HeldTask.run [HeldTask.EvRegister "u-1" "complete" "cancel" 1000;
                         HeldTask.EvAdvance 1000; HeldTask.EvComplete "u-1"]))
     = 0%nat.
Proof.
  destruct (heldTask_exactly_one_side [] "u-1" "complete" "cancel" 1000 [])
    as (_ & _ & Hdeadline & _).
  destruct (Hdeadline 1000 [HeldTask.EvComplete "u-1"]) as [_ Hcancel];
    [cbn; lia |].
  apply Hcancel. constructor.
Defined.

Lemma taskQueue_fifo_one_at_a_time_witness :
  TaskQueue.log
    (TaskQueue.run
       ([TaskQueue.EvAddTask "A"; TaskQueue.EvStartQueue; TaskQueue.EvAddTask "B";
         TaskQueue.EvAddTask "C"]
        ++ TaskQueue.EvStartQueue
           :: map (TaskQueue.EvFinish 0) [false; true; false]))
  = [TaskQueue.Started "A"; TaskQueue.Finished "A" false;
     TaskQueue.Started "B"; TaskQueue.Finished "B" true;
     TaskQueue.Started "C"; TaskQueue.Finished "C" false]
  /\ ended
       (TaskQueue.log
          (TaskQueue.run
             ([TaskQueue.EvAddTask "A"; TaskQueue.EvStartQueue;
               TaskQueue.EvAddTask "B"; TaskQueue.EvAddTask "C"]
              ++ TaskQueue.EvStartQueue
                 :: map (TaskQueue.EvFinish 0) [false; true; false])))
     = ["A"; "B"; "C"].
Proof.
  destruct (taskQueue_fifo_one_at_a_time
              [TaskQueue.EvAddTask "A"; TaskQueue.EvStartQueue;
               TaskQueue.EvAddTask "B"; TaskQueue.EvAddTask "C"])
    as (_ & _ & _ & _ & _ & _ & Hall).
  destruct (Hall [false; true; false] eq_refl) as (_ & Hended & _).
  split; [reflexivity | exact Hended].
Defined.

Lemma future_settles_once_same_value_witness :
  Future.st
    (Future.run [Future.CallGet 1; Future.CallSettle "sheets"; Future.CallGet 2;
                 Future.CallSettle "other"])
  = Future.Settled "sheets"
  /\ In (1%nat, "sheets")
       (Future.delivered
          (Future.run [Future.CallGet 1; Future.CallSettle "sheets";
                       Future.CallGet 2; Future.CallSettle "other"]))
  /\ In (2%nat, "sheets")
       (Future.delivered
          (Future.run [Future.CallGet 1; Future.CallSettle "sheets";
                       Future.CallGet 2; Future.CallSettle "other"])).
Proof.
  destruct (future_settles_once_same_value
              [Future.CallGet 1; Future.CallSettle "sheets"; Future.CallGet 2;
               Future.CallSettle "other"])
    as (_ & (_ & Hsettled) & _).
  destruct (Hsettled "sheets" eq_refl) as (Hst & _ & _ & Hanswered).
  split; [exact Hst | split; apply Hanswered; cbn; auto].
Defined.

(** ** Worked examples for the other tasks *)

Lemma game_request_add_writes_new_entry_witness :
  GoogleAPI.remoteGameRequests
    (snd (GoogleAPI.runTask
            (@GoogleAPI.GameRequestAdd Ledger.sheets 0 "#streamer" "Hades" 2 None
               "viewer" 20 Ledger.timestamp)
            (snd (@GoogleAPI.handleGameRequestAdd Ledger.sheets "#streamer" "Hades"
                    2 None "viewer" 20 Ledger.timestamp (Ledger.started 90 [])))))
  = [{| Ledger.name := "Celeste"; Ledger.contributed := 90; Ledger.toActivate := 100 |};
     {| Ledger.name := "Hades"; Ledger.contributed := 20; Ledger.toActivate := 100 |}].
Proof.
  pose proof (@game_request_add_writes_new_entry Ledger.sheets
                (snd (@GoogleAPI.handleGameRequestAdd Ledger.sheets "#streamer"
                        "Hades" 2 None "viewer" 20 Ledger.timestamp
                        (Ledger.started 90 [])))
                7%nat 0 "#streamer" "Hades" 2 None "viewer" 20 Ledger.timestamp
                eq_refl eq_refl eq_refl eq_refl) as [_ (_ & Hremote & _)].
  exact Hremote.
Defined.

Lemma named_cheer_banks_bits_witness :
  GoogleAPI.remoteBidwar
    (snd (GoogleAPI.runTask
            (GoogleAPI.CheerTask 0
               {| GoogleAPI.is_anonymous := false;
                  GoogleAPI.cheer_user_id := Some "u-1";
                  GoogleAPI.cheer_user_name := Some "viewer";
                  GoogleAPI.bits := 100 |}
               {| GoogleAPI.created_at := "2024-01-01T00:00:00Z" |})
            (Ledger.started 90 [])))
  = [("u-1", 100)].
Proof.
  pose proof (@named_cheer_banks_bits Ledger.sheets (Ledger.started 90 []) 7%nat 0
                {| GoogleAPI.is_anonymous := false;
                   GoogleAPI.cheer_user_id := Some "u-1";
                   GoogleAPI.cheer_user_name := Some "viewer";
                   GoogleAPI.bits := 100 |}
                {| GoogleAPI.created_at := "2024-01-01T00:00:00Z" |}
                "u-1" "viewer" eq_refl eq_refl eq_refl eq_refl eq_refl eq_refl)
    as (_ & Hremote & _).
  exact Hremote.
Defined.

Lemma bidwar_contribute_writes_only_on_success_witness :
  GoogleAPI.since
    (Scripted.started (Scripted.refusal (Some "Not enough bits.")) Ledger.ok [])
    (snd (GoogleAPI.runTask
            (@GoogleAPI.BidwarContribute
               (Scripted.sheets (Scripted.refusal (Some "Not enough bits.")) Ledger.ok)
               0 "#streamer" "u-1" "viewer" "Celeste" 50 Ledger.timestamp)
            (Scripted.started (Scripted.refusal (Some "Not enough bits."))
               Ledger.ok [])))
  = [@GoogleAPI.Read
       (Scripted.sheets (Scripted.refusal (Some "Not enough bits.")) Ledger.ok)
       7%nat GoogleAPI.incentiveSheetId GoogleAPI.bidwarSubSheet;
     GoogleAPI.Bot (TwitchBot.SuperChat "#streamer" "Not enough bits.")].
Proof.
  pose proof (@bidwar_contribute_writes_only_on_success
                (Scripted.sheets (Scripted.refusal (Some "Not enough bits.")) Ledger.ok)
                (Scripted.started (Scripted.refusal (Some "Not enough bits."))
                   Ledger.ok [])
                7%nat 0 "#streamer" "u-1" "viewer" "Celeste" 50 Ledger.timestamp
                eq_refl eq_refl) as (_ & _ & _ & Hsince).
  exact Hsince.
Defined.

Lemma bidwar_admin_tasks_catch_every_error_witness :
  fst (GoogleAPI.runTask
         (@GoogleAPI.BidwarAddEntry Ledger.sheets 0 "#streamer" "Celeste")
         (Ledger.started 90 [Some "quota exceeded"]))
  = GoogleAPI.Returned tt.
Proof.
  destruct (@bidwar_admin_tasks_catch_every_error Ledger.sheets
              (Ledger.started 90 [Some "quota exceeded"]) 0 "#streamer" "Celeste"
              "u-1" "viewer" 0 None Ledger.timestamp
              (@GoogleAPI.BidwarAddEntry Ledger.sheets 0 "#streamer" "Celeste")
              (or_introl eq_refl)) as [_ Hcaught].
  destruct (Hcaught 7%nat "quota exceeded" eq_refl eq_refl) as (Hret & _).
  exact Hret.
Defined.

Lemma bidwar_add_entry_stops_only_on_refusal_with_message_witness :
  GoogleAPI.remoteBidwar
    (snd (GoogleAPI.runTask
            (@GoogleAPI.BidwarAddEntry
               (Scripted.sheets Ledger.ok (Scripted.refusal None))
               0 "#streamer" "Celeste")
            (Scripted.started Ledger.ok (Scripted.refusal None) [])))
  = [("Celeste", 0)].
Proof.
  pose proof (@bidwar_add_entry_stops_only_on_refusal_with_message
                (Scripted.sheets Ledger.ok (Scripted.refusal None))
                (Scripted.started Ledger.ok (Scripted.refusal None) [])
                7%nat 0 "#streamer" "Celeste" eq_refl eq_refl)
    as (_ & Hremote & _).
  exact Hremote.
Defined.

Lemma bidwar_add_funds_defaults_source_witness :
  GoogleAPI.since (Ledger.started 90 [])
    (snd (GoogleAPI.runTask
            (@GoogleAPI.BidwarAddFunds Ledger.sheets 0 "#streamer" "u-1" "viewer" 25
               None Ledger.timestamp)
            (Ledger.started 90 [])))
  = [@GoogleAPI.Read Ledger.sheets 7%nat GoogleAPI.incentiveSheetId
       GoogleAPI.bidwarSubSheet;
     @GoogleAPI.Push Ledger.sheets 7%nat GoogleAPI.incentiveSheetId
       GoogleAPI.bidwarSubSheet;
     GoogleAPI.Bot
       (TwitchBot.SuperChat "#streamer"
          "User viewer had 25 added to their bidwar bank balance.")].
Proof.
  pose proof (@bidwar_add_funds_defaults_source Ledger.sheets (Ledger.started 90 [])
                7%nat 0 "#streamer" "u-1" "viewer" 25 None Ledger.timestamp
                eq_refl eq_refl) as (_ & _ & Hsince).
  exact Hsince.
Defined.

(** The funding of Celeste waits for the viewer's confirmation; "Hades"
    is added in between; the confirmed funding then writes Celeste with
    the points and without "Hades". *)
Lemma confirmed_funding_writes_the_sheet_it_read_witness :
  GoogleAPI.remoteGameRequests
    (snd (GoogleAPI.completeFunding
            (GoogleAPI.fundingOf (Ledger.contributing 90 20 []) "#streamer"
               "Celeste" "viewer" 20 Ledger.timestamp)
            (fold_left (fun acc t => snd (GoogleAPI.runTask t acc))
               [@GoogleAPI.GameRequestAdd Ledger.sheets 1 "#streamer" "Hades" 2
                  None "admin" 0 Ledger.timestamp]
               (snd (GoogleAPI.runTask
                       (@GoogleAPI.GameRequestFund Ledger.sheets 0 "#streamer"
                          "Celeste" "viewer" 20 Ledger.timestamp)
                       (Ledger.contributing 90 20 []))))))
  = Ledger.celeste 110.
Proof.
  pose proof (@confirmed_funding_writes_the_sheet_it_read Ledger.sheets
                (Ledger.contributing 90 20 []) 7%nat 0 "#streamer" "Celeste"
                "viewer" 20 Ledger.timestamp
                {| Ledger.name := "Celeste"; Ledger.contributed := 90;
                   Ledger.toActivate := 100 |}
                [@GoogleAPI.GameRequestAdd Ledger.sheets 1 "#streamer" "Hades" 2
                   None "admin" 0 Ledger.timestamp]
                eq_refl eq_refl eq_refl eq_refl) as Hlater.
  cbv zeta in Hlater. destruct Hlater as [_ Hremote]; [vm_compute; reflexivity |].
  rewrite Hremote. vm_compute. reflexivity.
Defined.

Lemma redeem_complete_writes_before_marking_witness :
  redemptionUpdates
    (GoogleAPI.since
       (snd (GoogleAPI.runTask (Ledger.fundTask 20) (Ledger.contributing 90 20 [])))
       (snd (GoogleAPI.runHeldOp
               (GoogleAPI.RedeemComplete
                  (GoogleAPI.fundingOf (Ledger.contributing 90 20 []) "#streamer"
                     "Celeste" "viewer" 20 Ledger.timestamp)
                  Ledger.redemption)
               (snd (GoogleAPI.runTask (Ledger.fundTask 20)
                       (Ledger.contributing 90 20 []))))))
  = [("r-1", true)].
Proof.
  pose proof (@redeem_complete_writes_before_marking Ledger.sheets
                (GoogleAPI.fundingOf (Ledger.contributing 90 20 []) "#streamer"
                   "Celeste" "viewer" 20 Ledger.timestamp)
                Ledger.redemption
                (snd (GoogleAPI.runTask (Ledger.fundTask 20)
                        (Ledger.contributing 90 20 [])))
                7%nat (Ledger.celeste 90) eq_refl eq_refl) as (_ & _ & Hsince).
  rewrite Hsince. reflexivity.
Defined.

Lemma tasks_wait_for_startup_witness :
  GoogleAPI.runTask (Ledger.fundTask 20)
    (@GoogleAPI.initial Ledger.sheets (Ledger.celeste 90) [] [])
  = (GoogleAPI.Suspended, @GoogleAPI.initial Ledger.sheets (Ledger.celeste 90) [] []).
Proof.
  apply (@tasks_wait_for_startup Ledger.sheets (Ledger.fundTask 20)
           (@GoogleAPI.initial Ledger.sheets (Ledger.celeste 90) [] [])
           eq_refl eq_refl).
Defined.

(** ** TwitchBotBase: tags and badges *)

Section TagFacts.
Import TwitchBotBase.

Lemma append_cons c (a b : string) : (String c a ++ b)%string = String c (a ++ b)%string.
Proof. reflexivity. Qed.

Lemma append_empty (b : string) : (EmptyString ++ b)%string = b.
Proof. reflexivity. Qed.

Lemma split_free sep s : free sep s = true -> JS.split sep s = [s].
Proof.
  induction s as [| c s IH]; cbn; [reflexivity |].
  intros [Hc Hs]%andb_true_iff. apply negb_true_iff in Hc. rewrite Hc.
  now rewrite (IH Hs).
Qed.

Lemma split_app sep a b :
  free sep a = true ->
  JS.split sep (a ++ String sep b)%string = a :: JS.split sep b.
Proof.
  induction a as [| c a IH]; cbn [free].
  - intros _. rewrite append_empty. cbn. now rewrite Ascii.eqb_refl.
  - intros [Hc Ha]%andb_true_iff. apply negb_true_iff in Hc.
    rewrite append_cons. cbn. rewrite Hc. now rewrite (IH Ha).
Qed.

Lemma split_join sep (parts : list string) :
  parts <> [] -> Forall (fun part => free sep part = true) parts ->
  JS.split sep (joinWith sep parts) = parts.
Proof.
  induction parts as [| part rest IH]; [congruence |].
  intros _ Hfree. apply Forall_cons in Hfree as [Hpart Hrest].
  destruct rest as [| next rest].
  - cbn. now apply split_free.
  - cbn [joinWith]. rewrite split_app by exact Hpart.
    f_equal. apply IH; [discriminate | exact Hrest].
Qed.

Lemma split_pair sep k v :
  free sep k = true -> free sep v = true ->
  JS.split sep (k ++ String sep v)%string = [k; v].
Proof. intros Hk Hv. rewrite split_app by exact Hk. now rewrite split_free. Qed.

Lemma split_not_nil sep s : JS.split sep s <> [].
Proof.
  destruct s as [| c s]; cbn; [discriminate |].
  destruct (Ascii.eqb c sep); [discriminate |].
  destruct (JS.split sep s); discriminate.
Qed.

Lemma join_split sep s : joinWith sep (JS.split sep s) = s.
Proof.
  induction s as [| c s IH]; cbn; [reflexivity |].
  destruct (Ascii.eqb_spec c sep) as [-> | Hne].
  - pose proof (split_not_nil sep s) as Hnil.
    cbn [joinWith]. destruct (JS.split sep s) eqn:Hs; [congruence |].
    now rewrite IH.
  - pose proof (split_not_nil sep s) as Hnil.
    destruct (JS.split sep s) as [| part parts] eqn:Hs; [congruence |].
    cbn [joinWith] in *. destruct parts; cbn; now rewrite <- IH.
Qed.

Lemma split_parts_free sep s :
  Forall (fun part => free sep part = true) (JS.split sep s).
Proof.
  induction s as [| c s IH]; cbn; [repeat constructor |].
  destruct (Ascii.eqb c sep) eqn:Hc; [now constructor |].
  destruct (JS.split sep s) as [| part parts]; [repeat constructor; cbn; now rewrite Hc |].
  apply Forall_cons in IH as [Hpart Hparts]. constructor; [| exact Hparts].
  cbn. now rewrite Hc.
Qed.

(** A part of [s] between separators occurs in [s]. *)
Lemma split_occurs sep s part :
  In part (JS.split sep s) ->
  exists before after, s = (before ++ part ++ after)%string.
Proof.
  revert part. induction s as [| c s IH]; cbn; intros part.
  - intros [<- | []]. now exists EmptyString, EmptyString.
  - destruct (Ascii.eqb c sep).
    + intros [<- | Hin].
      * now exists EmptyString, (String c s).
      * destruct (IH part Hin) as (before & after & ->).
        now exists (String c before), after.
    + pose proof (join_split sep s) as Hjoin.
      destruct (JS.split sep s) as [| first parts] eqn:Hs.
      * intros [<- | []]. exists EmptyString, s. reflexivity.
      * intros [<- | Hin].
        -- exists EmptyString.
           destruct parts as [| next parts]; cbn [joinWith] in Hjoin.
           ++ exists EmptyString. rewrite <- Hjoin, append_empty, append_cons.
              f_equal. clear.
              induction first; [reflexivity | rewrite append_cons; congruence].
           ++ exists (String sep (joinWith sep (next :: parts))).
              now rewrite <- Hjoin, append_empty, append_cons.
        -- destruct (IH part (or_intror Hin)) as (before & after & ->).
           now exists (String c before), after.
Qed.

Lemma free_app c (a b : string) : free c (a ++ b)%string = free c a && free c b.
Proof.
  induction a as [| x a IH]; [reflexivity |].
  rewrite append_cons. cbn. now rewrite IH, andb_assoc.
Qed.

(** The loop of the two parsers on parts written as pairs. *)
Lemma parse_pairs (outer inner : ascii) (failure : string -> string)
    (pairs : list (string * string)) (o : JS.object) (console : list string) :
  Forall (clean outer inner) pairs ->
  fold_left
    (fun '(parsed, console) part =>
       match JS.split inner part with
       | [k; v] => (JS.set k v parsed, console)
       | _ => (parsed, console ++ [failure part])
       end)
    (map (fun pair => (fst pair ++ String inner (snd pair))%string) pairs) (o, console)
  = (fold_left (fun o pair => JS.set (fst pair) (snd pair) o) pairs o, console).
Proof.
  intros Hclean. revert o.
  induction Hclean as [| [k v] pairs (_ & Hk & _ & Hv) _ IH]; intros o; [reflexivity |].
  cbn [map fold_left fst snd]. rewrite split_pair by assumption. apply IH.
Qed.

Lemma clean_parts (outer inner : ascii) (pairs : list (string * string)) :
  outer <> inner -> Forall (clean outer inner) pairs ->
  Forall (fun part => free outer part = true)
    (map (fun pair => (fst pair ++ String inner (snd pair))%string) pairs).
Proof.
  intros Hne Hclean. apply Forall_map. eapply Forall_impl; [exact Hclean |].
  intros [k v] (Hk & _ & Hv & _). cbn in *.
  rewrite free_app, Hk. cbn. rewrite Hv.
  destruct (Ascii.eqb_spec inner outer); [congruence | reflexivity].
Qed.

(** What a parser has read is what it started from or a part that is
    written as a pair. *)
Lemma parse_sound (inner : ascii) (failure : string -> string) (parts : list string)
    (o : JS.object) (console : list string) (k v : string) :
  fst (fold_left
         (fun '(parsed, console) part =>
            match JS.split inner part with
            | [k; v] => (JS.set k v parsed, console)
            | _ => (parsed, console ++ [failure part])
            end)
         parts (o, console)) !! k = Some v ->
  o !! k = Some v
  \/ (In (k ++ String inner v)%string parts
      /\ free inner k = true /\ free inner v = true /\ k <> "__proto__"%string).
Proof.
  revert o console. induction parts as [| part parts IH]; intros o console; cbn [fold_left].
  - cbn. auto.
  - pose proof (join_split inner part) as Hjoin.
    pose proof (split_parts_free inner part) as Hfree.
    destruct (JS.split inner part) as [| k' [| v' [| ? ?]]] eqn:Hs.
    1, 2, 4: intros Hl; destruct (IH _ _ Hl) as [Ho | (Hin & ?)];
      [now left | right; split; [now right | assumption]].
    intros Hl. destruct (IH _ _ Hl) as [Ho | (Hin & ?)];
      [| right; split; [now right | assumption]].
    unfold JS.set in Ho. destruct (String.eqb k' "__proto__") eqn:Hproto;
      [now left |].
    apply String.eqb_neq in Hproto.
    destruct (decide (k' = k)) as [-> | Hne].
    + unfold JS.object in *. rewrite lookup_insert_eq in Ho. injection Ho as ->.
      apply Forall_cons in Hfree as [Hk Hfree]. apply Forall_cons in Hfree as [Hv _].
      right. cbn [joinWith] in Hjoin. rewrite Hjoin. split; [now left | auto].
    + unfold JS.object in *. rewrite lookup_insert_ne in Ho by exact Hne. now left.
Qed.

Lemma startsWith_at (s : string) : JS.startsWith (String "@" s) "@" = true.
Proof. unfold JS.startsWith. cbn. now destruct s. Qed.

(** The loop of the two parsers on the text of pairs, of which there is
    at least one. *)
Lemma pairs_read_back (outer inner : ascii) (failure : string -> string)
    (pairs : list (string * string)) :
  outer <> inner -> pairs <> [] -> Forall (clean outer inner) pairs ->
  fold_left
    (fun '(parsed, console) part =>
       match JS.split inner part with
       | [k; v] => (JS.set k v parsed, console)
       | _ => (parsed, console ++ [failure part])
       end)
    (JS.split outer (wire outer inner pairs)) (∅, [])
  = (bindings pairs, []).
Proof.
  intros Hne Hpairs Hclean. unfold wire.
  rewrite split_join;
    [| now destruct pairs | apply clean_parts; [exact Hne | exact Hclean]].
  now rewrite (parse_pairs outer) by exact Hclean.
Qed.

(** X12.  [parseTwitchTags] reads back what IRC wrote: for pairs that
    hold neither [;] nor [=], the text "@k1=v1;k2=v2;..." parses to the
    object that assigning the pairs in order gives (a later pair with
    the same key wins, a pair under the key [__proto__] is dropped), and
    nothing is logged. *)
Theorem parseTwitchTags_reads_back (pairs : list (string * string)) :
  Forall (clean ";" "=") pairs ->
  fst (parseTwitchTags (Some (String "@" (wire ";" "=" pairs)))) = bindings pairs
  /\ (pairs <> [] ->
      snd (parseTwitchTags (Some (String "@" (wire ";" "=" pairs)))) = []).
Proof.
  intros Hclean. unfold parseTwitchTags.
  cbn [GoogleAPI.truthy negb default from_option Datatypes.id].
  rewrite startsWith_at. cbn [JS.slice1].
  destruct pairs as [| pair pairs].
  - cbn. split; [reflexivity | congruence].
  - rewrite (pairs_read_back ";" "="
               (fun tag => ("Failed to parse a twitch tag: " ++ tag
                            ++ ". Expected only 2 parts after splitting on '='")%string));
      [| discriminate | discriminate | exact Hclean].
    split; reflexivity.
Qed.

(** X13.  [parseTwitchTags] invents nothing: a key it returns with a
    value stands in the text as "key=value", neither of the two holds
    [;] or [=], and the key is not [__proto__]. *)
Theorem parseTwitchTags_reads_only_pairs (tags key value : string) :
  fst (parseTwitchTags (Some tags)) !! key = Some value ->
  (exists before after,
     tags = (before ++ (key ++ String "=" value) ++ after)%string)
  /\ free "=" key = true /\ free ";" key = true
  /\ free "=" value = true /\ free ";" value = true
  /\ key <> "__proto__"%string.
Proof.
  unfold parseTwitchTags. destruct tags as [| c tags].
  { cbn. intros Hl. unfold JS.object in *. now rewrite lookup_empty in Hl. }
  cbn [GoogleAPI.truthy negb default from_option Datatypes.id]. intros Hl.
  apply parse_sound in Hl as [Hl | (Hin & Hk & Hv & Hproto)].
  { unfold JS.object in *. now rewrite lookup_empty in Hl. }
  pose proof (split_parts_free ";" (if JS.startsWith (String c tags) "@"
                                    then JS.slice1 (String c tags)
                                    else String c tags)) as Hfree.
  rewrite Forall_forall in Hfree. apply list_elem_of_In in Hin as Hel.
  specialize (Hfree _ Hel). rewrite free_app in Hfree. cbn in Hfree.
  apply andb_true_iff in Hfree as [Hk' Hv'].
  apply split_occurs in Hin as (before & after & Heq).
  split; [| auto].
  destruct (JS.startsWith (String c tags) "@") eqn:Hat.
  - cbn [JS.slice1] in Heq. exists (String c before), after.
    now rewrite append_cons, <- Heq.
  - now exists before, after.
Qed.

(** The text of at least one pair is not empty. *)
Lemma wire_truthy (outer inner : ascii) (pair : string * string)
    (pairs : list (string * string)) :
  GoogleAPI.truthy (Some (wire outer inner (pair :: pairs))) = true.
Proof.
  unfold wire. cbn [map joinWith]. destruct pair as [k v]; cbn [fst snd].
  destruct (map _ pairs); destruct k; reflexivity.
Qed.

(** X14.  [parseTwitchBadges] reads back what IRC wrote: for badges
    whose names and versions hold neither [,] nor [/], the text
    "name1/version1,name2/version2,..." parses to the object that
    assigning the pairs in order gives, and nothing is logged; no text
    at all and the empty text give the empty object. *)
Theorem parseTwitchBadges_reads_back (badges : list (string * string)) :
  Forall (clean "," "/") badges ->
  parseTwitchBadges (Some (wire "," "/" badges)) = (bindings badges, [])
  /\ parseTwitchBadges None = (∅, [])
  /\ parseTwitchBadges (Some EmptyString) = (∅, []).
Proof.
  intros Hclean. split; [| split; reflexivity].
  unfold parseTwitchBadges. destruct badges as [| pair badges]; [reflexivity |].
  rewrite wire_truthy. cbn [negb default from_option Datatypes.id].
  apply (pairs_read_back "," "/"
           (fun badge => ("Failed to parse a twitch badge tag: " ++ badge
                          ++ ". Expected only 2 parts after splitting on '/'")%string));
    [discriminate | discriminate | exact Hclean].
Qed.

(** X15.  [shouldIgnoreTimeoutRestrictions] on a message whose tags are
    written as pairs and whose [badges] tag lists badges written as
    pairs: the answer is [true] exactly when the last [broadcaster]
    badge or the last [moderator] badge of the list has a version that
    is not empty.  A message without tags, or whose tags hold no
    [badges], is not exempt. *)
Theorem broadcaster_and_moderators_are_exempt
    (pairs badges : list (string * string)) :
  Forall (clean ";" "=") pairs ->
  Forall (clean "," "/") badges ->
  (bindings pairs !! "badges"%string = Some (wire "," "/" badges) ->
   fst (shouldIgnoreTimeoutRestrictions
          {| tags := Some (String "@" (wire ";" "=" pairs)) |})
   = GoogleAPI.truthy (bindings badges !! "broadcaster"%string)
     || GoogleAPI.truthy (bindings badges !! "moderator"%string))
  /\ (bindings pairs !! "badges"%string = None ->
      fst (shouldIgnoreTimeoutRestrictions
             {| tags := Some (String "@" (wire ";" "=" pairs)) |}) = false)
  /\ fst (shouldIgnoreTimeoutRestrictions {| tags := None |}) = false.
Proof.
  intros Hpairs Hbadges.
  assert (Htags :
    fst (parseTwitchTags (Some (String "@" (wire ";" "=" pairs)))) = bindings pairs).
  { unfold parseTwitchTags.
    cbn [GoogleAPI.truthy negb default from_option Datatypes.id].
    rewrite startsWith_at. cbn [JS.slice1].
    destruct pairs as [| pair pairs]; [reflexivity |].
    now rewrite (pairs_read_back ";" "="
                   (fun tag => ("Failed to parse a twitch tag: " ++ tag
                                ++ ". Expected only 2 parts after splitting on '='")%string))
      by (discriminate || exact Hpairs). }
  assert (Hread :
    fst (parseTwitchBadges (Some (wire "," "/" badges))) = bindings badges).
  { unfold parseTwitchBadges. destruct badges as [| pair badges]; [reflexivity |].
    rewrite wire_truthy. cbn [negb default from_option Datatypes.id].
    now rewrite (pairs_read_back "," "/"
                   (fun badge => ("Failed to parse a twitch badge tag: " ++ badge
                                  ++ ". Expected only 2 parts after splitting on '/'")%string))
      by (discriminate || exact Hbadges). }
  unfold shouldIgnoreTimeoutRestrictions. cbn [tags].
  destruct (parseTwitchTags (Some _)) as [parsed console]. cbn [fst] in Htags.
  subst parsed. split; [| split].
  - intros ->. destruct (parseTwitchBadges (Some _)) as [versions console'].
    cbn [fst] in *. now subst versions.
  - intros ->. reflexivity.
  - reflexivity.
Qed.

End TagFacts.

(** ** TwitchBotBase: the Twitch API *)

Section BotFacts.
Import TwitchBotBase.
Context {IrcBotBase : Type}.
Variable stringify : list TwitchUserInfo -> string.
Variable onError : thrown -> Bot IrcBotBase -> Bot IrcBotBase.
Variable superCallCommandFunctionFromConfig :
  ITwitchBotAuxCommandConfig -> string -> M IrcBotBase bool.
Variable superHandlePartMessage :
  IPartMessageDetail -> Bot IrcBotBase -> Bot IrcBotBase.
Variable superTrackUsersInChat : Z -> Bot IrcBotBase -> Bot IrcBotBase.
Implicit Types (b : Bot IrcBotBase).

Ltac bot_unfold :=
  unfold isChannelLive, handlePartMessage, orChannelDetails, getChannelDetails,
    getStreamDetails, getTwitchIdWithCache, getTwitchId, expectOne, httpsGet,
    onRequestError, consoleLog, awaitAppToken, awaitUserToken, tryCatch, throw,
    never, modify, bind, ret.

Ltac bot_simpl :=
  cbn [base channel twitchIdByUsername userAccessToken twitchAppToken users channels
       streams requests console set_twitchIdByUsername set_userAccessToken set_users
       set_channels set_streams set_requests set_console Future.get fst snd] in *.

(** What [getTwitchId] resolves with is not the empty string. *)
Lemma getTwitchId_truthy username b id b' :
  getTwitchId stringify username b = (Returned id, b') -> id <> EmptyString.
Proof.
  unfold getTwitchId. destruct (GoogleAPI.truthy username); cbn [negb];
    [| unfold throw; discriminate].
  bot_unfold. bot_simpl.
  destruct (twitchAppToken b); bot_simpl; [discriminate |].
  destruct (users b) as [| [data | e | err] rest]; bot_simpl; try discriminate.
  - destruct data as [| [i] data]; cbn; [discriminate |].
    destruct i; cbn; [discriminate |]. now intros [= <- _].
  - destruct (GoogleAPI.truthy _); discriminate.
Qed.

(** [getTwitchIdWithCache] for a user name, by what the cache holds. *)
Lemma getTwitchIdWithCache_named (u : string) b :
  u <> EmptyString ->
  getTwitchIdWithCache stringify (Some u) b
  = if JS.truthy (JS.get (twitchIdByUsername b) u)
    then (Returned (default (JS.Text "") (JS.get (twitchIdByUsername b) u)), b)
    else
      match getTwitchId stringify (Some u) b with
      | (Returned id, b1) =>
          (Returned (JS.Text id),
           set_twitchIdByUsername (JS.set u id (twitchIdByUsername b1)) b1)
      | (Thrown err, b1) =>
          (Thrown (newError ("Error retrieving twitch user id: " ++ template err)), b1)
      | (Suspended, b1) => (Suspended, b1)
      end.
Proof.
  intros Hu. unfold getTwitchIdWithCache.
  assert (Ht : GoogleAPI.truthy (Some u) = true) by now destruct u.
  rewrite Ht. unfold bind at 1. cbn [default from_option Datatypes.id].
  destruct (JS.truthy (JS.get (twitchIdByUsername b) u)); cbn [negb]; [reflexivity |].
  unfold bind, tryCatch, modify, ret, throw.
  now destruct (getTwitchId stringify (Some u) b) as [[id | err |] b1].
Qed.

(** [getTwitchIdWithCache] without a user name, by what the user access
    token holds. *)
Lemma getTwitchIdWithCache_unnamed (username : option string) b :
  GoogleAPI.truthy username = false ->
  getTwitchIdWithCache stringify username b
  = match userAccessToken b with
    | Future.Pending => (Suspended, b)
    | Future.Settled token =>
        if GoogleAPI.truthy (user_id token)
        then (Returned (JS.Text (default "" (user_id token))), b)
        else
          (Thrown
             (newError
                "Error retrieving twitch user id: Cannot retrieve user id for user access token unless token already exists!"),
           b)
    end.
Proof.
  intros Hu. unfold getTwitchIdWithCache, getTwitchId. rewrite Hu. cbn [negb].
  unfold bind at 1 2. unfold awaitUserToken.
  destruct (userAccessToken b) as [| token]; cbn [Future.get]; [reflexivity |].
  unfold ret at 1.
  destruct (user_id token) as [[| c i] |]; reflexivity.
Qed.

(** X17.  Without a user name [getTwitchIdWithCache] never asks Twitch:
    it waits for the user access token and answers with the [user_id]
    stored in it; when the token holds none, or an empty one, the call
    throws, because [getTwitchId] rejects every call without a user name
    before it sends anything.  The bot is left as it was: no request has
    gone out and the token has not been written. *)
Theorem token_id_is_never_asked (username : option string) b :
  GoogleAPI.truthy username = false ->
  fst (getTwitchIdWithCache stringify username b)
  = match userAccessToken b with
    | Future.Pending => Suspended
    | Future.Settled token =>
        if GoogleAPI.truthy (user_id token)
        then Returned (JS.Text (default "" (user_id token)))
        else
          Thrown
            (newError
               "Error retrieving twitch user id: Cannot retrieve user id for user access token unless token already exists!")
    end
  /\ snd (getTwitchIdWithCache stringify username b) = b
  /\ requests (snd (getTwitchIdWithCache stringify username b)) = requests b.
Proof.
  intros Hu. rewrite getTwitchIdWithCache_unnamed by exact Hu.
  destruct (userAccessToken b) as [| token]; [auto |].
  destruct (GoogleAPI.truthy (user_id token)); auto.
Qed.

(** X16.  An id that [getTwitchIdWithCache] returned is returned again
    without asking Twitch: the second call gives the same value and
    leaves everything, the list of requests included, as it was.  (The
    cache holds no own property [__proto__], as no object built by
    assignments does.) *)
Theorem twitch_id_is_asked_once (username : option string) (v : JS.value) b b' :
  twitchIdByUsername b !! "__proto__"%string = None ->
  getTwitchIdWithCache stringify username b = (Returned v, b') ->
  getTwitchIdWithCache stringify username b' = (Returned v, b').
Proof.
  intros Hproto.
  destruct (GoogleAPI.truthy username) eqn:Hu.
  - destruct username as [[| c u] |]; try discriminate.
    set (name := String c u).
    rewrite !getTwitchIdWithCache_named by discriminate.
    destruct (JS.truthy (JS.get (twitchIdByUsername b) name)) eqn:Hhit.
    + intros [= <- <-]. now rewrite Hhit.
    + destruct (getTwitchId stringify (Some name) b) as [[id | err |] b1] eqn:Hget;
        [| discriminate | discriminate].
      pose proof (getTwitchId_truthy _ _ _ _ Hget) as Hid.
      intros [= <- <-]. bot_simpl.
      assert (Hname : name <> "__proto__"%string).
      { intros Heq. unfold JS.get in Hhit. rewrite Heq, Hproto in Hhit. discriminate. }
      unfold JS.set. rewrite <- String.eqb_neq in Hname. rewrite Hname.
      unfold JS.get. unfold JS.object in *. rewrite lookup_insert_eq.
      destruct id; [congruence |]. reflexivity.
  - rewrite !(getTwitchIdWithCache_unnamed username) by exact Hu.
    destruct (userAccessToken b) as [| token] eqn:Ht; [discriminate |].
    destruct (GoogleAPI.truthy (user_id token)) eqn:Hid; [| discriminate].
    intros [= <- <-]. now rewrite Ht, Hid.
Qed.


(** No name of a property of [Object.prototype] is empty. *)
Lemma prototype_named (u : string) : u ∈ JS.prototype -> u <> EmptyString.
Proof.
  intros Hin ->. apply list_elem_of_In in Hin. cbn in Hin. intuition discriminate.
Qed.


(** X19.  A user whose name is the name of a property every plain object
    inherits ([constructor], [toString], [__proto__], ...) finds the
    cache answering for it: with nothing stored under the name, the read
    of the cache gives the inherited property, which is truthy, so
    [getTwitchIdWithCache] returns it, not an id, and never asks
    Twitch. *)
Theorem inherited_name_is_answered_by_the_prototype (u : string) b :
  u ∈ JS.prototype ->
  twitchIdByUsername b !! u = None ->
  getTwitchIdWithCache stringify (Some u) b = (Returned (JS.Inherited u), b).
Proof.
  intros Hin Hnone.
  pose proof (prototype_named u Hin) as Hu.
  rewrite getTwitchIdWithCache_named by exact Hu.
  unfold JS.get. rewrite Hnone. now rewrite bool_decide_eq_true_2.
Qed.

(** X20.  A lookup that Twitch answers with an error response is not
    remembered: [getUserIdForUsername] throws an [Error] whose message
    wraps the reason twice, one request has gone out, and the cache is
    as before, so the next call asks again. *)
Theorem failed_lookup_is_not_cached (u : string) b token
    (errorResponse : TwitchErrorResponse) (rest : list (response TwitchUserInfo)) :
  u <> EmptyString ->
  JS.get (twitchIdByUsername b) u = None ->
  twitchAppToken b = Future.Settled token ->
  users b = Failure errorResponse :: rest ->
  error errorResponse <> EmptyString ->
  let run := getUserIdForUsername stringify u b in
  fst run
  = Thrown
      (newError
         ("Error receiving user id for username " ++ u
          ++ " from twitch: Error retrieving twitch user id: "
          ++ "Error retrieving user info for username " ++ u
          ++ " from twitch API: " ++ describe errorResponse))
  /\ twitchIdByUsername (snd run) = twitchIdByUsername b
  /\ requests (snd run) = requests b ++ [GetUsers u (access_token token)]
  /\ users (snd run) = rest.
Proof.
  intros Hu Hmiss Ht Hanswer Herror run.
  assert (Hrun : run
    = (Thrown
         (newError
            ("Error receiving user id for username " ++ u
             ++ " from twitch: Error retrieving twitch user id: "
             ++ "Error retrieving user info for username " ++ u
             ++ " from twitch API: " ++ describe errorResponse)),
       set_users rest
         (set_requests (requests b ++ [GetUsers u (access_token token)]) b))).
  { subst run. unfold getUserIdForUsername. unfold tryCatch at 1.
    rewrite getTwitchIdWithCache_named by exact Hu. rewrite Hmiss. cbn [JS.truthy].
    unfold getTwitchId.
    assert (Htruthy : GoogleAPI.truthy (Some u) = true) by now destruct u.
    assert (Htruthy' : GoogleAPI.truthy (Some (error errorResponse)) = true)
      by now destruct (error errorResponse).
    rewrite Htruthy. cbn [negb default from_option Datatypes.id].
    bot_unfold. bot_simpl. rewrite Ht. bot_simpl. rewrite Hanswer. bot_simpl.
    rewrite Htruthy'. reflexivity. }
  rewrite Hrun. auto.
Qed.

Lemma isChannelLive_total (channelName : string) b err :
  fst (isChannelLive channelName b) <> Thrown err.
Proof.
  unfold isChannelLive, tryCatch, bind, ret.
  destruct (getStreamDetails channelName b) as [[info | err' |] b']; discriminate.
Qed.

Lemma isChannelLive_answer (channelName : string) b token answer rest :
  twitchAppToken b = Future.Settled token ->
  streams b = answer :: rest ->
  (forall errorResponse,
     answer = Failure errorResponse -> error errorResponse <> EmptyString) ->
  fst (isChannelLive channelName b)
  = Returned match answer with
             | Data [channelInfoResponse] =>
                 String.eqb (type channelInfoResponse) "live"
             | _ => false
             end
  /\ requests (snd (isChannelLive channelName b))
     = requests b ++ [GetStreams channelName (access_token token)].
Proof.
  intros Ht Hanswer Herror.
  bot_unfold. bot_simpl. rewrite Ht. bot_simpl. rewrite Hanswer. bot_simpl.
  destruct answer as [data | e | err']; bot_simpl.
  - destruct data as [| first [| second data]]; cbn; auto.
  - specialize (Herror e eq_refl).
    destruct (error e) eqn:He; [congruence |]. cbn. auto.
  - auto.
Qed.

(** X21.  [isChannelLive] never throws.  With the app token at hand and
    an answer from Twitch, it sends one request and says [true] exactly
    when the answer holds one stream and its type is "live"; an error
    response, a failed request, no stream and more than one stream all
    give [false]. *)
Theorem isChannelLive_never_throws (channelName : string) b :
  (forall err, fst (isChannelLive channelName b) <> Thrown err)
  /\ (forall token answer rest,
        twitchAppToken b = Future.Settled token ->
        streams b = answer :: rest ->
        (forall errorResponse,
           answer = Failure errorResponse -> error errorResponse <> EmptyString) ->
        fst (isChannelLive channelName b)
        = Returned match answer with
                   | Data [channelInfoResponse] =>
                       String.eqb (type channelInfoResponse) "live"
                   | _ => false
                   end
        /\ requests (snd (isChannelLive channelName b))
           = requests b ++ [GetStreams channelName (access_token token)]).
Proof.
  split; [apply isChannelLive_total | apply isChannelLive_answer].
Qed.

(** X24.  [getChannelDetails] for a channel whose id is in the cache,
    with the app token at hand and an answer from Twitch: the id is not
    asked for, one [channels] request goes out with the cached id, and
    the call resolves only when the answer holds exactly one element;
    an empty answer and an answer with several elements are rejected
    with their own reasons, and a failed request is logged and rejected
    with its error. *)
Theorem getChannelDetails_expects_one_channel (channelName cached : string) b token
    (answer : response TwitchGetChannelInfo) (rest : list (response TwitchGetChannelInfo)) :
  channelName <> EmptyString ->
  cached <> EmptyString ->
  twitchIdByUsername b !! channelName = Some cached ->
  twitchAppToken b = Future.Settled token ->
  channels b = answer :: rest ->
  let run := getChannelDetails stringify channelName b in
  requests (snd run)
  = requests b ++ [GetChannels (JS.Text cached) (access_token token)]
  /\ twitchIdByUsername (snd run) = twitchIdByUsername b
  /\ match answer with
     | Data [] =>
         fst run = Thrown (Reason "No channel info received in response, expected one.")
     | Data [streamDetails] => fst run = Returned streamDetails
     | Data (_ :: _ :: _) =>
         fst run
         = Thrown (Reason "More than one channel info received, expected only one.")
     | Failure errorResponse =>
         error errorResponse <> EmptyString ->
         fst run
         = Thrown (Reason ("Error retrieving channel info from twitch API: "
                           ++ describe errorResponse))
     | RequestError err =>
         fst run = Thrown err
         /\ console (snd run)
            = console b ++ [Line "Error sending auth token request to twitch:";
                            Object err]
     end.
Proof.
  intros Hname Hcached Hhit Ht Hanswer run.
  assert (Hrun : run
    = expectOne "channel" answer
        (set_channels rest
           (set_requests
              (requests b ++ [GetChannels (JS.Text cached) (access_token token)]) b))).
  { subst run. unfold getChannelDetails. unfold bind at 1.
    rewrite getTwitchIdWithCache_named by exact Hname.
    unfold JS.get. rewrite Hhit.
    assert (Htruthy : JS.truthy (Some (JS.Text cached)) = true) by now destruct cached.
    rewrite Htruthy. cbn [default from_option Datatypes.id].
    unfold bind, awaitAppToken, httpsGet. bot_simpl. rewrite Ht. bot_simpl.
    rewrite Hanswer. reflexivity. }
  rewrite Hrun. bot_unfold.
  destruct answer as [data | e | err]; bot_simpl.
  - destruct data as [| first [| second data]]; cbn; auto.
  - destruct (error e) eqn:He; cbn; [| auto].
    split; [reflexivity | split; [reflexivity | congruence]].
  - rewrite <- app_assoc. auto.
Qed.


(** X22.  [callCommandFunctionFromConfig].  A command with neither
    filter goes to [super] as it is, and the channel is not looked up.
    With a filter, the channel details are fetched once; the command
    goes to [super] exactly when the game is one of the whitelist (if
    there is a whitelist) and the title holds one of the given texts (if
    there are any); otherwise the answer is [false].  An empty
    whitelist, and an empty list of texts, let nothing through.  When
    the fetch fails, the error goes to [onError] and the answer is
    [false]. *)
Theorem command_goes_to_super_only_through_the_filters
    (command : ITwitchBotAuxCommandConfig) (channelArgument : string) b :
  let run :=
    callCommandFunctionFromConfig stringify onError superCallCommandFunctionFromConfig
      command channelArgument b in
  match autoPostGameWhitelist command, autoPostIfTitleContainsAny command with
  | None, None => run = superCallCommandFunctionFromConfig command channelArgument b
  | whitelist, substrings =>
      match getChannelDetails stringify (twitchChannelName b) b with
      | (Returned streamDetails, b') =>
          run
          = if match whitelist with
               | Some games =>
                   existsb (fun gameName =>
                              String.eqb (game_name streamDetails) gameName) games
               | None => true
               end
               && match substrings with
                  | Some texts =>
                      existsb (fun substring =>
                                 JS.includes (title streamDetails) substring) texts
                  | None => true
                  end
            then superCallCommandFunctionFromConfig command channelArgument b'
            else (Returned false, b')
      | (Thrown err, b') => run = (Returned false, onError err b')
      | (Suspended, b') => run = (Suspended, b')
      end
  end.
Proof.
  intros run. subst run. unfold callCommandFunctionFromConfig.
  destruct (autoPostGameWhitelist command) as [games |],
    (autoPostIfTitleContainsAny command) as [texts |].
  all: unfold orChannelDetails, tryCatch, bind, modify, ret.
  all: try destruct (getChannelDetails stringify (twitchChannelName b) b)
         as [[streamDetails | err |] b'].
  all: try reflexivity.
  all: try destruct (existsb _ games); try destruct (existsb _ texts); reflexivity.
Qed.

End BotFacts.

(** ** Worked examples for the bot *)

Lemma parseTwitchTags_reads_back_witness :
  fst (TwitchBotBase.parseTwitchTags
         (Some "@badges=moderator/1;color=#1E90FF;mod=1"))
  = bindings [("badges", "moderator/1"); ("color", "#1E90FF"); ("mod", "1")]%string.
Proof.
  apply (parseTwitchTags_reads_back
           [("badges", "moderator/1"); ("color", "#1E90FF"); ("mod", "1")]%string).
  repeat constructor.
Defined.

(** A tag whose value holds [=] is not read. *)
Lemma parseTwitchTags_reads_only_pairs_witness :
  fst (TwitchBotBase.parseTwitchTags (Some "@mod=1;reply=a=b")) !! "reply"%string = None
  /\ exists before after,
       "@mod=1;reply=a=b"%string = (before ++ ("mod" ++ String "=" "1") ++ after)%string.
Proof.
  split; [vm_compute; reflexivity |].
  apply (parseTwitchTags_reads_only_pairs "@mod=1;reply=a=b" "mod" "1").
  vm_compute. reflexivity.
Defined.

Lemma parseTwitchBadges_reads_back_witness :
  TwitchBotBase.parseTwitchBadges (Some "moderator/1,subscriber/12")
  = (bindings [("moderator", "1"); ("subscriber", "12")]%string, []).
Proof.
  apply (parseTwitchBadges_reads_back
           [("moderator", "1"); ("subscriber", "12")]%string).
  repeat constructor.
Defined.

Lemma broadcaster_and_moderators_are_exempt_witness :
  fst (TwitchBotBase.shouldIgnoreTimeoutRestrictions
         {| TwitchBotBase.tags :=
              Some "@badges=moderator/1,subscriber/12;color=#1E90FF" |})
  = true.
Proof.
  destruct (broadcaster_and_moderators_are_exempt
              [("badges", "moderator/1,subscriber/12"); ("color", "#1E90FF")]%string
              [("moderator", "1"); ("subscriber", "12")]%string)
    as [Hexempt _]; [repeat constructor | repeat constructor |].
  etransitivity; [exact (Hexempt ltac:(vm_compute; reflexivity)) |].
  vm_compute. reflexivity.
Defined.

Lemma twitch_id_is_asked_once_witness :
  TwitchBotBase.getTwitchIdWithCache Channel.stringify (Some "viewer")
    (snd (TwitchBotBase.getTwitchIdWithCache Channel.stringify (Some "viewer")
            (Channel.bot [] None
               [TwitchBotBase.Data [{| TwitchBotBase.id := "1234" |}]])))
  = (TwitchBotBase.Returned (JS.Text "1234"),
     snd (TwitchBotBase.getTwitchIdWithCache Channel.stringify (Some "viewer")
            (Channel.bot [] None
               [TwitchBotBase.Data [{| TwitchBotBase.id := "1234" |}]]))).
Proof.
  apply (twitch_id_is_asked_once Channel.stringify (Some "viewer"%string)
           (JS.Text "1234")
           (Channel.bot [] None
              [TwitchBotBase.Data [{| TwitchBotBase.id := "1234" |}]])).
  - vm_compute. reflexivity.
  - vm_compute. reflexivity.
Defined.

Lemma token_id_is_never_asked_witness :
  fst (TwitchBotBase.getTwitchIdWithCache Channel.stringify None
         (Channel.bot [] (Some "42") []))
  = TwitchBotBase.Returned (JS.Text "42").
Proof.
  apply (token_id_is_never_asked Channel.stringify None
           (Channel.bot [] (Some "42"%string) []) eq_refl).
Defined.


Lemma inherited_name_is_answered_by_the_prototype_witness :
  TwitchBotBase.getTwitchIdWithCache Channel.stringify (Some "constructor")
    (Channel.bot [] None [])
  = (TwitchBotBase.Returned (JS.Inherited "constructor"), Channel.bot [] None []).
Proof.
  apply (inherited_name_is_answered_by_the_prototype Channel.stringify
           "constructor" (Channel.bot [] None [])).
  - apply (bool_decide_unpack _). vm_compute. exact I.
  - vm_compute. reflexivity.
Defined.

Lemma failed_lookup_is_not_cached_witness :
  fst (TwitchBotBase.getUserIdForUsername Channel.stringify "viewer"
         (Channel.bot [] None
            [TwitchBotBase.Failure
               {| TwitchBotBase.error := "Unauthorized"; TwitchBotBase.status := 401;
                  TwitchBotBase.message := "Invalid OAuth token" |}]))
  = TwitchBotBase.Thrown
      (TwitchBotBase.newError
         "Error receiving user id for username viewer from twitch: Error retrieving twitch user id: Error retrieving user info for username viewer from twitch API: 401 Unauthorized: Invalid OAuth token").
Proof.
  apply (failed_lookup_is_not_cached Channel.stringify "viewer"
           (Channel.bot [] None
              [TwitchBotBase.Failure
                 {| TwitchBotBase.error := "Unauthorized"; TwitchBotBase.status := 401;
                    TwitchBotBase.message := "Invalid OAuth token" |}])
           {| TwitchBotBase.access_token := "app-token" |}
           {| TwitchBotBase.error := "Unauthorized"; TwitchBotBase.status := 401;
              TwitchBotBase.message := "Invalid OAuth token" |} []).
  - discriminate.
  - vm_compute. reflexivity.
  - reflexivity.
  - reflexivity.
  - discriminate.
Defined.

Lemma getChannelDetails_expects_one_channel_witness :
  fst (TwitchBotBase.getChannelDetails Channel.stringify "streamer"
         (TwitchBotBase.set_channels [TwitchBotBase.Data []]
            (Channel.bot [("streamer", "777")]%string None [])))
  = TwitchBotBase.Thrown
      (TwitchBotBase.Reason "No channel info received in response, expected one.").
Proof.
  apply (getChannelDetails_expects_one_channel Channel.stringify "streamer" "777"
           (TwitchBotBase.set_channels [TwitchBotBase.Data []]
              (Channel.bot [("streamer", "777")]%string None []))
           {| TwitchBotBase.access_token := "app-token" |}
           (TwitchBotBase.Data []) []).
  - discriminate.
  - discriminate.
  - vm_compute. reflexivity.
  - reflexivity.
  - reflexivity.
Defined.

Lemma isChannelLive_never_throws_witness :
  fst (TwitchBotBase.isChannelLive "streamer"
         (TwitchBotBase.set_streams
            [TwitchBotBase.Data [{| TwitchBotBase.type := "live" |}]]
            (Channel.bot [] None [])))
  = TwitchBotBase.Returned true.
Proof.
  destruct (isChannelLive_never_throws "streamer"
              (TwitchBotBase.set_streams
                 [TwitchBotBase.Data [{| TwitchBotBase.type := "live" |}]]
                 (Channel.bot [] None []))) as [_ Hanswer].
  destruct (Hanswer {| TwitchBotBase.access_token := "app-token" |}
              (TwitchBotBase.Data [{| TwitchBotBase.type := "live" |}]) []
              eq_refl eq_refl) as [Hlive _]; [discriminate |].
  exact Hlive.
Defined.

